(** * Logiops360 dashboards: the client-side aggregation layer

    A shallow embedding of the data transformations that the storage and
    transport dashboards run on the records returned by the backend:

    - [top5IN] / [top5OUT]   (StockageDashboard): Top-5 products moved into /
      out of the fast zone "A", computed from [slotting.sample];
    - [svgPoints]            (StockageDashboard): projection of the storage
      supports onto the SVG canvas (x/y, else lat/lon, else a grid);
    - [colorForOccupancy]    (StockageDashboard): green-to-red colour ramp;
    - [onPredict]            (CarrierSimpleCard): the Top-3 carrier
      recommendation handler.

    Numbers.  JavaScript numbers are modelled exactly.  A quantity of moved
    units is a [Js.value]: a string, or a number taken among the integers of
    absolute value at most 2^53, on which the arithmetic of doubles is
    exact; an operation that leaves them has no result in the model
    ([None]).  Coordinates, ratios and radii are rationals ([Q]); rounding
    and overflow of IEEE doubles are not represented there, and the only way
    those expressions can leave the finite numbers is a division by zero,
    which [jsdiv] makes explicit.  In [ForecastTile.pct] the rounding of the
    product to a double is a parameter of the function.

    Partial results.  Where the language leaves a result to the
    implementation (the text of a built-in function, the order produced by
    a sort whose comparator is not a number), or where a number leaves the
    exact integers, the embedded function returns [None]: the model says
    nothing about such a run.

    Missing fields.  The records come from [JSON.parse] and are only cast to
    their TypeScript types, so every field which the code guards with
    [||], [??] or [typeof] is an [option]: [None] is [undefined] / [null]
    (and, for numbers guarded by [|| 0], also [NaN]). *)

From Stdlib Require Import List ZArith NArith QArith Qround Qminmax.
From Stdlib Require Import String Ascii Bool Lia Lqa DecimalString.
From Stdlib Require Import Permutation Sorted.
Import ListNotations.

Set Implicit Arguments.

(* ------------------------------------------------------------------ *)
(** ** JavaScript primitives used by the dashboards *)

Module Js.

(** [String(n)] / template-literal rendering of an integer. *)
Definition string_of_Z (z : Z) : string :=
  NilZero.string_of_int (Z.to_int z).

Definition string_of_nat (n : nat) : string :=
  NilZero.string_of_uint (Nat.to_uint n).

(** [String.prototype.toUpperCase], on the ASCII letters.  The dashboards
    only compare the result with ["A"]. *)
Definition upper_ascii (c : ascii) : ascii :=
  let n := nat_of_ascii c in
  if (97 <=? n)%nat && (n <=? 122)%nat then ascii_of_nat (n - 32) else c.

Fixpoint toUpperCase (s : string) : string :=
  match s with
  | EmptyString => EmptyString
  | String c t => String (upper_ascii c) (toUpperCase t)
  end.

(** [v || d] for a string that may be missing: [undefined], [null] and the
    empty string are falsy. *)
Definition or_string (v : option string) (d : string) : string :=
  match v with
  | Some EmptyString | None => d
  | Some s => s
  end.

(** [v ?? d]: only [undefined] and [null] are replaced. *)
Definition nullish (v : option string) (d : string) : string :=
  match v with
  | Some s => s
  | None => d
  end.

(** [v || 0] for an integer that may be missing ([undefined], [null], [NaN]
    and [0] itself are falsy). *)
Definition or_zero (v : option Z) : Z :=
  match v with
  | Some z => z
  | None => 0%Z
  end.

(** [v || 0] on rationals. *)
Definition or_zeroQ (v : option Q) : Q :=
  match v with
  | Some q => q
  | None => 0
  end.

(** [d || 1] on a number: [0] is falsy. *)
Definition or_one (d : Q) : Q := if Qeq_bool d 0 then 1 else d.

(** Division.  [None] stands for the non-finite results ([NaN], [Infinity],
    [-Infinity]) that a division by zero produces. *)
Definition jsdiv (a b : Q) : option Q :=
  if Qeq_bool b 0 then None else Some (a / b).

(** [Math.round]: nearest integer, halves towards +Infinity. *)
Definition Math_round (q : Q) : Z := Qfloor (q + (1 # 2)).

(** [Math.ceil]. *)
Definition Math_ceil (q : Q) : Z := Qceiling q.

(** [Math.min(...l)] and [Math.max(...l)] of a non-empty array (the code only
    spreads arrays of length at least 2; the empty case, [Infinity] in
    JavaScript, is never reached). *)
Definition Math_min_list (l : list Q) : Q :=
  match l with
  | [] => 0
  | h :: t => fold_left Qmin t h
  end.

Definition Math_max_list (l : list Q) : Q :=
  match l with
  | [] => 0
  | h :: t => fold_left Qmax t h
  end.

(** [Array.prototype.map] with the index argument. *)
Fixpoint mapi_from {A B} (i : nat) (f : A -> nat -> B) (l : list A) : list B :=
  match l with
  | [] => []
  | a :: t => f a i :: mapi_from (S i) f t
  end.

Definition mapi {A B} (f : A -> nat -> B) (l : list A) : list B :=
  mapi_from 0 f l.

(** A value found where the code expects a number.  [Num z] is the double
    of value [z], for an integer [z] of absolute value at most 2^53
    ([safe z]); [Str s] is a string; [Other] is any other truthy value: a
    number that is not such an integer, [true], an array, an object.  The
    falsy values [undefined], [null], [NaN] and [false] are the [None] of an
    [option].  The model computes on numbers and strings only. *)
Inductive value := Num (z : Z) | Str (s : string) | Other.

Definition safe (z : Z) : bool := (Z.abs z <=? 2 ^ 53)%Z.

(** The values on which the model computes. *)
Definition representable (v : value) : bool :=
  match v with
  | Num z => safe z
  | Str _ => true
  | Other => false
  end.

(** [v || 0] for a value that may be missing: [undefined], [null], [NaN],
    [false], [0] and the empty string are falsy. *)
Definition or_zero_value (v : option value) : value :=
  match v with
  | None | Some (Num Z0) | Some (Str EmptyString) => Num 0
  | Some w => w
  end.

(** [String(v)] of a number or a string. *)
Definition to_string (v : value) : string :=
  match v with
  | Num z => string_of_Z z
  | Str s => s
  | Other => EmptyString
  end.

(** [a + b]: the sum of two numbers, the concatenation of the operands as
    strings when one of them is a string.  [None] when an operand is not
    representable or the sum is not an exact integer of the model. *)
Definition add (a b : value) : option value :=
  if representable a && representable b then
    match a, b with
    | Num x, Num y => if safe (x + y) then Some (Num (x + y)) else None
    | _, _ => Some (Str (to_string a ++ to_string b))
    end
  else None.

(** [a - b] in a comparator: only the sign is used, and on numbers the sign
    of the difference of two doubles is that of the exact difference.
    [None] when an operand is not a number: [-] first converts a string to a
    number or to [NaN]. *)
Definition sub (a b : value) : option Z :=
  match a, b with
  | Num x, Num y => Some (x - y)%Z
  | _, _ => None
  end.

(** [Array.prototype.sort(cmp)].  ECMAScript 2019 requires the sort to be
    stable, so for a consistent comparator the result is determined; it is
    computed here by a stable insertion sort.  [cmp a b > 0] means that [a]
    goes after [b].  The sort has no result in the model as soon as a
    comparison has none. *)
Fixpoint sort_insert {A} (cmp : A -> A -> option Z) (a : A) (l : list A)
  : option (list A) :=
  match l with
  | [] => Some [a]
  | h :: t =>
      match cmp a h with
      | Some c =>
          if (0 <? c)%Z then option_map (cons h) (sort_insert cmp a t)
          else Some (a :: h :: t)
      | None => None
      end
  end.

Fixpoint sort {A} (cmp : A -> A -> option Z) (l : list A) : option (list A) :=
  match l with
  | [] => Some []
  | a :: t =>
      match sort cmp t with
      | Some sorted => sort_insert cmp a sorted
      | None => None
      end
  end.

(** [Array.prototype.slice(0, n)]. *)
Definition slice0 {A} (n : nat) (l : list A) : list A := firstn n l.

End Js.

(* ------------------------------------------------------------------ *)
(** ** Plain objects used as dictionaries: [Record<string, number>]

    An object created by [{}] is represented by its own properties in
    creation order, over the prototype [Object.prototype].  [Object.entries]
    does not follow creation order for every key: the keys that are array
    indices (canonical decimal numerals below 2^32 - 1) come first, in
    ascending numeric order, and the other string keys follow in creation
    order (OrdinaryOwnPropertyKeys). *)

Module JsObject.

Definition t (V : Type) := list (string * V).

Definition empty {V} : t V := [].

(** The own property [k] of [o]. *)
Fixpoint own {V} (o : t V) (k : string) : option V :=
  match o with
  | [] => None
  | (k', v) :: rest => if String.eqb k' k then Some v else own rest k
  end.

(** Creation or update of the own data property [k]: an existing property
    keeps its place, a new one is created last. *)
Fixpoint define {V} (o : t V) (k : string) (v : V) : t V :=
  match o with
  | [] => [(k, v)]
  | (k', v') :: rest =>
      if String.eqb k' k then (k', v) :: rest else (k', v') :: define rest k v
  end.

(** The methods that every object inherits from [Object.prototype]. *)
Definition builtin_functions : list string :=
  [ "constructor"; "hasOwnProperty"; "isPrototypeOf"; "propertyIsEnumerable";
    "toLocaleString"; "toString"; "valueOf"; "__defineGetter__";
    "__defineSetter__"; "__lookupGetter__"; "__lookupSetter__" ]%string.

(** The accessor of [Object.prototype] that reads and writes the prototype
    of an object. *)
Definition proto : string := "__proto__".

(** What [o[k]] evaluates to: an own property, or else what the prototype
    chain gives: the prototype itself for ["__proto__"], a built-in function
    for the name of a method, [undefined] for any other key. *)
Inductive lookup (V : Type) :=
| Own (v : V)
| Prototype
| Builtin
| Undefined.

Arguments Own {V} v.
Arguments Prototype {V}.
Arguments Builtin {V}.
Arguments Undefined {V}.

(** [o[k]] *)
Definition get {V} (o : t V) (k : string) : lookup V :=
  match own o k with
  | Some v => Own v
  | None =>
      if String.eqb k proto then Prototype
      else if existsb (String.eqb k) builtin_functions then Builtin
      else Undefined
  end.

(** [o[k] = v] for a primitive [v] (a number or a string).  The setter of
    ["__proto__"] ignores a primitive and creates no property; any other
    key gets an own property, which hides an inherited method of that
    name. *)
Definition set {V} (o : t V) (k : string) (v : V) : t V :=
  if String.eqb k proto then o else define o k v.

(** A key is an array index when it is the canonical numeral of an integer
    in [0, 2^32 - 2]: [ToString(ToUint32(k)) = k]. *)
Definition array_index (k : string) : option N :=
  match NilZero.uint_of_string k with
  | Some u =>
      let n := N.of_uint u in
      if String.eqb (NilZero.string_of_uint (N.to_uint n)) k
         && (n <? 4294967295)%N
      then Some n else None
  | None => None
  end.

Definition is_index {V} (p : string * V) : bool :=
  match array_index (fst p) with Some _ => true | None => false end.

Definition index_of_key {V} (p : string * V) : N :=
  match array_index (fst p) with Some n => n | None => 0%N end.

Fixpoint insert_index {V} (p : string * V) (l : list (string * V)) :=
  match l with
  | [] => [p]
  | h :: rest =>
      if (index_of_key p <? index_of_key h)%N then p :: h :: rest
      else h :: insert_index p rest
  end.

Fixpoint ascending {V} (l : list (string * V)) :=
  match l with
  | [] => []
  | p :: rest => insert_index p (ascending rest)
  end.

(** [Object.entries(o)]. *)
Definition entries {V} (o : t V) : list (string * V) :=
  ascending (filter is_index o) ++ filter (fun p => negb (is_index p)) o.

End JsObject.

(* ------------------------------------------------------------------ *)
(** ** Top-5 product flows of the fast zone (StockageDashboard) *)

(** One element of [SlottingResponse.sample].  The type declares
    [move_qty: number]; the response is only cast to it, so the field holds
    whatever the JSON holds. *)
Record Move := mkMove {
  referenceproduit : option string;
  from_zone : option string;
  to_zone : option string;
  move_qty : option Js.value;
  reason : string
}.

(** [SlottingResponse]; [sample = None] when the field is not an array.
    ([summary] and [csv_path] are not read by the Top-5 computation.) *)
Record SlottingResponse := mkSlotting {
  sample : option (list Move)
}.

(** The [{ ref, qty }] objects of the result; [qty] is a [Js.value] in the
    program. *)
Record Flow (V : Type) := mkFlow { ref : string; qty : V }.

Arguments mkFlow {V} ref qty.
Arguments ref {V} f.
Arguments qty {V} f.

Definition fast_zone : string := "A".

(** [s.referenceproduit || "?"] *)
Definition key_of (s : Move) : string :=
  Js.or_string (referenceproduit s) "?".

(** [(zone || "").toUpperCase() === "A"] *)
Definition in_fast_zone (zone : option string) : bool :=
  String.eqb (Js.toUpperCase (Js.or_string zone "")) fast_zone.

(** [agg[key] || 0], as the left operand of [+].  The prototype object is
    truthy and is converted to the string "[object Object]"; a built-in
    function is truthy too, and converted to its source text, which the
    language leaves to the implementation ([None]). *)
Definition current (agg : JsObject.t Js.value) (key : string)
  : option Js.value :=
  match JsObject.get agg key with
  | JsObject.Own v => Some (Js.or_zero_value (Some v))
  | JsObject.Undefined => Some (Js.Num 0)
  | JsObject.Prototype => Some (Js.Str "[object Object]")
  | JsObject.Builtin => None
  end.

(** Body of the [for (const s of slotting.sample)] loop; [zone] is the
    field tested by the [if] ([to_zone] for IN, [from_zone] for OUT). *)
Definition agg_step (zone : Move -> option string)
    (agg : JsObject.t Js.value) (s : Move) : option (JsObject.t Js.value) :=
  if in_fast_zone (zone s) then
    let key := key_of s in
    match current agg key with
    | Some cur =>
        match Js.add cur (Js.or_zero_value (move_qty s)) with
        | Some sum => Some (JsObject.set agg key sum)
        | None => None
        end
    | None => None
    end
  else Some agg.

(** The loop, from the object [agg]. *)
Fixpoint aggregate_from (zone : Move -> option string) (l : list Move)
    (agg : JsObject.t Js.value) : option (JsObject.t Js.value) :=
  match l with
  | [] => Some agg
  | s :: rest =>
      match agg_step zone agg s with
      | Some agg' => aggregate_from zone rest agg'
      | None => None
      end
  end.

Definition aggregate (zone : Move -> option string) (l : list Move)
  : option (JsObject.t Js.value) :=
  aggregate_from zone l JsObject.empty.

(** [([ref, qty]) => ({ ref, qty })] *)
Definition flow_of {V} (p : string * V) : Flow V := mkFlow (fst p) (snd p).

(** [(a, b) => b.qty - a.qty] *)
Definition by_qty_desc (a b : Flow Js.value) : option Z :=
  Js.sub (qty b) (qty a).

(** The two memoised computations share their body up to the zone field. *)
Definition top5 (zone : Move -> option string)
    (slotting : option SlottingResponse) : option (list (Flow Js.value)) :=
  match slotting with
  | None => Some []
  | Some sl =>
      match sample sl with
      | None => Some []
      | Some moves =>
          match aggregate zone moves with
          | Some agg =>
              match Js.sort by_qty_desc (map flow_of (JsObject.entries agg))
              with
              | Some sorted => Some (Js.slice0 5 sorted)
              | None => None
              end
          | None => None
          end
      end
  end.

Definition top5IN := top5 to_zone.
Definition top5OUT := top5 from_zone.

(** The direction of a flow with respect to the fast zone. *)
Inductive Direction := IN | OUT.

Definition zone_field (d : Direction) : Move -> option string :=
  match d with IN => to_zone | OUT => from_zone end.

(** [topFlows(moves, direction, "A", 5)] of the specification: the memoised
    value for a response whose [sample] is [moves]. *)
Definition topFlows (d : Direction) (moves : list Move)
  : option (list (Flow Js.value)) :=
  match d with
  | IN => top5IN (Some (mkSlotting (Some moves)))
  | OUT => top5OUT (Some (mkSlotting (Some moves)))
  end.

(** The zone test of the loop, for the field [zone]. *)
Definition passes (zone : Move -> option string) (s : Move) : bool :=
  in_fast_zone (zone s).

(** The moves that pass the zone test, in input order. *)
Definition filtered (d : Direction) (moves : list Move) : list Move :=
  filter (passes (zone_field d)) moves.

(* ------------------------------------------------------------------ *)
(** ** Occupancy colour ramp (StockageDashboard) *)

Record RGB := mkRGB { red : Z; green : Z; blue : Z }.

(** [from] and [to] of [colorForOccupancy]. *)
Definition color_from : RGB := mkRGB 16 185 129.
Definition color_to : RGB := mkRGB 239 68 68.

(** [Math.max(0, Math.min(1, p))] *)
Definition clamp01 (p : Q) : Q := Qmax 0 (Qmin 1 p).

(** [Math.round(from.c + (to.c - from.c) * t)] *)
Definition channel (from to : Z) (t : Q) : Z :=
  Js.Math_round (inject_Z from + (inject_Z to - inject_Z from) * t).

Definition colorChannels (p : Q) : RGB :=
  let t := clamp01 p in
  mkRGB (channel (red color_from) (red color_to) t)
        (channel (green color_from) (green color_to) t)
        (channel (blue color_from) (blue color_to) t).

(** The template literal [`rgb(${r},${g},${b})`]. *)
Definition css_rgb (c : RGB) : string :=
  ("rgb(" ++ Js.string_of_Z (red c) ++ "," ++ Js.string_of_Z (green c)
     ++ "," ++ Js.string_of_Z (blue c) ++ ")")%string.

Definition colorForOccupancy (p : Q) : string := css_rgb (colorChannels p).

(* ------------------------------------------------------------------ *)
(** ** Projection of the storage supports (StockageDashboard) *)

(** [MapItem].  [occupancy_pct] is guarded by [|| 0] in the code. *)
Record MapItem := mkMapItem {
  support_label : option string;
  x : option Q;
  y : option Q;
  z : option Q;
  norm : option Q;
  lat : option Q;
  lon : option Q;
  n_locations : Q;
  on_hand : Q;
  capacity : Q;
  occupancy_pct : option Q
}.

(** A circle of the map.  The source calls the coordinates [x] and [y];
    they are [px] and [py] here, [MapItem] owning those names.  [None] is a
    non-finite coordinate.  The tooltip text ([title]) is not modelled. *)
Record SvgPoint := mkSvgPoint {
  key : string;
  px : option Q;
  py : option Q;
  r : Q;
  fill : string
}.

Record SvgPoints := mkSvgPoints {
  viewBox : string;
  width : string;
  height : Z;
  points : list SvgPoint
}.

Definition W : Z := 800.
Definition H : Z := 240.
Definition pad : Z := 16.
Definition cols : Z := 10.
Definition cellW : Z := 72.
Definition cellH : Z := 40.

(** [typeof d.x === "number" && typeof d.y === "number"] *)
Definition hasXY (d : MapItem) : bool :=
  match x d, y d with Some _, Some _ => true | _, _ => false end.

(** [typeof d.lat === "number" && typeof d.lon === "number"] *)
Definition hasLL (d : MapItem) : bool :=
  match lat d, lon d with Some _, Some _ => true | _, _ => false end.

(** [d.x as number], [d.x!]: a type assertion only; [null] would count as 0
    in the arithmetic.  On the filtered arrays the field is always there. *)
Definition num (v : option Q) : Q := Js.or_zeroQ v.

(** [Math.max(0, Math.min(1, d.occupancy_pct || 0))] *)
Definition occ_of (d : MapItem) : Q :=
  Qmax 0 (Qmin 1 (Js.or_zeroQ (occupancy_pct d))).

(** [4 + Math.min(12, Math.max(0, d.n_locations / 50))] *)
Definition radius (n : Q) : Q := 4 + Qmin 12 (Qmax 0 (n / 50)).

(** [`${d.support_label ?? "?"}-tag-${i}`] *)
Definition point_key (d : MapItem) (tag : string) (i : nat) : string :=
  (Js.nullish (support_label d) "?" ++ tag ++ Js.string_of_nat i)%string.

(** [`0 0 ${w} ${h}`] *)
Definition viewBox_of (w h : Z) : string :=
  ("0 0 " ++ Js.string_of_Z w ++ " " ++ Js.string_of_Z h)%string.

(** [pad + ((v - lo) / (hi - lo || 1)) * (W - pad * 2)] *)
Definition scale_x (lo hi v : Q) : option Q :=
  option_map (fun q => inject_Z pad + q * inject_Z (W - pad * 2))
             (Js.jsdiv (v - lo) (Js.or_one (hi - lo))).

(** [pad + (1 - (v - lo) / (hi - lo || 1)) * (H - pad * 2)] *)
Definition scale_y (lo hi v : Q) : option Q :=
  option_map (fun q => inject_Z pad + (1 - q) * inject_Z (H - pad * 2))
             (Js.jsdiv (v - lo) (Js.or_one (hi - lo))).

(** The points of the two rescaling branches: [fx] is the field drawn
    horizontally, [fy] the one drawn vertically. *)
Definition scaled_points (tag : string) (fx fy : MapItem -> option Q)
    (items : list MapItem) : list SvgPoint :=
  let xs := map (fun d => num (fx d)) items in
  let ys := map (fun d => num (fy d)) items in
  let minX := Js.Math_min_list xs in
  let maxX := Js.Math_max_list xs in
  let minY := Js.Math_min_list ys in
  let maxY := Js.Math_max_list ys in
  Js.mapi (fun d i =>
    mkSvgPoint (point_key d tag i)
               (scale_x minX maxX (num (fx d)))
               (scale_y minY maxY (num (fy d)))
               (radius (n_locations d))
               (colorForOccupancy (occ_of d))) items.

(** [Math.ceil(all.length / cols)] *)
Definition grid_rows (n : nat) : Z :=
  Js.Math_ceil (inject_Z (Z.of_nat n) / inject_Z cols).

Definition grid_points (all : list MapItem) : list SvgPoint :=
  Js.mapi (fun d i =>
    let col := (Z.of_nat i mod cols)%Z in
    let row := (Z.of_nat i / cols)%Z in
    mkSvgPoint (point_key d "-grid-" i)
               (Some (inject_Z pad + inject_Z col * inject_Z cellW
                      + inject_Z cellW / 2))
               (Some (inject_Z pad + inject_Z row * inject_Z cellH
                      + inject_Z cellH / 2))
               (radius (n_locations d))
               (colorForOccupancy (occ_of d))) all.

Definition svgPoints (mapItems : list MapItem) : SvgPoints :=
  let itemsXY := filter hasXY mapItems in
  let itemsLL := filter hasLL mapItems in
  if (2 <=? List.length itemsXY)%nat then
    mkSvgPoints (viewBox_of W H) "100%" H (scaled_points "-xy-" x y itemsXY)
  else if (2 <=? List.length itemsLL)%nat then
    mkSvgPoints (viewBox_of W H) "100%" H (scaled_points "-ll-" lon lat itemsLL)
  else
    let all := mapItems in
    let rows := grid_rows (List.length all) in
    let Wg := (pad * 2 + cols * cellW)%Z in
    let Hg := (pad * 2 + rows * cellH)%Z in
    mkSvgPoints (viewBox_of Wg Hg) "100%" (Z.min 280 Hg) (grid_points all).

(* ------------------------------------------------------------------ *)
(** ** Carrier recommendation card (CarrierSimpleCard) *)

Record RecoItem := mkRecoItem {
  carrier : string;
  service_level : string;
  on_time_rate : Q;
  cp_cost_baseline_eur : Q;
  capacity_score : Q;
  p50_eta_h : option Q;
  p90_eta_h : option Q;
  delay_rate : option Q;
  cost_pred : Q;
  eta_pred_h : Q;
  risk : Q;
  score : Q
}.

(** The part of the component state written by [onPredict]. *)
Record CardState := mkCardState {
  loading : bool;
  error : option string;
  topK : list RecoItem
}.

(** What [await recoSimpleRecommend(...)] does: it throws an error object
    [e] (with [e.message] possibly missing), or it yields [res];
    [Resolved None] is a [res] whose [topK] is not an array, [null] and
    [undefined] included. *)
Inductive ServiceReply :=
| Rejected (message : option string)
| Resolved (res_topK : option (list RecoItem)).

Definition setLoading (b : bool) (st : CardState) : CardState :=
  mkCardState b (error st) (topK st).
Definition setError (e : option string) (st : CardState) : CardState :=
  mkCardState (loading st) e (topK st).
Definition setTopK (l : list RecoItem) (st : CardState) : CardState :=
  mkCardState (loading st) (error st) l.

Definition no_recommendation : string :=
  "Aucune recommandation retournée pour ces paramètres.".

(** [onPredict], as the state it leaves once the handler has finished. *)
Definition onPredict (reply : ServiceReply) (st : CardState) : CardState :=
  let st := setTopK [] (setError None (setLoading true st)) in
  let st :=
    match reply with
    | Resolved res =>
        (* try *)
        let arr := match res with
                   | Some l => Js.slice0 3 l
                   | None => []
                   end in
        let st := setTopK arr st in
        if (List.length arr =? 0)%nat then setError (Some no_recommendation) st
        else st
    | Rejected message =>
        (* catch (e) *)
        setError (Some (Js.nullish message "Erreur")) st
    end in
  (* finally *)
  setLoading false st.

(* ------------------------------------------------------------------ *)
(** ** Vocabulary of the specification *)

(** *** Top-5 flows *)

(** [a] occurs at a smaller position than [b] in [l]. *)
Definition before {A} (l : list A) (a b : A) : Prop :=
  exists i j, (i < j)%nat /\ nth_error l i = Some a /\ nth_error l j = Some b.

(** Position of the first occurrence of [k] (the length when absent). *)
Fixpoint first_seen (k : string) (l : list string) : nat :=
  match l with
  | [] => 0
  | h :: t => if String.eqb h k then 0 else S (first_seen k t)
  end.

(** The distinct elements of [l], in first-seen order. *)
Fixpoint distinct (l : list string) : list string :=
  match l with
  | [] => []
  | k :: t => k :: filter (fun k' => negb (String.eqb k' k)) (distinct t)
  end.

(** The group keys of the filtered input, in input order. *)
Definition group_keys (d : Direction) (moves : list Move) : list string :=
  map key_of (filtered d moves).

(** The quantity of a move as an integer, a missing quantity counting
    for 0. *)
Definition units (s : Move) : Z :=
  match move_qty s with
  | Some (Js.Num z) => z
  | _ => 0%Z
  end.

(** Summed quantity of the group [k]: the moves passing the zone test whose
    key is [k], a missing quantity counting for 0. *)
Definition group_sum (zone : Move -> option string) (l : list Move)
    (k : string) : Z :=
  fold_right Z.add 0%Z
    (map units
         (filter (fun s => String.eqb (key_of s) k) (filter (passes zone) l))).

(** The same, for the zone field of a direction. *)
Definition total_qty (d : Direction) (moves : list Move) (k : string) : Z :=
  group_sum (zone_field d) moves k.

(** Non-increasing quantities. *)
Definition descending (l : list (Flow Z)) : Prop :=
  StronglySorted (fun a b => (qty b <= qty a)%Z) l.

(** Tie-break of the specification: among equal quantities, the reference
    seen first in the filtered input comes first. *)
Definition ties_by_first_seen (ks : list string) (out : list (Flow Z))
  : Prop :=
  forall a b, before out a b -> qty a = qty b ->
    (first_seen (ref a) ks < first_seen (ref b) ks)%nat.

(** Tie-break of the code: the enumeration order of the keys of [agg].
    Array-index keys go first, by ascending value; the others follow in
    first-seen order. *)
Definition enumerated_before (ks : list string) (k1 k2 : string) : Prop :=
  match JsObject.array_index k1, JsObject.array_index k2 with
  | Some n1, Some n2 => (n1 < n2)%N
  | Some _, None => True
  | None, Some _ => False
  | None, None => (first_seen k1 ks < first_seen k2 ks)%nat
  end.

(** Equal quantities appear in enumeration order. *)
Definition ties_by_enumeration (ks : list string) (out : list (Flow Z))
  : Prop :=
  forall a b, before out a b -> qty a = qty b ->
    enumerated_before ks (ref a) (ref b).

(** A flow whose quantity is the number [qty a]. *)
Definition numbered (a : Flow Z) : Flow Js.value :=
  mkFlow (ref a) (Js.Num (qty a)).

(** The Top-5 of [moves] is the list [out], every quantity a number. *)
Definition returns (d : Direction) (moves : list Move) (out : list (Flow Z))
  : Prop :=
  topFlows d moves = Some (map numbered out).

(** The specification's reading of the Top-N order. *)
Definition sorted_with_first_seen_ties (d : Direction) (moves : list Move)
  : Prop :=
  exists out, returns d moves out
    /\ descending out
    /\ ties_by_first_seen (group_keys d moves) out.

(** A returned reference is the product reference of a filtered move. *)
Definition from_filtered_input (d : Direction) (moves : list Move)
    (k : string) : Prop :=
  exists s, In s (filtered d moves) /\ referenceproduit s = Some k.

(** The specification's reading of "never returns a product not present in
    the filtered input". *)
Definition returns_only_input_products (d : Direction) (moves : list Move)
  : Prop :=
  exists out, returns d moves out
    /\ forall a, In a out -> from_filtered_input d moves (ref a).

(** A filtered move without a usable reference ([undefined], [null] or
    the empty string). *)
Definition unreferenced (s : Move) : Prop :=
  referenceproduit s = None \/ referenceproduit s = Some EmptyString.

(** The key given to the moves without reference. *)
Definition sentinel : string := "?".

(** [s] with its quantity replaced. *)
Definition with_qty (s : Move) (q : option Js.value) : Move :=
  mkMove (referenceproduit s) (from_zone s) (to_zone s) q (reason s).

(** The move [s], between [l1] and [l2], counts as the same move with the
    quantity 0. *)
Definition counts_for_zero (zone : Move -> option string)
    (l1 : list Move) (s : Move) (l2 : list Move) : Prop :=
  aggregate zone (l1 ++ s :: l2)
  = aggregate zone (l1 ++ with_qty s (Some (Js.Num 0)) :: l2).

(** The quantity of [s] is present and is not a number. *)
Definition non_numeric (s : Move) : Prop :=
  exists text, text <> EmptyString /\ move_qty s = Some (Js.Str text).

(** The specification's reading of "missing/non-numeric values treated as
    0". *)
Definition unusable_quantity_is_zero (zone : Move -> option string) : Prop :=
  forall l1 s l2,
    move_qty s = None \/ non_numeric s -> counts_for_zero zone l1 s l2.

(** **** The totals, on the integers

    What the loop computes when every quantity is a number and every key an
    ordinary one: the dictionary of the sums per key, then its ranking. *)

Definition tally_step (zone : Move -> option string)
    (agg : JsObject.t Z) (s : Move) : JsObject.t Z :=
  if in_fast_zone (zone s) then
    let key := key_of s in
    JsObject.define agg key
      (Js.or_zero (JsObject.own agg key) + units s)%Z
  else agg.

Definition tally (zone : Move -> option string) (l : list Move)
  : JsObject.t Z :=
  fold_left (tally_step zone) l JsObject.empty.

(** Descending quantities. *)
Definition by_total_desc (a b : Flow Z) : Z := (qty b - qty a)%Z.

(** Stable insertion sort for a comparator that is always a number. *)
Fixpoint stable_insert {A} (cmp : A -> A -> Z) (a : A) (l : list A) : list A :=
  match l with
  | [] => [a]
  | h :: t =>
      if (0 <? cmp a h)%Z then h :: stable_insert cmp a t else a :: h :: t
  end.

Fixpoint stable_sort {A} (cmp : A -> A -> Z) (l : list A) : list A :=
  match l with
  | [] => []
  | a :: t => stable_insert cmp a (stable_sort cmp t)
  end.

(** The ranking before [slice(0, 5)]. *)
Definition ranked (d : Direction) (moves : list Move) : list (Flow Z) :=
  stable_sort by_total_desc
    (map flow_of (JsObject.entries (tally (zone_field d) moves))).

(** Its first five entries. *)
Definition leaders (d : Direction) (moves : list Move) : list (Flow Z) :=
  firstn 5 (ranked d moves).

(** A number as a value. *)
Definition number_property (p : string * Z) : string * Js.value :=
  (fst p, Js.Num (snd p)).

(** **** The inputs within the declared types *)

(** The group key of [s] names no member of [Object.prototype]. *)
Definition ordinary_ref (s : Move) : bool :=
  negb (String.eqb (key_of s) JsObject.proto)
  && negb (existsb (String.eqb (key_of s)) JsObject.builtin_functions).

(** The quantity of [s] is a number or is missing, as [move_qty: number]
    declares. *)
Definition numeric_qty (s : Move) : bool :=
  match move_qty s with
  | Some (Js.Num _) | None => true
  | _ => false
  end.

(** The quantity of [s] is a number, a string or is missing. *)
Definition number_or_text_qty (s : Move) : bool :=
  match move_qty s with
  | Some Js.Other => false
  | _ => true
  end.

(** Everything that goes through the fast zone, in absolute value. *)
Definition volume (d : Direction) (moves : list Move) : Z :=
  fold_right Z.add 0%Z (map (fun s => Z.abs (units s)) (filtered d moves)).

(** No filtered move of [moves] has the name of an inherited method as its
    group key, the quantities are numbers, strings or missing, and the
    volume of the numbers is an exact integer. *)
Definition tolerable (d : Direction) (moves : list Move) : bool :=
  forallb (fun s => negb (existsb (String.eqb (key_of s))
                            JsObject.builtin_functions)
                    && number_or_text_qty s)
          (filtered d moves)
  && (volume d moves <=? 2 ^ 53)%Z.

(** A number within [bound], or a string. *)
Definition within (bound : Z) (v : Js.value) : Prop :=
  match v with
  | Js.Num z => (Z.abs z <= bound)%Z
  | Js.Str _ => True
  | Js.Other => False
  end.

(** The values held by [agg] are numbers within [bound] and strings. *)
Definition values_within (bound : Z) (agg : JsObject.t Js.value) : Prop :=
  forall k v, JsObject.own agg k = Some v -> within bound v.

(** The filtered moves of [moves] have ordinary references and numeric
    quantities, and their volume is an exact integer: no sum made by the
    loop is rounded. *)
Definition plain (d : Direction) (moves : list Move) : bool :=
  forallb (fun s => ordinary_ref s && numeric_qty s) (filtered d moves)
  && (volume d moves <=? 2 ^ 53)%Z.

(** Membership test on keys. *)
Definition has_key (k : string) (l : list string) : bool :=
  existsb (String.eqb k) l.

(** Order of two array-index properties. *)
Definition index_le {V} (p q : string * V) : Prop :=
  (JsObject.index_of_key p <= JsObject.index_of_key q)%N.

(** *** Colour ramp *)

(** The specification's reading of the value at one half. *)
Definition exact_midpoint (c : RGB) : Prop :=
  inject_Z (red c)
    == (inject_Z (red color_from) + inject_Z (red color_to)) / 2
  /\ inject_Z (green c)
    == (inject_Z (green color_from) + inject_Z (green color_to)) / 2
  /\ inject_Z (blue c)
    == (inject_Z (blue color_from) + inject_Z (blue color_to)) / 2.

(** *** Projection *)

(** [m] is the lowest (resp. highest) value of [l]. *)
Definition lowest (m : Q) (l : list Q) : Prop :=
  In m l /\ forall v, In v l -> m <= v.

Definition highest (m : Q) (l : list Q) : Prop :=
  In m l /\ forall v, In v l -> v <= m.

(** Horizontal rescaling of [a] from the domain [lo, hi] to
    [pad, W - pad]; a domain reduced to one value is drawn at [pad]. *)
Definition linear_x (lo hi a u : Q) : Prop :=
  (lo == hi -> u == inject_Z pad)
  /\ (lo < hi ->
      u == inject_Z pad + (a - lo) / (hi - lo) * inject_Z (W - 2 * pad))
  /\ (a == lo -> u == inject_Z pad)
  /\ (lo < hi -> a == hi -> u == inject_Z (W - pad)).

(** Vertical rescaling, inverted: the lowest value is drawn at the bottom
    [H - pad], the highest at the top [pad]. *)
Definition linear_y (lo hi b v : Q) : Prop :=
  (lo == hi -> v == inject_Z (H - pad))
  /\ (lo < hi ->
      v == inject_Z pad
           + (1 - (b - lo) / (hi - lo)) * inject_Z (H - 2 * pad))
  /\ (b == lo -> v == inject_Z (H - pad))
  /\ (lo < hi -> b == hi -> v == inject_Z pad).

(** [pts] is the rescaling of exactly the items [sel], in order, the domain
    being the extreme values of [sel] itself. *)
Definition rescaled (fx fy : MapItem -> option Q)
    (sel : list MapItem) (pts : list SvgPoint) : Prop :=
  exists lox hix loy hiy,
    lowest lox (map (fun d => num (fx d)) sel)
    /\ highest hix (map (fun d => num (fx d)) sel)
    /\ lowest loy (map (fun d => num (fy d)) sel)
    /\ highest hiy (map (fun d => num (fy d)) sel)
    /\ List.length pts = List.length sel
    /\ forall i d, nth_error sel i = Some d ->
         exists p a b u v,
           nth_error pts i = Some p
           /\ fx d = Some a /\ fy d = Some b
           /\ px p = Some u /\ py p = Some v
           /\ linear_x lox hix a u /\ linear_y loy hiy b v
           /\ inject_Z pad <= u <= inject_Z (W - pad)
           /\ inject_Z pad <= v <= inject_Z (H - pad).

(** The grid: 10 columns, item [i] in column [i mod 10] of row [i / 10], in
    cells of 72 x 40 drawn at their centre; the view box has as many rows
    as the items need (the height of the element itself stops at 280, the
    view box scaling the drawing). *)
Definition grid_layout (items : list MapItem) (out : SvgPoints) : Prop :=
  let rows := ((Z.of_nat (List.length items) + 9) / 10)%Z in
  viewBox out = viewBox_of 752 (32 + 40 * rows)
  /\ height out = Z.min 280 (32 + 40 * rows)
  /\ List.length (points out) = List.length items
  /\ forall i d, nth_error items i = Some d ->
       exists p u v,
         nth_error (points out) i = Some p
         /\ key p = point_key d "-grid-" i
         /\ px p = Some u /\ py p = Some v
         /\ u == inject_Z (16 + 72 * (Z.of_nat i mod 10) + 36)
         /\ v == inject_Z (16 + 40 * (Z.of_nat i / 10) + 20)
         /\ (Z.of_nat i / 10 < rows)%Z
         /\ 0 < u < 752
         /\ 0 < v < inject_Z (32 + 40 * rows).

(** The point [p] is the circle drawn for the item [d] at position [i]. *)
Definition drawn (tag : string) (i : nat) (d : MapItem) (p : SvgPoint)
  : Prop :=
  key p = point_key d tag i
  /\ r p = radius (n_locations d)
  /\ fill p = colorForOccupancy (occ_of d).

(** [pts] holds one circle per item of [src], in the same order, the
    radius of each circle computed from the count of its own item. *)
Definition radii_of (src : list MapItem) (pts : list SvgPoint) : Prop :=
  List.length pts = List.length src
  /\ forall i d, nth_error src i = Some d ->
       exists p, nth_error pts i = Some p
         /\ r p = 4 + Qmin 12 (Qmax 0 (n_locations d / 50)).

(** [pts] holds one circle per item of [src], in the same order. *)
Definition renders (tag : string) (src : list MapItem)
    (pts : list SvgPoint) : Prop :=
  List.length pts = List.length src
  /\ forall i d, nth_error src i = Some d ->
       exists p, nth_error pts i = Some p /\ drawn tag i d p.

(** *** Recommendation card *)

(** The specification's reading: an empty candidate set gives an empty
    list and no error. *)
Definition empty_is_not_an_error : Prop :=
  forall st,
    topK (onPredict (Resolved (Some [])) st) = []
    /\ error (onPredict (Resolved (Some [])) st) = None.

(* ------------------------------------------------------------------ *)
(** ** Sample inputs *)

(** The scenario of the specification. *)
Definition moves_scenario : list Move :=
  [ mkMove (Some "A") (Some "B") (Some "A") (Some (Js.Num 10)) "";
    mkMove (Some "B") (Some "C") (Some "A") (Some (Js.Num 15)) "";
    mkMove (Some "A") (Some "D") (Some "A") (Some (Js.Num 5)) "" ]%string.

(** Two references that are array indices, seen in descending order. *)
Definition moves_numeric_refs : list Move :=
  [ mkMove (Some "2") (Some "B") (Some "A") (Some (Js.Num 5)) "";
    mkMove (Some "1") (Some "C") (Some "A") (Some (Js.Num 5)) "" ]%string.

(** One move whose reference is the empty string. *)
Definition moves_empty_ref : list Move :=
  [ mkMove (Some "") (Some "B") (Some "A") (Some (Js.Num 1)) "" ]%string.

(** A well-formed move, to go with a move that has neither reference nor
    quantity. *)
Definition moves_malformed : list Move :=
  [ mkMove (Some "P1") (Some "B") (Some "A") (Some (Js.Num 4)) "" ]%string.

(** A move whose quantity is the string "5", before a move of 5 units of
    the same product. *)
Definition move_text_qty : Move :=
  (mkMove (Some "A") (Some "B") (Some "A") (Some (Js.Str "5")) "")%string.

Definition moves_text_qty : list Move :=
  [ move_text_qty;
    mkMove (Some "A") (Some "D") (Some "A") (Some (Js.Num 5)) "" ]%string.

(** Storage supports: with x/y, with lat/lon, with neither. *)
Definition item_at (label : string) (a b : Q) (n : Q) : MapItem :=
  mkMapItem (Some label) (Some a) (Some b) None None None None n 0 0
            (Some (1 # 2)).

Definition item_geo (label : string) (la lo : Q) : MapItem :=
  mkMapItem (Some label) None None None None (Some la) (Some lo) 120 0 0 None.

Definition item_bare (n : Q) : MapItem :=
  mkMapItem None None None None None None None n 0 0 None.

(** Two supports with x/y (same y) around one without coordinates. *)
Definition items_xy : list MapItem :=
  [ item_at "S1" 1 5 100; item_bare 10; item_at "S3" 3 5 1000 ]%string.

(** One support with x/y and two with lat/lon. *)
Definition items_ll : list MapItem :=
  [ item_at "S1" 1 5 100; item_geo "G1" 48 2; item_geo "G2" 43 5 ]%string.

(** One support with x/y and one without coordinates. *)
Definition items_grid : list MapItem :=
  [ item_at "S1" 1 5 100; item_bare 10 ]%string.

(** The first circle drawn for [items_xy]. *)
Definition point_s1 : SvgPoint :=
  Eval vm_compute in
    nth 0 (points (svgPoints items_xy)) (mkSvgPoint "" None None 0 "").

(** The card before any request. *)
Definition card_idle : CardState := mkCardState false None [].

(** Recommendations as the service returns them. *)
Definition candidate (name : string) (s : Q) : RecoItem :=
  mkRecoItem name "STANDARD" 1 0 1 None None None 100 24 (1 # 10) s.

Definition four_candidates : list RecoItem :=
  [ candidate "C1" 1; candidate "C2" 2; candidate "C3" 3;
    candidate "C4" 4 ]%string.

(* ------------------------------------------------------------------ *)
(** ** Further code of the dashboards

    The functions below surround the ones above in the same files: the
    rest of [refreshAll] of the storage dashboard, the views that consume
    [top5IN], [svgPoints] and the state of [onPredict], and the small
    computations of the orders dashboard, of the operator rows, of the
    forecast tiles and of the supervisor dashboard.  Records that reuse
    field names of the source live in modules of their own. *)

Module JsString.

(** [String.prototype.toLowerCase], on the ASCII letters. *)
Definition lower_ascii (c : ascii) : ascii :=
  let n := nat_of_ascii c in
  if (65 <=? n)%nat && (n <=? 90)%nat then ascii_of_nat (n + 32) else c.

Fixpoint toLowerCase (s : string) : string :=
  match s with
  | EmptyString => EmptyString
  | String c t => String (lower_ascii c) (toLowerCase t)
  end.

(** [hay.startsWith(needle)] *)
Definition startsWith (hay needle : string) : bool := String.prefix needle hay.

(** [hay.includes(needle)] *)
Fixpoint includes (hay needle : string) : bool :=
  if String.prefix needle hay then true
  else match hay with
       | EmptyString => false
       | String _ t => includes t needle
       end.

(** [s.slice(1)] *)
Definition slice1 (s : string) : string :=
  match s with
  | EmptyString => EmptyString
  | String _ t => t
  end.

(** Truthiness of a string that may be missing. *)
Definition truthy (v : option string) : bool :=
  match v with
  | Some (String _ _) => true
  | _ => false
  end.

End JsString.

(** *** Zones of the storage dashboard: [zoneMeta] and [zonesUi] *)

Module Zones.

Inductive ZoneType :=
| haute_rotation | moyenne_rotation | basse_rotation | reserve.

(** [ZonesItem] *)
Record Item := mkItem {
  zone : option string;
  n_locations : option Z;
  on_hand : Q;
  capacity : Q;
  occupancy_pct : option Q;
  status : option string
}.

Record Meta := mkMeta { meta_nom : string; meta_type : ZoneType }.

(** [zoneMeta].  The code is upper-cased on the ASCII letters. *)
Definition zoneMeta (z : option string) : Meta :=
  let code := Js.toUpperCase (Js.or_string z "?") in
  if String.eqb code "A" then mkMeta "Zone A - Fast Moving" haute_rotation
  else if String.eqb code "B" then mkMeta "Zone B - Medium" moyenne_rotation
  else if String.eqb code "C" then mkMeta "Zone C - Slow Moving" basse_rotation
  else if String.eqb code "D" then mkMeta "Zone D - Réserve" reserve
  else mkMeta ("Zone " ++ code)%string reserve.

(** A row of the "Occupation par zones" card. *)
Record Ui := mkUi {
  nom : string;
  occupation : Z;
  emplacements : Z;
  type : ZoneType;
  alert : bool
}.

(** [(z.items || []).map(...)] of [refreshAll] *)
Definition zonesUi (items : option (list Item)) : list Ui :=
  map (fun it =>
         let meta := zoneMeta (zone it) in
         mkUi (meta_nom meta)
              (Js.Math_round (Js.or_zeroQ (occupancy_pct it) * 100))
              (Js.or_zero (n_locations it))
              (meta_type meta)
              (match status it with
               | Some s => String.eqb s "critique"
               | None => false
               end))
      (match items with Some l => l | None => [] end).

End Zones.

(** *** Hotspots of the storage dashboard *)

Module Hotspots.

(** [HotspotItem] *)
Record Item := mkItem {
  location : option string;
  referenceproduit : option string;
  capacity_pct : option Q;
  reason : option string;
  action : option string
}.

(** A row of "Emplacements nécessitant attention". *)
Record Row := mkRow {
  emplacement : string;
  produit : string;
  probleme : string;
  capacite : Z
}.

Definition or_empty (items : option (list Item)) : list Item :=
  match items with Some l => l | None => [] end.

(** [typeof h.capacity_pct === "number"
      ? Math.max(0, Math.min(100, Math.round(h.capacity_pct))) : 0] *)
Definition capacite_of (h : Item) : Z :=
  match capacity_pct h with
  | Some c => Z.max 0 (Z.min 100 (Js.Math_round c))
  | None => 0%Z
  end.

(** [(hs.items || []).slice(0, 12).map(...)] *)
Definition emplacementsCritiques (items : option (list Item)) : list Row :=
  map (fun h =>
         mkRow (Js.nullish (location h) "—")
               (Js.nullish (referenceproduit h) "—")
               (Js.nullish (reason h) "—")
               (capacite_of h))
      (firstn 12 (or_empty items)).

(** [(i.reason || "").toLowerCase().includes("rupture")] *)
Definition mentions_rupture (i : Item) : bool :=
  JsString.includes (JsString.toLowerCase (Js.or_string (reason i) ""))
                    "rupture".

Definition nbRupture (items : option (list Item)) : nat :=
  List.length (filter mentions_rupture (or_empty items)).

Inductive Priorite := critique | haute | moyenne.

Record Optimisation := mkOptimisation {
  type : string;
  description : string;
  priorite : Priorite
}.

(** The two recommendations built by [refreshAll] and [handleOptimize];
    [moves] is [slot.summary.moves]. *)
Definition optimisations (moves : Z) (items : option (list Item))
  : list Optimisation :=
  [ mkOptimisation "Slotting"
      ("Repositionner " ++ Js.string_of_Z moves ++ " produits")%string
      (if (0 <? moves)%Z then haute else moyenne);
    mkOptimisation "Réassort"
      (Js.string_of_nat (nbRupture items)
         ++ " références en rupture prévue")%string
      (if (0 <? nbRupture items)%nat then critique else moyenne) ].

End Hotspots.

(** *** Views of the storage dashboard and of the recommendation card *)

(** [top5IN.length > 0 ? <ul>...</ul> : <p>Aucun mouvement IN</p>] *)
Definition flows_listed {V} (flows : list (Flow V)) : bool :=
  (0 <? List.length flows)%nat.

(** [svgPoints.points && svgPoints.points.length > 0]: the plan is drawn,
    the placeholder otherwise. *)
Definition plan_drawn (mapItems : list MapItem) : bool :=
  (0 <? List.length (points (svgPoints mapItems)))%nat.

(** [topK.length > 0]: the badge and the result cards. *)
Definition results_shown (st : CardState) : bool :=
  (0 <? List.length (topK st))%nat.

(** [topK.length === 0 && !loading && !error]: the idle hint. *)
Definition idle_hint_shown (st : CardState) : bool :=
  (List.length (topK st) =? 0)%nat && negb (loading st)
  && negb (JsString.truthy (error st)).

(** [error && <div>...</div>] *)
Definition error_shown (st : CardState) : bool := JsString.truthy (error st).

(** *** Operator load: orders dashboard and [OperatorRow] *)

Module Operators.

(** [OperatorItem].  [orders] is read through [x?.orders ?? 0]. *)
Record Item := mkItem {
  name : string;
  zone : string;
  orders : option Z;
  pct : Q;
  status : string;
  barPct : option Q
}.

(** [item.barPct ?? item.pct] *)
Definition bar_source (item : Item) : Q :=
  match barPct item with
  | Some b => b
  | None => pct item
  end.

(** [OperatorRow]: [Math.max(0, Math.min(100, item.barPct ?? item.pct))] *)
Definition width (item : Item) : Q := Qmax 0 (Qmin 100 (bar_source item)).

Inductive Badge := green | yellow | red.

(** [badgeClass] of [OperatorRow] *)
Definition badgeClass (item : Item) : Badge :=
  if String.eqb (status item) "active" then green
  else if String.eqb (status item) "sous-charge" then yellow
  else red.

(** [x?.orders ?? 0] *)
Definition orders_of (x : Item) : Z := Js.or_zero (orders x).

(** [Math.max(1, ...o.map((x) => x?.orders ?? 0))] *)
Definition maxOrders (o : list Item) : Z :=
  fold_left Z.max (map orders_of o) 1%Z.

(** [oScaled] of [refreshAll]:
    [barPct: Math.round(((x?.orders ?? 0) / maxOrders) * 100)] *)
Definition oScaled (o : list Item) : list Item :=
  let m := maxOrders o in
  map (fun x =>
         mkItem (name x) (zone x) (orders x) (pct x) (status x)
           (Some (inject_Z
                    (Js.Math_round
                       (inject_Z (orders_of x) / inject_Z m * 100)))))
      o.

(** [ops.filter((o) => o.status === "surcharge").length] *)
Definition overloadCount (ops : list Item) : nat :=
  List.length (filter (fun o => String.eqb (status o) "surcharge") ops).

(** [Math.round((k / n) * 100)] *)
Definition percent (k n : nat) : Z :=
  Js.Math_round (inject_Z (Z.of_nat k) / inject_Z (Z.of_nat n) * 100).

(** [ops.length ? Math.round((overloadCount / ops.length) * 100) : 0] *)
Definition overloadPct (ops : list Item) : Z :=
  if (List.length ops =? 0)%nat then 0%Z
  else percent (overloadCount ops) (List.length ops).

(** [ops.length ? `${overloadCount}/${ops.length} opérateurs` : undefined] *)
Definition overloadSub (ops : list Item) : option string :=
  if (List.length ops =? 0)%nat then None
  else Some (Js.string_of_nat (overloadCount ops) ++ "/"
             ++ Js.string_of_nat (List.length ops) ++ " opérateurs")%string.

(** Supervisor dashboard, [refreshTopKpis]: the same endpoint, the status
    compared without case:
    [String(o?.status || "").toLowerCase() === "surcharge"]. *)
Definition overloaded_nocase (o : Item) : bool :=
  String.eqb (JsString.toLowerCase (status o)) "surcharge".

(** [overloadStr]; [None] is a response without an [items] array. *)
Definition overloadStr (items : option (list Item)) : string :=
  match items with
  | None => "—"
  | Some l =>
      let total := List.length l in
      if (0 <? total)%nat then
        (Js.string_of_Z
           (percent (List.length (filter overloaded_nocase l)) total)
         ++ "%")%string
      else "0%"
  end.

End Operators.

(** *** [ForecastTile] *)

Module ForecastTile.

(** [typeof conf === "number"
      ? (conf <= 1 ? Math.round(conf * 100) : Math.round(conf)) : null]

    The product [conf * 100] is a double: the function [fl] stands for the
    rounding of the exact product to the nearest double. *)
Definition pct (fl : Q -> Q) (conf : option Q) : option Z :=
  match conf with
  | Some c =>
      if Qle_bool c 1 then Some (Js.Math_round (fl (c * 100)))
      else Some (Js.Math_round c)
  | None => None
  end.

End ForecastTile.

(** *** Supervisor dashboard *)

Module Supervisor.

(** [localStorage]: [None] when reading it throws; otherwise [getItem]. *)
Definition Storage := option (string -> option string).

(** [a || b] on strings that may be [null]. *)
Definition or_else (a : option string) (b : option string) : option string :=
  if JsString.truthy a then a else b.

(** [authHeaders]: the headers object, as its list of properties. *)
Definition authHeaders (localStorage : Storage) : list (string * string) :=
  match localStorage with
  | None => []                                   (* catch *)
  | Some getItem =>
      let raw :=
        Js.or_string
          (or_else (getItem "token"%string)
             (or_else (getItem "access_token"%string)
                      (getItem "auth_token"%string)))
          "" in
      if String.eqb raw "" then []
      else [ ("Authorization",
              if JsString.startsWith raw "Bearer " then raw
              else ("Bearer " ++ raw))%string ]
  end.

(** A row of the ETA endpoint, with the four fields that [refreshAlerts]
    reads. *)
Record Shipment := mkShipment {
  is_late : option bool;
  status : option string;
  delay_min : option Q;
  delay_minutes : option Q
}.

Definition positive (v : option Q) : bool :=
  match v with
  | Some q => negb (Qle_bool q 0)
  | None => false
  end.

(** The predicate of [rows.filter(...)] *)
Definition late (r : Shipment) : bool :=
  match is_late r with Some true => true | _ => false end
  || String.eqb (JsString.toLowerCase (Js.or_string (status r) "")) "late"
  || positive (delay_min r)
  || positive (delay_minutes r).

(** The ETA response: [items] and [data], each an array or missing. *)
Record Eta := mkEta {
  items : option (list Shipment);
  data : option (list Shipment)
}.

(** [latePctVal] of [refreshAlerts]; [None] is the [null] of
    [safeJsonGet]. *)
Definition latePct (eta : option Eta) : Z :=
  match eta with
  | None => 0%Z
  | Some e =>
      match items e, data e with
      | None, None => 0%Z
      | _, _ =>
          (* rows = eta.items ?? eta.data ?? [] *)
          let rows := match items e with
                      | Some l => l
                      | None => match data e with
                                | Some l => l
                                | None => []
                                end
                      end in
          let n := List.length rows in
          if (0 <? n)%nat
          then Operators.percent (List.length (filter late rows)) n
          else 0%Z
      end
  end.

End Supervisor.

(** *** The page: [Index] *)

Module Index.

Inductive ViewKey := dashboard | commandes | stockage | transport.

Inductive Screen :=
| LoginForm
| SupervisorDashboard
| CommandesDashboard
| StockageDashboard
| TransportDashboard.

Record State := mkState {
  isAuthenticated : bool;
  userProfile : string;
  currentView : ViewKey;
  pendingAnchor : option string
}.

Definition initial : State := mkState false "" dashboard None.

Definition handleLogin (profile : string) (st : State) : State :=
  mkState true profile dashboard (pendingAnchor st).

Definition handleLogout (st : State) : State :=
  mkState false "" dashboard (pendingAnchor st).

Definition handleNavigate (view : ViewKey) (anchor : option string)
    (st : State) : State :=
  mkState (isAuthenticated st) (userProfile st) view anchor.

(** [onViewChange={setCurrentView}] of the navigation bar *)
Definition setCurrentView (view : ViewKey) (st : State) : State :=
  mkState (isAuthenticated st) (userProfile st) view (pendingAnchor st).

Definition renderSpecializedDashboard (profile : string) : Screen :=
  if String.eqb profile "commande" then CommandesDashboard
  else if String.eqb profile "stockage" then StockageDashboard
  else if String.eqb profile "transport" then TransportDashboard
  else SupervisorDashboard.

Definition renderDashboard (st : State) : Screen :=
  match currentView st with
  | dashboard =>
      if String.eqb (userProfile st) "superviseur" then SupervisorDashboard
      else renderSpecializedDashboard (userProfile st)
  | commandes => CommandesDashboard
  | stockage => StockageDashboard
  | transport => TransportDashboard
  end.

(** What the component returns. *)
Definition render (st : State) : Screen :=
  if isAuthenticated st then renderDashboard st else LoginForm.

(** The element id that the scroll effect looks up; [None] when the effect
    returns at once ([!pendingAnchor]). *)
Definition anchor_id (st : State) : option string :=
  match pendingAnchor st with
  | Some a =>
      if JsString.truthy (Some a) then
        Some (if JsString.startsWith a "#" then JsString.slice1 a else a)
      else None
  | None => None
  end.

End Index.

(** *** Vocabulary of the further properties *)

(** Sum of the quantities of a list of flows. *)
Definition sum_qty (l : list (Flow Z)) : Z :=
  fold_right Z.add 0%Z (map qty l).

(** Sum of integers. *)
Definition sumZ (l : list Z) : Z := fold_right Z.add 0%Z l.

(** Everything moved into (or out of) the fast zone, a missing quantity
    counting for 0. *)
Definition moved_total (d : Direction) (moves : list Move) : Z :=
  sumZ (map units (filtered d moves)).

(** The zone is written "A" or "a". *)
Definition zone_is_A (z : option string) : Prop :=
  z = Some "A"%string \/ z = Some "a"%string.

(** The circles [p] and [q] keep the order of the values they are drawn
    for: [a], [a'] horizontally, [b], [b'] vertically (inverted). *)
Definition order_kept (a a' b b' : Q) (p q : SvgPoint) : Prop :=
  exists u v u' v',
    px p = Some u /\ py p = Some v /\ px q = Some u' /\ py q = Some v'
    /\ (a <= a' -> u <= u')
    /\ (b <= b' -> v' <= v).

(** The string is the one-letter code [u] or its lower-case form [l]. *)
Definition letter (u l : ascii) (z : option string) : Prop :=
  z = Some (String u EmptyString) \/ z = Some (String l EmptyString).

(** [needle] occurs inside [hay]. *)
Definition occurs_in (needle hay : string) : Prop :=
  exists pre post, hay = (pre ++ needle ++ post)%string.

(** What is known of the rounding to the nearest double: it respects
    equality and order, leaves the whole numbers up to 2^53 as they are,
    and moves a number [a] between 0 and 2^53 by at most
    [(a + 1) / 2^52]. *)
Definition double_rounding (fl : Q -> Q) : Prop :=
  (forall a b, a == b -> fl a == fl b)
  /\ (forall a b, a <= b -> fl a <= fl b)
  /\ (forall z, (Z.abs z <= 2 ^ 53)%Z -> fl (inject_Z z) == inject_Z z)
  /\ (forall a, 0 <= a -> a <= inject_Z (2 ^ 53) ->
        a - (a + 1) * (1 # 4503599627370496) <= fl a
        /\ fl a <= a + (a + 1) * (1 # 4503599627370496)).

(** The value of the Authorization header for the stored token [raw]. *)
Definition bearer (raw : string) : string :=
  if JsString.startsWith raw "Bearer " then raw else ("Bearer " ++ raw)%string.

(* ================================================================== *)
(** * Properties *)

(** ** Lists: relative position *)

Section Before.
Context {A : Type}.
Implicit Types (l : list A) (a b : A).

Lemma before_nil a b : ~ before (@nil A) a b.
Proof.
  intros (i & j & _ & Hi & _). destruct i; discriminate.
Qed.

Lemma before_cons h l a b :
  before (h :: l) a b <-> (h = a /\ In b l) \/ before l a b.
Proof.
  split.
  - intros (i & j & Hij & Hi & Hj).
    destruct j as [|j]; [lia|]. simpl in Hj.
    destruct i as [|i]; simpl in Hi.
    + left. split; [congruence|]. eapply nth_error_In; eauto.
    + right. exists i, j. repeat split; auto. lia.
  - intros [[-> Hb] | (i & j & Hij & Hi & Hj)].
    + apply In_nth_error in Hb as [j Hj].
      exists 0%nat, (S j). repeat split; auto. lia.
    + exists (S i), (S j). repeat split; auto. lia.
Qed.

Lemma before_In l a b : before l a b -> In a l /\ In b l.
Proof.
  intros (i & j & _ & Hi & Hj); split; eapply nth_error_In; eauto.
Qed.

Lemma before_app l1 l2 a b :
  before (l1 ++ l2) a b ->
  before l1 a b \/ (In a l1 /\ In b l2) \/ before l2 a b.
Proof.
  induction l1 as [|h t IH]; simpl; intros Hb.
  - right; right; exact Hb.
  - apply before_cons in Hb as [[-> Hin] | Hb].
    + apply in_app_or in Hin as [Hin | Hin].
      * left. apply before_cons. left; auto.
      * right; left; auto.
    + destruct (IH Hb) as [H1 | [[H1 H2] | H1]].
      * left. apply before_cons. right; exact H1.
      * right; left; auto.
      * right; right; exact H1.
Qed.

Lemma before_filter (p : A -> bool) l a b :
  before (filter p l) a b -> before l a b.
Proof.
  induction l as [|h t IH]; simpl; intros Hb.
  - exact Hb.
  - destruct (p h).
    + apply before_cons in Hb as [[-> Hin] | Hb]; apply before_cons.
      * left. split; auto. apply filter_In in Hin; tauto.
      * right; auto.
    + apply before_cons. right; auto.
Qed.

Lemma before_filter_keep (p : A -> bool) l a b :
  before l a b -> p a = true -> p b = true -> before (filter p l) a b.
Proof.
  induction l as [|h t IH]; simpl; intros Hb Ha Hpb.
  - exact Hb.
  - apply before_cons in Hb as [[-> Hin] | Hb].
    + rewrite Ha. apply before_cons. left. split; auto.
      apply filter_In; auto.
    + destruct (p h); [apply before_cons; right|]; auto.
Qed.

Lemma before_firstn n l a b : before (firstn n l) a b -> before l a b.
Proof.
  intros Hb. rewrite <- (firstn_skipn n l).
  destruct Hb as (i & j & Hij & Hi & Hj).
  assert (Hlen : (j < List.length (firstn n l))%nat)
    by (apply nth_error_Some; congruence).
  exists i, j. repeat split; auto; rewrite nth_error_app1; auto; lia.
Qed.

Lemma before_sorted (R : A -> A -> Prop) l a b :
  StronglySorted R l -> before l a b -> R a b.
Proof.
  induction 1 as [|h t Hs IH Hall]; intros Hb.
  - elim (before_nil Hb).
  - apply before_cons in Hb as [[-> Hin] | Hb]; auto.
    rewrite Forall_forall in Hall. auto.
Qed.

End Before.

Lemma before_map {A B} (f : A -> B) (l : list A) (x y : B) :
  before (map f l) x y ->
  exists a b, before l a b /\ f a = x /\ f b = y.
Proof.
  intros (i & j & Hij & Hi & Hj).
  rewrite nth_error_map in Hi, Hj.
  destruct (nth_error l i) as [a|] eqn:Ea; [|discriminate].
  destruct (nth_error l j) as [b|] eqn:Eb; [|discriminate].
  exists a, b. split; [exists i, j; auto|]. simpl in *. split; congruence.
Qed.

Lemma before_NoDup_neq {A B} (f : A -> B) (l : list A) (a b : A) :
  NoDup (map f l) -> before l a b -> f a <> f b.
Proof.
  intros Hnd (i & j & Hij & Hi & Hj) Heq.
  rewrite NoDup_nth_error in Hnd.
  assert (Hlt : (i < List.length (map f l))%nat).
  { rewrite length_map. apply nth_error_Some. congruence. }
  specialize (Hnd i j Hlt).
  rewrite !nth_error_map, Hi, Hj in Hnd. simpl in Hnd.
  assert (i = j) by (apply Hnd; congruence). lia.
Qed.

(** ** The stable sort by descending totals *)

Section SortByQty.

Lemma sort_insert_perm (a : Flow Z) l :
  Permutation (stable_insert by_total_desc a l) (a :: l).
Proof.
  induction l as [|h t IH]; simpl; [reflexivity|].
  destruct (0 <? by_total_desc a h)%Z; [|reflexivity].
  rewrite IH. apply perm_swap.
Qed.

Lemma sort_perm (l : list (Flow Z)) : Permutation (stable_sort by_total_desc l) l.
Proof.
  induction l as [|a t IH]; simpl; [reflexivity|].
  rewrite sort_insert_perm. now constructor.
Qed.

Lemma sort_insert_descending a l :
  descending l -> descending (stable_insert by_total_desc a l).
Proof.
  unfold descending.
  induction 1 as [|h t Hs IH Hall]; simpl.
  - repeat constructor.
  - unfold by_total_desc at 1.
    destruct (Z.ltb_spec 0 (qty h - qty a)).
    + constructor; auto.
      rewrite Forall_forall in *. intros b Hb.
      apply (Permutation_in _ (sort_insert_perm a t)) in Hb.
      destruct Hb as [<- | Hb]; [lia | auto].
    + constructor; [constructor; auto|].
      constructor; [lia|].
      rewrite Forall_forall in *. intros b Hb. specialize (Hall b Hb). lia.
Qed.

Lemma sort_descending l : descending (stable_sort by_total_desc l).
Proof.
  induction l as [|a t IH]; simpl.
  - constructor.
  - now apply sort_insert_descending.
Qed.

(** Stability: the flows of any one quantity keep their relative order. *)
Lemma sort_insert_stable (v : Z) a l :
  filter (fun e => (qty e =? v)%Z) (stable_insert by_total_desc a l)
  = filter (fun e => (qty e =? v)%Z) (a :: l).
Proof.
  induction l as [|h t IH]; [reflexivity|].
  cbn [stable_insert]. unfold by_total_desc at 1.
  destruct (Z.ltb_spec 0 (qty h - qty a)); [|reflexivity].
  cbn [filter] in *. rewrite IH.
  destruct (Z.eqb_spec (qty a) v), (Z.eqb_spec (qty h) v); try reflexivity.
  lia.
Qed.

Lemma sort_stable (v : Z) l :
  filter (fun e => (qty e =? v)%Z) (stable_sort by_total_desc l)
  = filter (fun e => (qty e =? v)%Z) l.
Proof.
  induction l as [|a t IH]; [reflexivity|].
  cbn [stable_sort]. rewrite sort_insert_stable. cbn [filter]. now rewrite IH.
Qed.

Lemma sort_keeps_ties l a b :
  before (stable_sort by_total_desc l) a b -> qty a = qty b -> before l a b.
Proof.
  intros Hb Heq.
  apply (before_filter (fun e => (qty e =? qty a)%Z)).
  rewrite <- sort_stable.
  apply before_filter_keep; auto; apply Z.eqb_eq; auto.
Qed.

End SortByQty.

(** ** Plain objects *)

Section ObjectFacts.
Variable V : Type.
Implicit Types (o : JsObject.t V) (k : string) (v : V) (p q : string * V).

Lemma has_key_In k (ks : list string) : has_key k ks = true <-> In k ks.
Proof.
  unfold has_key. rewrite existsb_exists. split.
  - intros (x & Hx & He). apply String.eqb_eq in He. now subst.
  - intros Hin. exists k. split; auto. apply String.eqb_refl.
Qed.

Lemma keys_set o k v :
  map fst (JsObject.define o k v)
  = if has_key k (map fst o) then map fst o else map fst o ++ [k].
Proof.
  induction o as [|[k' v'] rest IH]; simpl; [reflexivity|].
  rewrite (String.eqb_sym k k').
  destruct (String.eqb_spec k' k); simpl; [reflexivity|].
  rewrite IH. now destruct (has_key k (map fst rest)).
Qed.

Lemma get_set o k v k' :
  JsObject.own (JsObject.define o k v) k'
  = if String.eqb k k' then Some v else JsObject.own o k'.
Proof.
  induction o as [|[k0 v0] rest IH]; simpl.
  - reflexivity.
  - destruct (String.eqb_spec k0 k) as [->|Hne]; simpl.
    + now destruct (String.eqb_spec k k').
    + rewrite IH. destruct (String.eqb_spec k0 k'); auto.
      destruct (String.eqb_spec k k'); congruence.
Qed.

Lemma get_In o k v :
  NoDup (map fst o) -> In (k, v) o -> JsObject.own o k = Some v.
Proof.
  induction o as [|[k0 v0] rest IH]; simpl; intros Hnd Hin; [tauto|].
  inversion Hnd as [|? ? Hnotin Hnd']; subst.
  destruct Hin as [Heq | Hin].
  - inversion Heq; subst. now rewrite String.eqb_refl.
  - destruct (String.eqb_spec k0 k) as [->|]; auto.
    exfalso. apply Hnotin. now apply (in_map fst) in Hin.
Qed.

Lemma get_Some_In o k v : JsObject.own o k = Some v -> In (k, v) o.
Proof.
  induction o as [|[k0 v0] rest IH]; simpl; [discriminate|].
  destruct (String.eqb_spec k0 k) as [->|]; intros Hg.
  - left. congruence.
  - right. auto.
Qed.

(** The array-index test is the round-trip through the canonical numeral,
    so an index determines its key. *)
Lemma array_index_inj k1 k2 n :
  JsObject.array_index k1 = Some n -> JsObject.array_index k2 = Some n ->
  k1 = k2.
Proof.
  unfold JsObject.array_index. intros H1 H2.
  destruct (NilZero.uint_of_string k1) as [u1|]; [|discriminate].
  destruct (NilZero.uint_of_string k2) as [u2|]; [|discriminate].
  cbv zeta in *.
  destruct (String.eqb_spec
              (NilZero.string_of_uint (N.to_uint (N.of_uint u1))) k1) as [E1|];
    [|discriminate].
  destruct (String.eqb_spec
              (NilZero.string_of_uint (N.to_uint (N.of_uint u2))) k2) as [E2|];
    [|discriminate].
  simpl in *.
  destruct (N.of_uint u1 <? 4294967295)%N; [|discriminate].
  destruct (N.of_uint u2 <? 4294967295)%N; [|discriminate].
  congruence.
Qed.

Lemma insert_index_perm p (l : list (string * V)) : Permutation (JsObject.insert_index p l) (p :: l).
Proof.
  induction l as [|h t IH]; simpl; [reflexivity|].
  destruct (JsObject.index_of_key p <? JsObject.index_of_key h)%N;
    [reflexivity|].
  rewrite IH. apply perm_swap.
Qed.

Lemma ascending_perm (l : list (string * V)) : Permutation (JsObject.ascending l) l.
Proof.
  induction l as [|p t IH]; simpl; [reflexivity|].
  rewrite insert_index_perm. now constructor.
Qed.

Lemma insert_index_sorted p (l : list (string * V)) :
  StronglySorted index_le l -> StronglySorted index_le (JsObject.insert_index p l).
Proof.
  induction 1 as [|h t Hs IH Hall]; simpl.
  - repeat constructor.
  - destruct (N.ltb_spec (JsObject.index_of_key p) (JsObject.index_of_key h)).
    + constructor; [constructor; auto|].
      constructor; [unfold index_le; lia|].
      rewrite Forall_forall in *. intros q Hq. specialize (Hall q Hq).
      unfold index_le in *. lia.
    + constructor; auto.
      rewrite Forall_forall in *. intros q Hq.
      apply (Permutation_in _ (insert_index_perm p t)) in Hq.
      destruct Hq as [<- | Hq]; [exact H0 | auto].
Qed.

Lemma ascending_sorted (l : list (string * V)) : StronglySorted index_le (JsObject.ascending l).
Proof.
  induction l as [|p t IH]; simpl; [constructor|].
  now apply insert_index_sorted.
Qed.

Lemma entries_perm o : Permutation (JsObject.entries o) o.
Proof.
  unfold JsObject.entries. rewrite ascending_perm.
  induction o as [|p t IH]; simpl; [reflexivity|].
  destruct (JsObject.is_index p); simpl.
  - now constructor.
  - rewrite <- Permutation_middle. now constructor.
Qed.

End ObjectFacts.

(** ** The dictionary of the totals *)

Section Aggregation.
Variable zone : Move -> option string.

Lemma filter_filter {A} (p q : A -> bool) (l : list A) :
  filter p (filter q l) = filter (fun a => p a && q a) l.
Proof.
  induction l as [|h t IH]; simpl; [reflexivity|].
  destruct (q h); simpl; rewrite ?andb_true_r, ?andb_false_r;
    [destruct (p h)|]; now rewrite IH.
Qed.

(** Dropping properties keeps the keys pairwise distinct. *)
Lemma filter_keys_NoDup (sel : string * Z -> bool) (o : JsObject.t Z) :
  NoDup (map fst o) -> NoDup (map fst (filter sel o)).
Proof.
  intros Hnd. induction o as [|[k v] rest IH]; [constructor|].
  cbn [map fst] in Hnd. apply NoDup_cons_iff in Hnd as [Hfresh Hrest].
  cbn [filter]. destruct (sel (k, v)); [|now apply IH].
  cbn [map fst]. apply NoDup_cons; [|now apply IH].
  intros Hin. apply Hfresh.
  apply in_map_iff in Hin as (q & Hq & Hmem).
  apply filter_In in Hmem as [Hmem _].
  rewrite <- Hq. now apply in_map.
Qed.

Lemma has_key_app k l1 l2 :
  has_key k (l1 ++ l2) = has_key k l1 || has_key k l2.
Proof. apply existsb_app. Qed.

(** Keys are created in first-seen order of the filtered moves. *)
Lemma keys_fold (l : list Move) (agg : JsObject.t Z) :
  map fst (fold_left (tally_step zone) l agg)
  = map fst agg
    ++ filter (fun k => negb (has_key k (map fst agg)))
         (distinct (map key_of (filter (passes zone) l))).
Proof.
  revert agg. induction l as [|s t IH]; intros agg; simpl.
  - now rewrite app_nil_r.
  - unfold tally_step at 2. fold (passes zone s). destruct (passes zone s); simpl; auto.
    rewrite IH, keys_set. rewrite filter_filter.
    destruct (has_key (key_of s) (map fst agg)) eqn:Hk; simpl.
    + f_equal. apply filter_ext. intros k.
      destruct (String.eqb_spec k (key_of s)) as [->|]; simpl.
      * now rewrite Hk.
      * now rewrite andb_true_r.
    + rewrite <- app_assoc. simpl. f_equal. f_equal.
      apply filter_ext. intros k. rewrite has_key_app. simpl.
      rewrite orb_false_r, negb_orb. reflexivity.
Qed.

Lemma keys_tally (l : list Move) :
  map fst (tally zone l) = distinct (map key_of (filter (passes zone) l)).
Proof.
  unfold tally. rewrite keys_fold. simpl.
  induction (distinct (map key_of (filter (passes zone) l))); simpl; congruence.
Qed.

Lemma distinct_In k l : In k (distinct l) <-> In k l.
Proof.
  induction l as [|h t IH]; simpl; [tauto|].
  rewrite filter_In, IH.
  destruct (String.eqb_spec k h); simpl; intuition congruence.
Qed.

Lemma distinct_NoDup l : NoDup (distinct l).
Proof.
  induction l as [|h t IH]; simpl; constructor.
  - rewrite filter_In, String.eqb_refl. simpl. intuition discriminate.
  - now apply NoDup_filter.
Qed.

Lemma distinct_before_first_seen l k1 k2 :
  before (distinct l) k1 k2 -> (first_seen k1 l < first_seen k2 l)%nat.
Proof.
  induction l as [|h t IH]; simpl; intros Hb.
  - elim (before_nil Hb).
  - apply before_cons in Hb as [[-> Hin] | Hb].
    + rewrite String.eqb_refl. apply filter_In in Hin as [_ Hne].
      rewrite String.eqb_sym in Hne.
      destruct (String.eqb k1 k2); [discriminate | lia].
    + destruct (before_In Hb) as [H1 H2].
      apply filter_In in H1 as [_ H1], H2 as [_ H2].
      rewrite String.eqb_sym in H1. rewrite String.eqb_sym in H2.
      destruct (String.eqb h k1); [discriminate|].
      destruct (String.eqb h k2); [discriminate|].
      apply before_filter in Hb. apply IH in Hb. lia.
Qed.

Lemma tally_NoDup l : NoDup (map fst (tally zone l)).
Proof. rewrite keys_tally. apply distinct_NoDup. Qed.

Lemma value_fold (l : list Move) (agg : JsObject.t Z) (k : string) :
  Js.or_zero (JsObject.own (fold_left (tally_step zone) l agg) k)
  = (Js.or_zero (JsObject.own agg k) + group_sum zone l k)%Z.
Proof.
  revert agg. unfold group_sum.
  induction l as [|s t IH]; intros agg; simpl; [lia|].
  unfold tally_step at 2. fold (passes zone s). destruct (passes zone s); simpl; auto.
  rewrite IH, get_set.
  destruct (String.eqb_spec (key_of s) k) as [->|]; simpl; lia.
Qed.

Lemma value_tally (l : list Move) (k : string) (v : Z) :
  In (k, v) (tally zone l) -> v = group_sum zone l k.
Proof.
  intros Hin. apply get_In in Hin; [|apply tally_NoDup].
  pose proof (value_fold l JsObject.empty k) as Hv.
  fold (tally zone l) in Hv. rewrite Hin in Hv. simpl in Hv. lia.
Qed.

(** Where ties come from: the enumeration order of [Object.entries]. *)
Lemma entries_order (l : list Move) (p q : string * Z) :
  before (JsObject.entries (tally zone l)) p q ->
  enumerated_before (map key_of (filter (passes zone) l)) (fst p) (fst q).
Proof.
  unfold JsObject.entries, enumerated_before. intros Hb.
  apply before_app in Hb as [Hb | [[Hp Hq] | Hb]].
  - (* both are array indices *)
    pose proof (before_sorted (ascending_sorted _) Hb) as Hle.
    assert (Hne : fst p <> fst q).
    { apply (before_NoDup_neq fst) with (2 := Hb).
      rewrite (Permutation_map fst (ascending_perm _)).
      apply filter_keys_NoDup. apply tally_NoDup. }
    destruct (before_In Hb) as [Hp Hq].
    apply (Permutation_in _ (ascending_perm _)), filter_In in Hp as [_ Hp].
    apply (Permutation_in _ (ascending_perm _)), filter_In in Hq as [_ Hq].
    unfold index_le, JsObject.index_of_key, JsObject.is_index in *.
    destruct (JsObject.array_index (fst p)) as [n1|] eqn:E1; [|discriminate].
    destruct (JsObject.array_index (fst q)) as [n2|] eqn:E2; [|discriminate].
    assert (n1 <> n2).
    { intros ->. apply Hne. eapply array_index_inj; eauto. }
    lia.
  - apply (Permutation_in _ (ascending_perm _)), filter_In in Hp as [_ Hp].
    apply filter_In in Hq as [_ Hq].
    unfold JsObject.is_index in *.
    destruct (JsObject.array_index (fst p)); [|discriminate].
    destruct (JsObject.array_index (fst q)); [discriminate|exact I].
  - destruct (before_In Hb) as [Hp Hq].
    apply filter_In in Hp as [_ Hp], Hq as [_ Hq].
    unfold JsObject.is_index in *.
    destruct (JsObject.array_index (fst p)); [discriminate|].
    destruct (JsObject.array_index (fst q)); [discriminate|].
    apply before_filter in Hb.
    apply distinct_before_first_seen. rewrite <- keys_tally.
    destruct Hb as (i & j & Hij & Hi & Hj).
    exists i, j. rewrite !nth_error_map, Hi, Hj. auto.
Qed.

End Aggregation.

(** ** The ranking of the totals *)

Lemma leaders_ranked d moves : leaders d moves = firstn 5 (ranked d moves).
Proof. destruct d; reflexivity. Qed.

Lemma In_firstn {A} n (l : list A) a : In a (firstn n l) -> In a l.
Proof.
  intros Hin. rewrite <- (firstn_skipn n l). apply in_or_app. now left.
Qed.

Lemma firstn_StronglySorted {A} (R : A -> A -> Prop) n (l : list A) :
  StronglySorted R l -> StronglySorted R (firstn n l).
Proof.
  intros Hs. revert n.
  induction Hs as [|h t Hs IH Hall]; intros [|n]; simpl; try constructor; auto.
  rewrite Forall_forall in *. intros b Hb. apply Hall.
  eapply In_firstn; eauto.
Qed.

Lemma ranked_In d moves a :
  In a (ranked d moves) <->
  In (ref a, qty a) (tally (zone_field d) moves).
Proof.
  unfold ranked. split.
  - intros Hin. apply (Permutation_in _ (sort_perm _)) in Hin.
    apply in_map_iff in Hin as ([k v] & <- & Hp).
    apply (Permutation_in _ (entries_perm _)) in Hp. exact Hp.
  - intros Hin. apply (Permutation_in _ (Permutation_sym (sort_perm _))).
    apply in_map_iff. exists (ref a, qty a). split; [now destruct a|].
    apply (Permutation_in _ (Permutation_sym (entries_perm _))). exact Hin.
Qed.

Lemma ranked_refs d moves :
  Permutation (map ref (ranked d moves)) (distinct (group_keys d moves)).
Proof.
  unfold ranked, group_keys, filtered.
  rewrite <- keys_tally.
  rewrite (Permutation_map ref (sort_perm _)), map_map. simpl.
  apply Permutation_map, entries_perm.
Qed.

Lemma group_key_source d moves k :
  In k (group_keys d moves) ->
  exists s, In s (filtered d moves) /\ key_of s = k.
Proof.
  unfold group_keys. intros Hin.
  apply in_map_iff in Hin as (s & Hk & Hs). eauto.
Qed.

Lemma key_of_cases s :
  (referenceproduit s = Some (key_of s))
  \/ (key_of s = sentinel /\ unreferenced s).
Proof.
  unfold key_of, unreferenced, Js.or_string.
  destruct (referenceproduit s) as [[|c t]|]; auto.
Qed.

Lemma ranked_length d moves :
  List.length (ranked d moves) = List.length (distinct (group_keys d moves)).
Proof.
  rewrite <- (length_map ref). apply Permutation_length, ranked_refs.
Qed.

Lemma ranked_listed d moves k :
  In k (group_keys d moves) -> In k (map ref (ranked d moves)).
Proof.
  intros Hin.
  apply (Permutation_in _ (Permutation_sym (ranked_refs d moves))).
  now apply distinct_In.
Qed.

Lemma leaders_In_ranked d moves a :
  In a (leaders d moves) -> In a (ranked d moves).
Proof. rewrite leaders_ranked. apply In_firstn. Qed.

Lemma leaders_ref_in_keys d moves a :
  In a (leaders d moves) -> In (ref a) (group_keys d moves).
Proof.
  intros Hin. apply leaders_In_ranked in Hin.
  apply (distinct_In (ref a)).
  apply (Permutation_in _ (ranked_refs d moves)). now apply in_map.
Qed.

(** ** The program computes the totals

    On a plain input the loop stays on the numbers: the object that it
    builds is the dictionary of the totals, and the sort compares numbers
    only. *)

Section Refinement.
Variable zone : Move -> option string.

Lemma own_numbers (o : JsObject.t Z) (k : string) :
  JsObject.own (map number_property o) k
  = option_map Js.Num (JsObject.own o k).
Proof.
  induction o as [|[k' v] rest IH]; simpl; [reflexivity|].
  now destruct (String.eqb k' k).
Qed.

Lemma define_numbers (o : JsObject.t Z) (k : string) (v : Z) :
  JsObject.define (map number_property o) k (Js.Num v)
  = map number_property (JsObject.define o k v).
Proof.
  induction o as [|[k' v'] rest IH]; simpl; [reflexivity|].
  destruct (String.eqb k' k); simpl; [reflexivity|]. now rewrite IH.
Qed.

Lemma ordinary_ref_get (o : JsObject.t Z) (s : Move) :
  ordinary_ref s = true ->
  JsObject.get (map number_property o) (key_of s)
  = match JsObject.own o (key_of s) with
    | Some v => JsObject.Own (Js.Num v)
    | None => JsObject.Undefined
    end.
Proof.
  unfold ordinary_ref, JsObject.get. intros Hord.
  apply andb_true_iff in Hord as [Hp Hb].
  apply negb_true_iff in Hp, Hb.
  rewrite own_numbers, Hp, Hb.
  now destruct (JsObject.own o (key_of s)).
Qed.

Lemma ordinary_ref_current (o : JsObject.t Z) (s : Move) :
  ordinary_ref s = true ->
  current (map number_property o) (key_of s)
  = Some (Js.Num (Js.or_zero (JsObject.own o (key_of s)))).
Proof.
  intros Hord. unfold current. rewrite (ordinary_ref_get o s Hord).
  destruct (JsObject.own o (key_of s)) as [[|v|v]|]; reflexivity.
Qed.

Lemma numeric_qty_units (s : Move) :
  numeric_qty s = true -> Js.or_zero_value (move_qty s) = Js.Num (units s).
Proof.
  unfold numeric_qty, units.
  destruct (move_qty s) as [[[|z|z]|t|]|]; intros E;
    solve [reflexivity | discriminate].
Qed.

Lemma add_numbers (x y : Z) :
  (Z.abs x <= 2 ^ 53)%Z -> (Z.abs y <= 2 ^ 53)%Z ->
  (Z.abs (x + y) <= 2 ^ 53)%Z ->
  Js.add (Js.Num x) (Js.Num y) = Some (Js.Num (x + y)).
Proof.
  intros Hx Hy Hs. unfold Js.add, Js.representable, Js.safe.
  apply Z.leb_le in Hx, Hy, Hs. now rewrite Hx, Hy, Hs.
Qed.

(** One turn of the loop on a dictionary of numbers bounded by [bound]. *)
Lemma agg_step_numbers (o : JsObject.t Z) (s : Move) (bound : Z) :
  (passes zone s = true -> ordinary_ref s && numeric_qty s = true) ->
  (forall k v, JsObject.own o k = Some v -> (Z.abs v <= bound)%Z) ->
  (0 <= bound)%Z ->
  (passes zone s = true -> (bound + Z.abs (units s) <= 2 ^ 53)%Z) ->
  agg_step zone (map number_property o) s
  = Some (map number_property (tally_step zone o s)).
Proof.
  intros Hplain Hbound Hpos Hroom.
  unfold agg_step, tally_step. fold (passes zone s).
  destruct (passes zone s); [|reflexivity].
  specialize (Hplain eq_refl). specialize (Hroom eq_refl).
  apply andb_true_iff in Hplain as [Hord Hnum].
  cbv zeta. rewrite (ordinary_ref_current o s Hord).
  rewrite (numeric_qty_units s Hnum).
  assert (Hcur : (Z.abs (Js.or_zero (JsObject.own o (key_of s))) <= bound)%Z).
  { destruct (JsObject.own o (key_of s)) as [v|] eqn:E; simpl.
    - now apply (Hbound (key_of s)).
    - exact Hpos. }
  rewrite add_numbers by lia.
  unfold JsObject.set.
  apply andb_true_iff in Hord as [Hp _]. apply negb_true_iff in Hp.
  rewrite Hp. now rewrite define_numbers.
Qed.

Lemma tally_step_bound (o : JsObject.t Z) (s : Move) (bound : Z) :
  (forall k v, JsObject.own o k = Some v -> (Z.abs v <= bound)%Z) ->
  (0 <= bound)%Z ->
  forall k v, JsObject.own (tally_step zone o s) k = Some v ->
    (Z.abs v <= bound + (if passes zone s then Z.abs (units s) else 0))%Z.
Proof.
  intros Hbound Hpos k v. unfold tally_step. fold (passes zone s).
  destruct (passes zone s).
  - cbv zeta. rewrite get_set.
    destruct (String.eqb (key_of s) k).
    + intros E. injection E as <-.
      destruct (JsObject.own o (key_of s)) as [w|] eqn:Ew; simpl.
      * specialize (Hbound _ _ Ew). lia.
      * lia.
    + intros E. specialize (Hbound _ _ E). lia.
  - intros E. specialize (Hbound _ _ E). lia.
Qed.

Lemma aggregate_from_numbers (l : list Move) :
  forall (o : JsObject.t Z) (bound : Z),
  (forall s, In s (filter (passes zone) l) ->
             ordinary_ref s && numeric_qty s = true) ->
  (forall k v, JsObject.own o k = Some v -> (Z.abs v <= bound)%Z) ->
  (0 <= bound)%Z ->
  (bound + fold_right Z.add 0 (map (fun s => Z.abs (units s))
                                 (filter (passes zone) l)) <= 2 ^ 53)%Z ->
  aggregate_from zone l (map number_property o)
  = Some (map number_property (fold_left (tally_step zone) l o)).
Proof.
  induction l as [|s rest IH]; intros o bound Hplain Hbound Hpos Hroom;
    [reflexivity|].
  assert (Hrest : (0 <= fold_right Z.add 0
                          (map (fun s => Z.abs (units s))
                             (filter (passes zone) rest)))%Z).
  { clear. induction (filter (passes zone) rest); simpl; lia. }
  cbn [aggregate_from fold_left filter] in *.
  rewrite (agg_step_numbers o s (bound := bound)); auto.
  - apply (IH _ (bound + (if passes zone s then Z.abs (units s) else 0))%Z).
    + intros s' Hs'. apply Hplain.
      destruct (passes zone s); [now right | exact Hs'].
    + now apply tally_step_bound.
    + destruct (passes zone s); lia.
    + destruct (passes zone s); simpl in Hroom; lia.
  - intros Hs. apply Hplain. rewrite Hs. now left.
  - intros Hs. rewrite Hs in Hroom. simpl in Hroom. lia.
Qed.

End Refinement.

Lemma plain_filtered d moves s :
  plain d moves = true -> In s (filtered d moves) ->
  ordinary_ref s = true /\ numeric_qty s = true.
Proof.
  unfold plain. intros Hplain Hs.
  apply andb_true_iff in Hplain as [Hall _].
  rewrite forallb_forall in Hall.
  now apply andb_true_iff, Hall.
Qed.

Lemma aggregate_plain d moves :
  plain d moves = true ->
  aggregate (zone_field d) moves
  = Some (map number_property (tally (zone_field d) moves)).
Proof.
  intros Hplain. unfold aggregate, tally.
  apply (aggregate_from_numbers (zone_field d) moves JsObject.empty
           (bound := 0%Z)).
  - intros s Hs. apply andb_true_iff.
    now apply (plain_filtered d moves).
  - intros k v E. discriminate E.
  - lia.
  - unfold plain in Hplain. apply andb_true_iff in Hplain as [_ Hvol].
    apply Z.leb_le in Hvol. exact Hvol.
Qed.

Section Numbered.

Lemma insert_index_numbers (p : string * Z) (l : list (string * Z)) :
  JsObject.insert_index (number_property p) (map number_property l)
  = map number_property (JsObject.insert_index p l).
Proof.
  induction l as [|h t IH]; simpl; [reflexivity|].
  change (JsObject.index_of_key (number_property p))
    with (JsObject.index_of_key p).
  change (JsObject.index_of_key (number_property h))
    with (JsObject.index_of_key h).
  destruct (JsObject.index_of_key p <? JsObject.index_of_key h)%N;
    simpl; [reflexivity|]. now rewrite IH.
Qed.

Lemma ascending_numbers (l : list (string * Z)) :
  JsObject.ascending (map number_property l)
  = map number_property (JsObject.ascending l).
Proof.
  induction l as [|p t IH]; simpl; [reflexivity|].
  now rewrite IH, insert_index_numbers.
Qed.

Lemma filter_numbers (sel : string -> bool) (o : JsObject.t Z) :
  filter (fun p => sel (fst p)) (map number_property o)
  = map number_property (filter (fun p => sel (fst p)) o).
Proof.
  induction o as [|p t IH]; simpl; [reflexivity|].
  destruct (sel (fst p)); simpl; now rewrite IH.
Qed.

Lemma entries_numbers (o : JsObject.t Z) :
  JsObject.entries (map number_property o)
  = map number_property (JsObject.entries o).
Proof.
  unfold JsObject.entries, JsObject.is_index.
  rewrite (filter_numbers
             (fun k => match JsObject.array_index k with
                       | Some _ => true | None => false end) o).
  rewrite (filter_numbers
             (fun k => negb match JsObject.array_index k with
                            | Some _ => true | None => false end) o).
  now rewrite ascending_numbers, map_app.
Qed.

Lemma sort_insert_numbered (a : Flow Z) (l : list (Flow Z)) :
  Js.sort_insert by_qty_desc (numbered a) (map numbered l)
  = Some (map numbered (stable_insert by_total_desc a l)).
Proof.
  induction l as [|h t IH]; simpl; [reflexivity|].
  unfold by_total_desc at 1.
  destruct (0 <? qty h - qty a)%Z; [|reflexivity].
  now rewrite IH.
Qed.

Lemma sort_numbered (l : list (Flow Z)) :
  Js.sort by_qty_desc (map numbered l)
  = Some (map numbered (stable_sort by_total_desc l)).
Proof.
  induction l as [|a t IH]; simpl; [reflexivity|].
  rewrite IH. apply sort_insert_numbered.
Qed.

Lemma numbered_inj (l1 l2 : list (Flow Z)) :
  map numbered l1 = map numbered l2 -> l1 = l2.
Proof.
  revert l2. induction l1 as [|[k v] t IH]; intros [|[k' v'] t'] E;
    try discriminate; [reflexivity|].
  simpl in E. injection E as Ek Ev Et. subst. f_equal. now apply IH.
Qed.

End Numbered.

(** On a plain input the Top-5 is the first five entries of the ranking of
    the totals. *)
Lemma topFlows_plain d moves :
  plain d moves = true -> returns d moves (leaders d moves).
Proof.
  intros Hplain. unfold returns, leaders, ranked.
  assert (E : top5 (zone_field d) (Some (mkSlotting (Some moves)))
              = Some (map numbered
                        (firstn 5
                           (stable_sort by_total_desc
                              (map flow_of
                                 (JsObject.entries
                                    (tally (zone_field d) moves))))))).
  { unfold top5. cbn [sample].
    rewrite (aggregate_plain d moves Hplain), entries_numbers, map_map.
    rewrite <- (map_map flow_of numbered), sort_numbered.
    unfold Js.slice0. now rewrite firstn_map. }
  destruct d; exact E.
Qed.

Lemma returns_unique d moves out1 out2 :
  returns d moves out1 -> returns d moves out2 -> out1 = out2.
Proof.
  unfold returns. intros E1 E2. rewrite E1 in E2.
  injection E2 as E. now apply numbered_inj.
Qed.

(** The ranking of the totals is sorted, each quantity the sum of its
    group, with ties in the enumeration order of the keys. *)
Lemma leaders_sorted_ties (d : Direction) (moves : list Move) :
  let out := leaders d moves in
  let ks := group_keys d moves in
  descending out
  /\ (forall a, In a out -> qty a = total_qty d moves (ref a))
  /\ ties_by_enumeration ks out
  /\ ((forall k, In k ks -> JsObject.array_index k = None) ->
      ties_by_first_seen ks out).
Proof.
  intros out ks.
  assert (Hties : ties_by_enumeration ks out).
  { intros a b Hb Heq. subst out. rewrite leaders_ranked in Hb.
    apply before_firstn in Hb. unfold ranked in Hb.
    apply sort_keeps_ties in Hb; auto.
    apply before_map in Hb as (p & q & Hb & <- & <-).
    apply entries_order in Hb. exact Hb. }
  repeat split; auto.
  - subst out. rewrite leaders_ranked.
    apply firstn_StronglySorted, sort_descending.
  - intros a Hin. apply leaders_In_ranked, ranked_In in Hin.
    apply value_tally in Hin. exact Hin.
  - intros Hnone a b Hb Heq.
    specialize (Hties a b Hb Heq). unfold enumerated_before in Hties.
    destruct (before_In Hb) as [Ha Hb'].
    rewrite (Hnone _ (leaders_ref_in_keys _ _ _ Ha)) in Hties.
    rewrite (Hnone _ (leaders_ref_in_keys _ _ _ Hb')) in Hties.
    exact Hties.
Qed.

(** The first five entries of the ranking: how many, and for which
    references. *)
Lemma leaders_at_most_five (d : Direction) (moves : list Move) :
  let out := leaders d moves in
  let ks := group_keys d moves in
  (List.length out <= 5)%nat
  /\ List.length out = Nat.min 5 (List.length (distinct ks))
  /\ NoDup (map ref out)
  /\ (forall a, In a out ->
        exists s, In s (filtered d moves)
          /\ (referenceproduit s = Some (ref a)
              \/ (ref a = sentinel /\ unreferenced s)))
  /\ ((List.length (distinct ks) <= 5)%nat ->
      forall s, In s (filtered d moves) -> In (key_of s) (map ref out)).
Proof.
  intros out ks. subst out ks.
  repeat split.
  - rewrite leaders_ranked. apply firstn_le_length.
  - rewrite leaders_ranked, length_firstn. now rewrite ranked_length.
  - rewrite leaders_ranked.
    assert (Hnd : NoDup (map ref (ranked d moves))).
    { eapply Permutation_NoDup;
        [apply Permutation_sym, ranked_refs | apply distinct_NoDup]. }
    rewrite <- (firstn_skipn 5 (ranked d moves)), map_app in Hnd.
    now apply NoDup_app_remove_r in Hnd.
  - intros a Hin. apply leaders_ref_in_keys, group_key_source in Hin.
    destruct Hin as (s & Hs & Hk). exists s. split; auto.
    destruct (key_of_cases s) as [Href | [Hsent Hun]].
    + left. congruence.
    + right. split; congruence.
  - intros Hfew s Hs. rewrite leaders_ranked, firstn_all2.
    + apply ranked_listed. unfold group_keys. now apply in_map.
    + rewrite ranked_length. exact Hfew.
Qed.

(** C1, as stated, fails on references that are array indices: the moves
    "2" then "1", 5 units each into zone A, come out as "1" then "2". *)
Lemma top5IN_ties_not_first_seen :
  topFlows IN moves_numeric_refs
  = Some [mkFlow "1" (Js.Num 5); mkFlow "2" (Js.Num 5)]
  /\ ~ sorted_with_first_seen_ties IN moves_numeric_refs.
Proof.
  split; [reflexivity|].
  intros (out & Hret & _ & Hties).
  assert (E : out = [mkFlow "1" 5%Z; mkFlow "2" 5%Z]).
  { apply (returns_unique Hret). reflexivity. }
  subst out.
  specialize (Hties (mkFlow "1" 5%Z) (mkFlow "2" 5%Z)).
  assert (Hb : before [mkFlow "1" 5%Z; mkFlow "2" 5%Z]
                      (mkFlow "1" 5%Z) (mkFlow "2" 5%Z)).
  { exists 0%nat, 1%nat. repeat split. lia. }
  specialize (Hties Hb eq_refl). vm_compute in Hties. lia.
Qed.

(** C1 (amended).  For every list of moves whose filtered moves are plain
    (references that name no member of [Object.prototype], quantities that
    are numbers or missing, a volume that is an exact integer) and for both
    directions, the Top-5 is a list of numeric flows sorted by
    non-increasing summed quantity, each [qty] being the sum of its group;
    equal quantities appear in the enumeration order of the keys of [agg]:
    references that are array indices first, by ascending value, then the
    other references in first-seen order.  When no reference of the
    filtered input is an array index, ties are in first-seen order. *)
Theorem top5_sorted_ties_enumeration (d : Direction) (moves : list Move)
    (Hplain : plain d moves = true) :
  let ks := group_keys d moves in
  exists out, returns d moves out
    /\ descending out
    /\ (forall a, In a out -> qty a = total_qty d moves (ref a))
    /\ ties_by_enumeration ks out
    /\ ((forall k, In k ks -> JsObject.array_index k = None) ->
        ties_by_first_seen ks out).
Proof.
  intros ks. exists (leaders d moves).
  split; [now apply topFlows_plain|].
  apply leaders_sorted_ties.
Qed.

Lemma top5_sorted_ties_enumeration_witness :
  (first_seen "A" (group_keys IN moves_scenario)
   < first_seen "B" (group_keys IN moves_scenario))%nat.
Proof.
  destruct (top5_sorted_ties_enumeration IN moves_scenario eq_refl)
    as (out & Hret & _ & _ & _ & Hties).
  assert (E : out = [mkFlow "A" 15%Z; mkFlow "B" 15%Z]).
  { apply (returns_unique Hret). reflexivity. }
  subst out.
  refine (Hties _ (mkFlow "A" 15%Z) (mkFlow "B" 15%Z) _ eq_refl).
  - intros k Hk. vm_compute in Hk.
    destruct Hk as [<- | [<- | [<- | []]]]; reflexivity.
  - exists 0%nat, 1%nat. repeat split. lia.
Defined.

(** C3.  The scenario of the specification: A totals 10 + 5 = 15, B totals
    15, and A, seen first, is listed first. *)
Theorem top5IN_scenario :
  top5IN (Some (mkSlotting (Some moves_scenario)))
  = Some [mkFlow "A" (Js.Num 15); mkFlow "B" (Js.Num 15)].
Proof. reflexivity. Qed.




(** ** Malformed moves *)

Section Malformed.
Variable d : Direction.

Lemma zone_field_with_qty (s : Move) (q : option Js.value) :
  zone_field d (with_qty s q) = zone_field d s.
Proof. destruct d; reflexivity. Qed.

(** A falsy quantity is the quantity 0 for the loop. *)
Lemma agg_step_falsy_qty (agg : JsObject.t Js.value) (s : Move) :
  Js.or_zero_value (move_qty s) = Js.Num 0 ->
  agg_step (zone_field d) agg s
  = agg_step (zone_field d) agg (with_qty s (Some (Js.Num 0))).
Proof.
  intros Hq. unfold agg_step. rewrite zone_field_with_qty.
  unfold key_of. cbn [with_qty referenceproduit move_qty].
  now rewrite Hq.
Qed.

Lemma aggregate_from_app (l1 l2 : list Move) (agg : JsObject.t Js.value) :
  aggregate_from (zone_field d) (l1 ++ l2) agg
  = match aggregate_from (zone_field d) l1 agg with
    | Some agg' => aggregate_from (zone_field d) l2 agg'
    | None => None
    end.
Proof.
  revert agg. induction l1 as [|s t IH]; intros agg; simpl; [reflexivity|].
  destruct (agg_step (zone_field d) agg s); [apply IH | reflexivity].
Qed.

Lemma falsy_qty_counts_for_zero (l1 l2 : list Move) (s : Move) :
  Js.or_zero_value (move_qty s) = Js.Num 0 ->
  counts_for_zero (zone_field d) l1 s l2.
Proof.
  intros Hq. unfold counts_for_zero, aggregate.
  rewrite !aggregate_from_app.
  destruct (aggregate_from (zone_field d) l1 JsObject.empty) as [agg|];
    [|reflexivity].
  cbn [aggregate_from]. now rewrite (agg_step_falsy_qty agg s Hq).
Qed.

Lemma within_weaken (b1 b2 : Z) (v : Js.value) :
  (b1 <= b2)%Z -> within b1 v -> within b2 v.
Proof. destruct v; simpl; auto. lia. Qed.

Lemma current_defined (agg : JsObject.t Js.value) (key : string) (bound : Z) :
  existsb (String.eqb key) JsObject.builtin_functions = false ->
  values_within bound agg -> (0 <= bound)%Z ->
  exists cur, current agg key = Some cur /\ within bound cur.
Proof.
  intros Hkey Hagg Hpos. unfold current, JsObject.get.
  destruct (JsObject.own agg key) as [v|] eqn:E.
  - exists (Js.or_zero_value (Some v)). split; [reflexivity|].
    specialize (Hagg _ _ E).
    destruct v as [[|w|w]|[|c t]|]; simpl in *; auto.
  - destruct (String.eqb key JsObject.proto).
    + eexists. split; [reflexivity | exact I].
    + rewrite Hkey. exists (Js.Num 0). split; [reflexivity|].
      simpl. lia.
Qed.

Lemma or_zero_value_within (s : Move) :
  number_or_text_qty s = true ->
  within (Z.abs (units s)) (Js.or_zero_value (move_qty s)).
Proof.
  unfold number_or_text_qty, units.
  destruct (move_qty s) as [[[|w|w]|[|c t]|]|]; simpl; intros E;
    solve [lia | exact I | discriminate].
Qed.

Lemma add_defined (cur q : Js.value) (bound room : Z) :
  within bound cur -> within room q ->
  (0 <= bound)%Z -> (0 <= room)%Z -> (bound + room <= 2 ^ 53)%Z ->
  exists sum, Js.add cur q = Some sum /\ within (bound + room) sum.
Proof.
  intros Hcur Hq Hb Hr Hfit.
  assert (Rc : Js.representable cur = true).
  { destruct cur as [x|t|]; simpl in *; [|reflexivity|contradiction].
    unfold Js.safe. apply Z.leb_le. lia. }
  assert (Rq : Js.representable q = true).
  { destruct q as [y|t|]; simpl in *; [|reflexivity|contradiction].
    unfold Js.safe. apply Z.leb_le. lia. }
  unfold Js.add. rewrite Rc, Rq. cbn [andb].
  destruct cur as [x|t|], q as [y|u|]; simpl in Hcur, Hq;
    try contradiction;
    try (eexists; split; [reflexivity | exact I]).
  assert (Hs : Js.safe (x + y) = true)
    by (unfold Js.safe; apply Z.leb_le; lia).
  rewrite Hs. eexists. split; [reflexivity|]. simpl. lia.
Qed.

(** One turn of the loop has a result, whatever the quantity (a number or
    a string), when the key names no inherited method. *)
Lemma agg_step_defined (agg : JsObject.t Js.value) (s : Move) (bound : Z) :
  (passes (zone_field d) s = true ->
   existsb (String.eqb (key_of s)) JsObject.builtin_functions = false
   /\ number_or_text_qty s = true) ->
  values_within bound agg -> (0 <= bound)%Z ->
  (bound + (if passes (zone_field d) s then Z.abs (units s) else 0)
   <= 2 ^ 53)%Z ->
  exists agg', agg_step (zone_field d) agg s = Some agg'
    /\ values_within
         (bound + (if passes (zone_field d) s then Z.abs (units s) else 0))
         agg'.
Proof.
  intros Hkey Hagg Hpos Hfit.
  unfold agg_step. fold (passes (zone_field d) s).
  destruct (passes (zone_field d) s).
  - destruct (Hkey eq_refl) as [Hord Hqty]. cbv zeta.
    destruct (current_defined (key_of s) Hord Hagg Hpos)
      as (cur & -> & Hcur).
    destruct (@add_defined cur (Js.or_zero_value (move_qty s))
                bound (Z.abs (units s)) Hcur
                (or_zero_value_within s Hqty) Hpos ltac:(lia) Hfit)
      as (sum & -> & Hsum).
    eexists. split; [reflexivity|].
    intros k v. unfold JsObject.set.
    destruct (String.eqb (key_of s) JsObject.proto).
    + intros E. apply (within_weaken (b1 := bound)); [lia|].
      now apply (Hagg k).
    + rewrite get_set. destruct (String.eqb (key_of s) k).
      * intros E. injection E as <-. exact Hsum.
      * intros E. apply (within_weaken (b1 := bound)); [lia|].
        now apply (Hagg k).
  - exists agg. split; [reflexivity|].
    intros k v E. apply (within_weaken (b1 := bound)); [lia|].
    now apply (Hagg k).
Qed.

Lemma aggregate_from_defined (l : list Move) :
  forall (agg : JsObject.t Js.value) (bound : Z),
  (forall s, In s (filter (passes (zone_field d)) l) ->
     existsb (String.eqb (key_of s)) JsObject.builtin_functions = false
     /\ number_or_text_qty s = true) ->
  values_within bound agg -> (0 <= bound)%Z ->
  (bound + fold_right Z.add 0 (map (fun s => Z.abs (units s))
                                 (filter (passes (zone_field d)) l))
   <= 2 ^ 53)%Z ->
  exists agg', aggregate_from (zone_field d) l agg = Some agg'.
Proof.
  induction l as [|s rest IH]; intros agg bound Hkeys Hagg Hpos Hfit;
    [now exists agg|].
  assert (Hrest : (0 <= fold_right Z.add 0
                          (map (fun s => Z.abs (units s))
                             (filter (passes (zone_field d)) rest)))%Z).
  { clear. induction (filter (passes (zone_field d)) rest); simpl; lia. }
  cbn [aggregate_from filter] in *.
  assert (Hk : passes (zone_field d) s = true ->
               existsb (String.eqb (key_of s)) JsObject.builtin_functions
               = false /\ number_or_text_qty s = true).
  { intros Hs. apply Hkeys. rewrite Hs. now left. }
  assert (Hk' : forall s', In s' (filter (passes (zone_field d)) rest) ->
                existsb (String.eqb (key_of s')) JsObject.builtin_functions
                = false /\ number_or_text_qty s' = true).
  { intros s' Hs'. apply Hkeys.
    destruct (passes (zone_field d) s); [now right | exact Hs']. }
  assert (Hroom : (bound
                   + (if passes (zone_field d) s then Z.abs (units s) else 0)
                   + fold_right Z.add 0
                       (map (fun s => Z.abs (units s))
                          (filter (passes (zone_field d)) rest))
                   <= 2 ^ 53)%Z).
  { destruct (passes (zone_field d) s); simpl in Hfit; lia. }
  assert (Hstep : (bound
                   + (if passes (zone_field d) s then Z.abs (units s) else 0)
                   <= 2 ^ 53)%Z) by lia.
  destruct (@agg_step_defined agg s bound Hk Hagg Hpos Hstep)
    as (agg' & -> & Hagg').
  apply (IH agg' _ Hk' Hagg'); [|exact Hroom].
  destruct (passes (zone_field d) s); lia.
Qed.

Lemma aggregate_tolerable (moves : list Move) :
  tolerable d moves = true ->
  exists agg, aggregate (zone_field d) moves = Some agg.
Proof.
  unfold tolerable. intros Htol.
  apply andb_true_iff in Htol as [Hkeys Hvol].
  rewrite forallb_forall in Hkeys. apply Z.leb_le in Hvol.
  apply (@aggregate_from_defined moves JsObject.empty 0%Z).
  - intros s Hs. specialize (Hkeys s Hs).
    apply andb_true_iff in Hkeys as [Hk Hq].
    split; [now apply negb_true_iff | exact Hq].
  - intros k v E. discriminate E.
  - lia.
  - exact Hvol.
Qed.

(** The sentinel group of a plain input. *)
Lemma sentinel_group (moves : list Move) (s : Move) :
  plain d moves = true -> In s (filtered d moves) -> unreferenced s ->
  key_of s = sentinel
  /\ exists agg, aggregate (zone_field d) moves = Some agg
       /\ JsObject.get agg sentinel
          = JsObject.Own (Js.Num (total_qty d moves sentinel))
       /\ In sentinel (map fst (JsObject.entries agg)).
Proof.
  intros Hplain Hs Hun.
  assert (Hk : key_of s = sentinel).
  { unfold key_of. destruct Hun as [-> | ->]; reflexivity. }
  split; [exact Hk|].
  exists (map number_property (tally (zone_field d) moves)).
  split; [now apply aggregate_plain|].
  assert (Hin : In sentinel (map fst (tally (zone_field d) moves))).
  { rewrite keys_tally. apply distinct_In.
    rewrite <- Hk. now apply (in_map key_of). }
  split.
  - destruct (plain_filtered d moves s Hplain Hs) as [Hord _].
    rewrite <- Hk, (ordinary_ref_get _ s Hord), Hk.
    apply in_map_iff in Hin as ([k v] & Hfst & Hin).
    simpl in Hfst. subst k.
    rewrite (get_In _ _ _ (tally_NoDup (zone_field d) moves) Hin).
    f_equal. f_equal. now apply value_tally in Hin.
  - rewrite entries_numbers, map_map. cbn [number_property fst].
    apply (Permutation_in _
             (Permutation_sym (Permutation_map fst (entries_perm _)))).
    exact Hin.
Qed.

End Malformed.




(** ** The colour ramp *)

Section ColourRamp.

Lemma clamp01_range p : 0 <= clamp01 p <= 1.
Proof.
  unfold clamp01.
  destruct (Q.max_spec 0 (Qmin 1 p)) as [[? E] | [? E]],
           (Q.min_spec 1 p) as [[? E2] | [? E2]]; lra.
Qed.

Lemma clamp01_inside p : 0 <= p <= 1 -> clamp01 p == p.
Proof.
  unfold clamp01. intros Hp.
  destruct (Q.max_spec 0 (Qmin 1 p)) as [[? E] | [? E]],
           (Q.min_spec 1 p) as [[? E2] | [? E2]]; lra.
Qed.

Lemma clamp01_below p : p <= 0 -> clamp01 p == 0.
Proof.
  unfold clamp01. intros Hp.
  destruct (Q.max_spec 0 (Qmin 1 p)) as [[? E] | [? E]],
           (Q.min_spec 1 p) as [[? E2] | [? E2]]; lra.
Qed.

Lemma clamp01_above p : 1 <= p -> clamp01 p == 1.
Proof.
  unfold clamp01. intros Hp.
  destruct (Q.max_spec 0 (Qmin 1 p)) as [[? E] | [? E]],
           (Q.min_spec 1 p) as [[? E2] | [? E2]]; lra.
Qed.

Lemma channel_comp a b t t' : t == t' -> channel a b t = channel a b t'.
Proof.
  intros Ht. unfold channel, Js.Math_round. apply Qfloor_comp.
  now rewrite Ht.
Qed.

Lemma colorChannels_comp p q :
  clamp01 p == clamp01 q -> colorChannels p = colorChannels q.
Proof.
  intros Hpq. unfold colorChannels. cbv zeta.
  now rewrite !(channel_comp _ _ Hpq).
Qed.

(** A channel stays between its two end values. *)
Lemma channel_between a b t :
  0 <= t <= 1 ->
  (Z.min a b <= channel a b t <= Z.max a b)%Z.
Proof.
  intros Ht. unfold channel, Js.Math_round.
  set (v := inject_Z a + (inject_Z b - inject_Z a) * t).
  assert (Hv : inject_Z (Z.min a b) <= v <= inject_Z (Z.max a b)).
  { subst v.
    destruct (Z.le_ge_cases a b) as [Hab | Hab].
    - rewrite Z.min_l, Z.max_r by lia.
      assert (inject_Z a <= inject_Z b) by (rewrite <- Zle_Qle; lia).
      split; nra.
    - rewrite Z.min_r, Z.max_l by lia.
      assert (inject_Z b <= inject_Z a) by (rewrite <- Zle_Qle; lia).
      split; nra. }
  split.
  - rewrite <- (Qfloor_Z (Z.min a b)). apply Qfloor_resp_le. lra.
  - assert (Hlt : inject_Z (Qfloor (v + (1 # 2))) < inject_Z (Z.max a b + 1)).
    { eapply Qle_lt_trans; [apply Qfloor_le|].
      rewrite inject_Z_plus. unfold inject_Z at 2. lra. }
    rewrite <- Zlt_Qlt in Hlt. lia.
Qed.

End ColourRamp.

(** C6, as stated, fails at 0.5: the channels are rounded to integers, and
    the midpoints 127.5, 126.5 and 98.5 are not integers. *)
Lemma colorForOccupancy_half_not_exact :
  colorForOccupancy (1 # 2) = "rgb(128,127,99)"%string
  /\ ~ exact_midpoint (colorChannels (1 # 2)).
Proof.
  split; [reflexivity|].
  intros [Hred _]. vm_compute in Hred. discriminate.
Qed.

(** C6 (amended).  [colorForOccupancy 0] is the low colour rgb(16,185,129)
    and [colorForOccupancy 1] the high colour rgb(239,68,68), exactly; at
    0.5 each channel is the midpoint of the two colours rounded to the
    nearest integer, halves up: rgb(128,127,99).  The ratio is clamped to
    [0,1] first: any [p] gives the colour of [clamp01 p], so ratios below 0
    give the low colour and ratios above 1 the high colour. *)
Theorem colorForOccupancy_ramp (p : Q) :
  colorForOccupancy 0 = css_rgb color_from
  /\ colorForOccupancy 0 = "rgb(16,185,129)"%string
  /\ colorForOccupancy 1 = css_rgb color_to
  /\ colorForOccupancy 1 = "rgb(239,68,68)"%string
  /\ colorForOccupancy (1 # 2) = "rgb(128,127,99)"%string
  /\ colorChannels (1 # 2)
     = mkRGB (Js.Math_round ((16 + 239) / 2))
             (Js.Math_round ((185 + 68) / 2))
             (Js.Math_round ((129 + 68) / 2))
  /\ 0 <= clamp01 p <= 1
  /\ colorForOccupancy p = colorForOccupancy (clamp01 p)
  /\ (p <= 0 -> colorForOccupancy p = css_rgb color_from)
  /\ (1 <= p -> colorForOccupancy p = css_rgb color_to).
Proof.
  repeat match goal with |- _ /\ _ => split end; try reflexivity.
  - apply clamp01_range.
  - apply clamp01_range.
  - unfold colorForOccupancy. f_equal. apply colorChannels_comp.
    symmetry. apply clamp01_inside, clamp01_range.
  - intros Hp. unfold colorForOccupancy. f_equal.
    change color_from with (colorChannels 0).
    apply colorChannels_comp. now rewrite clamp01_below.
  - intros Hp. unfold colorForOccupancy. f_equal.
    change color_to with (colorChannels 1).
    apply colorChannels_comp. now rewrite clamp01_above.
Qed.

Lemma colorForOccupancy_ramp_witness :
  colorForOccupancy (-3 # 2) = css_rgb color_from
  /\ colorForOccupancy (7 # 2) = css_rgb color_to.
Proof.
  split.
  - refine (proj1 (proj2 (proj2 (proj2 (proj2 (proj2 (proj2 (proj2 (proj2
              (colorForOccupancy_ramp (-3 # 2)))))))))) _).
    unfold Qle; simpl; lia.
  - refine (proj2 (proj2 (proj2 (proj2 (proj2 (proj2 (proj2 (proj2 (proj2
              (colorForOccupancy_ramp (7 # 2)))))))))) _).
    unfold Qle; simpl; lia.
Defined.

(** ** The projection *)

Section Mapi.
Context {A B : Type}.

Lemma mapi_from_nth (f : A -> nat -> B) (l : list A) (k i : nat) :
  nth_error (Js.mapi_from k f l) i
  = option_map (fun d => f d (k + i)%nat) (nth_error l i).
Proof.
  revert k i. induction l as [|a t IH]; intros k [|i]; simpl; auto.
  - now rewrite Nat.add_0_r.
  - rewrite IH. now rewrite Nat.add_succ_r.
Qed.

Lemma mapi_nth (f : A -> nat -> B) (l : list A) (i : nat) :
  nth_error (Js.mapi f l) i = option_map (fun d => f d i) (nth_error l i).
Proof. unfold Js.mapi. now rewrite mapi_from_nth. Qed.

Lemma mapi_from_length (f : A -> nat -> B) (l : list A) (k : nat) :
  List.length (Js.mapi_from k f l) = List.length l.
Proof. revert k. induction l; intros k; simpl; auto. Qed.

Lemma mapi_length (f : A -> nat -> B) (l : list A) :
  List.length (Js.mapi f l) = List.length l.
Proof. apply mapi_from_length. Qed.

Lemma mapi_In (f : A -> nat -> B) (l : list A) (b : B) :
  In b (Js.mapi f l) ->
  exists d i, nth_error l i = Some d /\ b = f d i.
Proof.
  intros Hin. apply In_nth_error in Hin as [i Hi].
  rewrite mapi_nth in Hi.
  destruct (nth_error l i) as [d|] eqn:Ed; [|discriminate].
  exists d, i. split; auto. simpl in Hi. congruence.
Qed.

End Mapi.

Section MinMax.

Lemma fold_min_In (l : list Q) (h : Q) : In (fold_left Qmin l h) (h :: l).
Proof.
  revert h. induction l as [|a t IH]; intros h; simpl; [auto|].
  destruct (IH (Qmin h a)) as [E | Hin]; [|auto].
  rewrite <- E. unfold Qmin, GenericMinMax.gmin.
  destruct (h ?= a); auto.
Qed.

Lemma fold_min_le_init (l : list Q) (h : Q) : fold_left Qmin l h <= h.
Proof.
  revert h. induction l as [|a t IH]; intros h; simpl; [lra|].
  eapply Qle_trans; [apply IH | apply Q.le_min_l].
Qed.

Lemma fold_min_le (l : list Q) (h v : Q) :
  In v (h :: l) -> fold_left Qmin l h <= v.
Proof.
  revert h. induction l as [|a t IH]; intros h [<- | Hin]; simpl.
  - lra.
  - destruct Hin.
  - eapply Qle_trans; [apply fold_min_le_init | apply Q.le_min_l].
  - destruct Hin as [<- | Hin].
    + eapply Qle_trans; [apply fold_min_le_init | apply Q.le_min_r].
    + apply IH. now right.
Qed.

Lemma fold_max_In (l : list Q) (h : Q) : In (fold_left Qmax l h) (h :: l).
Proof.
  revert h. induction l as [|a t IH]; intros h; simpl; [auto|].
  destruct (IH (Qmax h a)) as [E | Hin]; [|auto].
  rewrite <- E. unfold Qmax, GenericMinMax.gmax.
  destruct (h ?= a); auto.
Qed.

Lemma fold_max_ge_init (l : list Q) (h : Q) : h <= fold_left Qmax l h.
Proof.
  revert h. induction l as [|a t IH]; intros h; simpl; [lra|].
  eapply Qle_trans; [apply Q.le_max_l | apply IH].
Qed.

Lemma fold_max_ge (l : list Q) (h v : Q) :
  In v (h :: l) -> v <= fold_left Qmax l h.
Proof.
  revert h. induction l as [|a t IH]; intros h [<- | Hin]; simpl.
  - lra.
  - destruct Hin.
  - eapply Qle_trans; [apply Q.le_max_l | apply fold_max_ge_init].
  - destruct Hin as [<- | Hin].
    + eapply Qle_trans; [apply Q.le_max_r | apply fold_max_ge_init].
    + apply IH. now right.
Qed.

Lemma Math_min_list_In (l : list Q) : l <> [] -> In (Js.Math_min_list l) l.
Proof. destruct l; [congruence|]. intros _. apply fold_min_In. Qed.

Lemma Math_min_list_le (l : list Q) v : In v l -> Js.Math_min_list l <= v.
Proof. destruct l; [intros []|]. apply fold_min_le. Qed.

Lemma Math_max_list_In (l : list Q) : l <> [] -> In (Js.Math_max_list l) l.
Proof. destruct l; [congruence|]. intros _. apply fold_max_In. Qed.

Lemma Math_max_list_ge (l : list Q) v : In v l -> v <= Js.Math_max_list l.
Proof. destruct l; [intros []|]. apply fold_max_ge. Qed.

(** [hi - lo || 1] is never zero, and positive when [lo <= hi]. *)
Lemma or_one_nonzero d : ~ Js.or_one d == 0.
Proof.
  unfold Js.or_one. destruct (Qeq_bool d 0) eqn:E.
  - intros H. discriminate.
  - now apply Qeq_bool_neq.
Qed.

Lemma or_one_pos d : 0 <= d -> 0 < Js.or_one d.
Proof.
  intros Hd. unfold Js.or_one. destruct (Qeq_bool d 0) eqn:E; [lra|].
  apply Qeq_bool_neq in E. lra.
Qed.

Lemma or_one_zero d : d == 0 -> Js.or_one d = 1.
Proof.
  intros Hd. unfold Js.or_one.
  apply Qeq_bool_iff in Hd. now rewrite Hd.
Qed.

Lemma or_one_other d : ~ d == 0 -> Js.or_one d = d.
Proof.
  intros Hd. unfold Js.or_one.
  destruct (Qeq_bool d 0) eqn:E; auto.
  apply Qeq_bool_iff in E. contradiction.
Qed.

Lemma jsdiv_or_one a d : Js.jsdiv a (Js.or_one d) = Some (a / Js.or_one d).
Proof.
  unfold Js.jsdiv.
  destruct (Qeq_bool (Js.or_one d) 0) eqn:E; auto.
  apply Qeq_bool_iff in E. elim (or_one_nonzero _ E).
Qed.

(** The normalised coordinate lies in [0,1]. *)
Lemma unit_interval lo hi v :
  lo <= v <= hi ->
  0 <= (v - lo) / Js.or_one (hi - lo) <= 1.
Proof.
  intros Hv.
  assert (Hpos : 0 < Js.or_one (hi - lo)) by (apply or_one_pos; lra).
  split.
  - apply Qle_shift_div_l; lra.
  - apply Qle_shift_div_r; auto.
    unfold Js.or_one in *. destruct (Qeq_bool (hi - lo) 0) eqn:E.
    + apply Qeq_bool_iff in E. lra.
    + lra.
Qed.

End MinMax.

Section Radius.

Lemma radius_range n : 4 <= radius n <= 16.
Proof.
  unfold radius.
  destruct (Q.min_spec 12 (Qmax 0 (n / 50))) as [[? E] | [? E]],
           (Q.max_spec 0 (n / 50)) as [[? E2] | [? E2]]; lra.
Qed.

Lemma radius_monotone n m : n <= m -> radius n <= radius m.
Proof.
  intros Hnm. unfold radius.
  assert (n / 50 <= m / 50).
  { unfold Qdiv. apply Qmult_le_compat_r; auto. unfold Qle; simpl; lia. }
  assert (Qmax 0 (n / 50) <= Qmax 0 (m / 50))
    by (apply Q.max_le_compat; lra).
  assert (Qmin 12 (Qmax 0 (n / 50)) <= Qmin 12 (Qmax 0 (m / 50)))
    by (apply Q.min_le_compat; lra).
  lra.
Qed.

Lemma radius_nonneg n : 0 <= n -> radius n == 4 + Qmin 12 (n / 50).
Proof.
  intros Hn. unfold radius.
  assert (0 <= n / 50) by (apply Qle_shift_div_l; lra).
  now rewrite (Q.max_r 0 (n / 50)).
Qed.

End Radius.

Section Projection.

Lemma filter_hasXY d : hasXY d = true ->
  exists a b, x d = Some a /\ y d = Some b.
Proof. unfold hasXY. destruct (x d), (y d); try discriminate; eauto. Qed.

Lemma filter_hasLL d : hasLL d = true ->
  exists a b, lon d = Some a /\ lat d = Some b.
Proof. unfold hasLL. destruct (lat d), (lon d); try discriminate; eauto. Qed.

Lemma scale_x_value lo hi a :
  scale_x lo hi a
  = Some (16 + (a - lo) / Js.or_one (hi - lo) * 768).
Proof. unfold scale_x. now rewrite jsdiv_or_one. Qed.

Lemma scale_y_value lo hi b :
  scale_y lo hi b
  = Some (16 + (1 - (b - lo) / Js.or_one (hi - lo)) * 208).
Proof. unfold scale_y. now rewrite jsdiv_or_one. Qed.

Lemma scale_x_linear lo hi a :
  lo <= a <= hi ->
  linear_x lo hi a (16 + (a - lo) / Js.or_one (hi - lo) * 768).
Proof.
  intros Ha. unfold linear_x.
  change (inject_Z pad) with 16. change (inject_Z (W - 2 * pad)) with 768.
  change (inject_Z (W - pad)) with 784.
  repeat split.
  - intros E. rewrite or_one_zero by lra.
    assert (Ez : a - lo == 0) by lra. rewrite Ez. reflexivity.
  - intros Hlt. rewrite or_one_other by lra. reflexivity.
  - intros E. assert (Ez : a - lo == 0) by lra. rewrite Ez.
    unfold Qdiv. rewrite Qmult_0_l. reflexivity.
  - intros Hlt E. rewrite or_one_other by lra.
    assert (Ez : a - lo == hi - lo) by lra. rewrite Ez.
    unfold Qdiv. rewrite Qmult_inv_r by lra. reflexivity.
Qed.

Lemma scale_y_linear lo hi b :
  lo <= b <= hi ->
  linear_y lo hi b (16 + (1 - (b - lo) / Js.or_one (hi - lo)) * 208).
Proof.
  intros Hb. unfold linear_y.
  change (inject_Z pad) with 16. change (inject_Z (H - 2 * pad)) with 208.
  change (inject_Z (H - pad)) with 224.
  repeat split.
  - intros E. rewrite or_one_zero by lra.
    assert (Ez : b - lo == 0) by lra. rewrite Ez. reflexivity.
  - intros Hlt. rewrite or_one_other by lra. reflexivity.
  - intros E. assert (Ez : b - lo == 0) by lra. rewrite Ez.
    unfold Qdiv. rewrite Qmult_0_l. reflexivity.
  - intros Hlt E. rewrite or_one_other by lra.
    assert (Ez : b - lo == hi - lo) by lra. rewrite Ez.
    unfold Qdiv. rewrite Qmult_inv_r by lra. reflexivity.
Qed.

Lemma scaled_points_nth tag fx fy sel i d :
  nth_error sel i = Some d ->
  nth_error (scaled_points tag fx fy sel) i
  = Some (mkSvgPoint (point_key d tag i)
            (scale_x (Js.Math_min_list (map (fun d => num (fx d)) sel))
                     (Js.Math_max_list (map (fun d => num (fx d)) sel))
                     (num (fx d)))
            (scale_y (Js.Math_min_list (map (fun d => num (fy d)) sel))
                     (Js.Math_max_list (map (fun d => num (fy d)) sel))
                     (num (fy d)))
            (radius (n_locations d))
            (colorForOccupancy (occ_of d))).
Proof.
  intros Hd. unfold scaled_points. cbv zeta. rewrite mapi_nth, Hd. reflexivity.
Qed.

Lemma scaled_points_rescaled tag fx fy sel :
  sel <> [] ->
  (forall d, In d sel -> exists a b, fx d = Some a /\ fy d = Some b) ->
  rescaled fx fy sel (scaled_points tag fx fy sel).
Proof.
  intros Hne Hcoord.
  set (xs := map (fun d => num (fx d)) sel).
  set (ys := map (fun d => num (fy d)) sel).
  assert (Hxs : xs <> []) by (subst xs; destruct sel; simpl; congruence).
  assert (Hys : ys <> []) by (subst ys; destruct sel; simpl; congruence).
  exists (Js.Math_min_list xs), (Js.Math_max_list xs),
         (Js.Math_min_list ys), (Js.Math_max_list ys).
  split; [split; [now apply Math_min_list_In | apply Math_min_list_le]|].
  split; [split; [now apply Math_max_list_In | apply Math_max_list_ge]|].
  split; [split; [now apply Math_min_list_In | apply Math_min_list_le]|].
  split; [split; [now apply Math_max_list_In | apply Math_max_list_ge]|].
  split; [apply mapi_length|].
  intros i d Hd.
  destruct (Hcoord d (nth_error_In _ _ Hd)) as (a & b & Ha & Hb).
  assert (Hina : In a xs).
  { subst xs. apply in_map_iff. exists d. rewrite Ha. split; auto.
    eapply nth_error_In; eauto. }
  assert (Hinb : In b ys).
  { subst ys. apply in_map_iff. exists d. rewrite Hb. split; auto.
    eapply nth_error_In; eauto. }
  assert (Hra : Js.Math_min_list xs <= a <= Js.Math_max_list xs)
    by (split; [now apply Math_min_list_le | now apply Math_max_list_ge]).
  assert (Hrb : Js.Math_min_list ys <= b <= Js.Math_max_list ys)
    by (split; [now apply Math_min_list_le | now apply Math_max_list_ge]).
  eexists _, a, b, _, _.
  split; [apply (scaled_points_nth tag fx fy _ _ Hd)|].
  cbn [px py]. fold xs ys. rewrite Ha, Hb. cbn [num Js.or_zeroQ].
  split; [reflexivity|]. split; [reflexivity|].
  split; [apply scale_x_value|]. split; [apply scale_y_value|].
  split; [now apply scale_x_linear|]. split; [now apply scale_y_linear|].
  change (inject_Z pad) with 16. change (inject_Z (W - pad)) with 784.
  change (inject_Z (H - pad)) with 224.
  pose proof (unit_interval Hra) as Hu. pose proof (unit_interval Hrb) as Hv.
  set (qa := (a - Js.Math_min_list xs)
             / Js.or_one (Js.Math_max_list xs - Js.Math_min_list xs)) in *.
  set (qb := (b - Js.Math_min_list ys)
             / Js.or_one (Js.Math_max_list ys - Js.Math_min_list ys)) in *.
  repeat split; lra.
Qed.

Lemma scaled_points_renders tag fx fy sel :
  renders tag sel (scaled_points tag fx fy sel).
Proof.
  split; [apply mapi_length|].
  intros i d Hd. eexists. split; [apply (scaled_points_nth _ _ _ _ _ Hd)|].
  repeat split.
Qed.

End Projection.

Section Grid.

Lemma grid_rows_div (n : nat) :
  grid_rows n = ((Z.of_nat n + 9) / 10)%Z.
Proof.
  unfold grid_rows, Js.Math_ceil, Qceiling, cols.
  assert (E : - (inject_Z (Z.of_nat n) / inject_Z 10)
              == inject_Z (- Z.of_nat n) / inject_Z 10).
  { rewrite inject_Z_opp. unfold Qdiv. ring. }
  rewrite (Qfloor_comp _ _ E), <- Zdiv_Qdiv.
  Z.div_mod_to_equations. lia.
Qed.

Lemma grid_points_nth all i d :
  nth_error all i = Some d ->
  nth_error (grid_points all) i
  = Some (mkSvgPoint (point_key d "-grid-" i)
            (Some (inject_Z pad
                   + inject_Z (Z.of_nat i mod cols) * inject_Z cellW
                   + inject_Z cellW / 2))
            (Some (inject_Z pad
                   + inject_Z (Z.of_nat i / cols) * inject_Z cellH
                   + inject_Z cellH / 2))
            (radius (n_locations d))
            (colorForOccupancy (occ_of d))).
Proof.
  intros Hd. unfold grid_points. rewrite mapi_nth, Hd. reflexivity.
Qed.

Lemma cell_centre_x (c : Z) :
  inject_Z pad + inject_Z c * inject_Z cellW + inject_Z cellW / 2
  == inject_Z (16 + 72 * c + 36).
Proof.
  rewrite !inject_Z_plus, inject_Z_mult.
  change (inject_Z pad) with 16. change (inject_Z cellW) with 72.
  change (inject_Z 16) with 16. change (inject_Z 72) with 72.
  change (inject_Z 36) with 36. field.
Qed.

Lemma cell_centre_y (c : Z) :
  inject_Z pad + inject_Z c * inject_Z cellH + inject_Z cellH / 2
  == inject_Z (16 + 40 * c + 20).
Proof.
  rewrite !inject_Z_plus, inject_Z_mult.
  change (inject_Z pad) with 16. change (inject_Z cellH) with 40.
  change (inject_Z 16) with 16. change (inject_Z 40) with 40.
  change (inject_Z 20) with 20. field.
Qed.

Lemma grid_points_layout items :
  grid_layout items
    (mkSvgPoints
       (viewBox_of (pad * 2 + cols * cellW)
                   (pad * 2 + grid_rows (List.length items) * cellH))
       "100%"
       (Z.min 280 (pad * 2 + grid_rows (List.length items) * cellH))
       (grid_points items)).
Proof.
  unfold grid_layout. cbv zeta. cbn [viewBox points].
  rewrite grid_rows_div.
  set (rows := ((Z.of_nat (List.length items) + 9) / 10)%Z).
  assert (E : (pad * 2 + rows * cellH = 32 + 40 * rows)%Z)
    by (unfold pad, cellH; lia).
  rewrite E. split; [|split; [|split]].
  - reflexivity.
  - reflexivity.
  - apply mapi_length.
  - intros i d Hd.
    assert (Hi : (i < List.length items)%nat)
      by (apply nth_error_Some; congruence).
    assert (Hrow : (Z.of_nat i / 10 < rows)%Z).
    { subst rows. Z.div_mod_to_equations. lia. }
    assert (Hcol : (0 <= Z.of_nat i mod 10 < 10)%Z)
      by (apply Z.mod_pos_bound; lia).
    assert (Hrow0 : (0 <= Z.of_nat i / 10)%Z)
      by (apply Z.div_pos; lia).
    eexists _, _, _.
    split; [apply (grid_points_nth _ _ Hd)|]. cbn [key px py].
    split; [reflexivity|]. split; [reflexivity|]. split; [reflexivity|].
    split; [apply cell_centre_x|]. split; [apply cell_centre_y|].
    split; [exact Hrow|].
    rewrite cell_centre_x, cell_centre_y. unfold cols.
    change 0 with (inject_Z 0). change 752 with (inject_Z 752).
    rewrite <- !Zlt_Qlt. lia.
Qed.

Lemma grid_points_renders items : renders "-grid-" items (grid_points items).
Proof.
  split; [apply mapi_length|].
  intros i d Hd. eexists. split; [apply (grid_points_nth _ _ Hd)|].
  repeat split.
Qed.

End Grid.

Section Strategy.
Variable items : list MapItem.

Lemma svgPoints_xy :
  (2 <= List.length (filter hasXY items))%nat ->
  svgPoints items
  = mkSvgPoints (viewBox_of W H) "100%" H
      (scaled_points "-xy-" x y (filter hasXY items)).
Proof.
  intros Hlen. unfold svgPoints. cbv zeta.
  apply Nat.leb_le in Hlen. now rewrite Hlen.
Qed.

Lemma svgPoints_ll :
  (List.length (filter hasXY items) < 2)%nat ->
  (2 <= List.length (filter hasLL items))%nat ->
  svgPoints items
  = mkSvgPoints (viewBox_of W H) "100%" H
      (scaled_points "-ll-" lon lat (filter hasLL items)).
Proof.
  intros Hxy Hll. unfold svgPoints. cbv zeta.
  apply Nat.leb_gt in Hxy. apply Nat.leb_le in Hll. now rewrite Hxy, Hll.
Qed.

Lemma svgPoints_grid :
  (List.length (filter hasXY items) < 2)%nat ->
  (List.length (filter hasLL items) < 2)%nat ->
  svgPoints items
  = mkSvgPoints
      (viewBox_of (pad * 2 + cols * cellW)
                  (pad * 2 + grid_rows (List.length items) * cellH))
      "100%"
      (Z.min 280 (pad * 2 + grid_rows (List.length items) * cellH))
      (grid_points items).
Proof.
  intros Hxy Hll. unfold svgPoints. cbv zeta.
  apply Nat.leb_gt in Hxy. apply Nat.leb_gt in Hll. now rewrite Hxy, Hll.
Qed.

Lemma svgPoints_cases :
  (exists tag fx fy sel,
      points (svgPoints items) = scaled_points tag fx fy sel
      /\ incl sel items)
  \/ points (svgPoints items) = grid_points items.
Proof.
  destruct (le_lt_dec 2 (List.length (filter hasXY items))) as [Hxy | Hxy].
  - left. exists "-xy-"%string, x, y, (filter hasXY items).
    rewrite (svgPoints_xy Hxy). split; auto. apply incl_filter.
  - destruct (le_lt_dec 2 (List.length (filter hasLL items))) as [Hll | Hll].
    + left. exists "-ll-"%string, lon, lat, (filter hasLL items).
      rewrite (svgPoints_ll Hxy Hll). split; auto. apply incl_filter.
    + right. now rewrite (svgPoints_grid Hxy Hll).
Qed.

End Strategy.

Lemma nonempty_of_length {A} (l : list A) : (2 <= List.length l)%nat -> l <> [].
Proof. destruct l; simpl; [lia | congruence]. Qed.

Lemma svgPoints_point_source items p :
  In p (points (svgPoints items)) ->
  exists d, In d items
    /\ r p = radius (n_locations d)
    /\ fill p = colorForOccupancy (occ_of d)
    /\ exists u v, px p = Some u /\ py p = Some v.
Proof.
  intros Hp.
  destruct (svgPoints_cases items)
    as [(tag & fx & fy & sel & E & Hincl) | E]; rewrite E in Hp.
  - unfold scaled_points in Hp. cbv zeta in Hp.
    apply mapi_In in Hp as (d & i & Hd & ->).
    exists d. cbn [r fill px py].
    split; [apply Hincl; eapply nth_error_In; eauto|].
    split; [reflexivity|]. split; [reflexivity|].
    rewrite scale_x_value, scale_y_value. eauto.
  - unfold grid_points in Hp. apply mapi_In in Hp as (d & i & Hd & ->).
    exists d. cbn [r fill px py].
    split; [eapply nth_error_In; eauto|].
    split; [reflexivity|]. split; [reflexivity|]. eauto.
Qed.

Lemma scaled_points_degenerate tag fx fy sel p :
  In p (scaled_points tag fx fy sel) ->
  (Js.Math_min_list (map (fun d => num (fx d)) sel)
   == Js.Math_max_list (map (fun d => num (fx d)) sel) ->
   exists u, px p = Some u /\ u == inject_Z pad)
  /\ (Js.Math_min_list (map (fun d => num (fy d)) sel)
      == Js.Math_max_list (map (fun d => num (fy d)) sel) ->
      exists v, py p = Some v /\ v == inject_Z (H - pad)).
Proof.
  intros Hp.
  apply In_nth_error in Hp as [i Hi].
  destruct (nth_error sel i) as [d|] eqn:Hd.
  2:{ unfold scaled_points in Hi. cbv zeta in Hi.
      rewrite mapi_nth, Hd in Hi. discriminate. }
  rewrite (scaled_points_nth tag fx fy _ _ Hd) in Hi.
  injection Hi as <-. cbn [px py].
  pose proof (nth_error_In _ _ Hd) as Hin.
  split; intros Hdeg.
  - rewrite scale_x_value. eexists. split; [reflexivity|].
    refine (proj1 (scale_x_linear _) Hdeg).
    split; [apply Math_min_list_le | apply Math_max_list_ge];
      apply in_map_iff; eauto.
  - rewrite scale_y_value. eexists. split; [reflexivity|].
    refine (proj1 (scale_y_linear _) Hdeg).
    split; [apply Math_min_list_le | apply Math_max_list_ge];
      apply in_map_iff; eauto.
Qed.





Lemma renders_radii tag src pts : renders tag src pts -> radii_of src pts.
Proof.
  intros [Hlen Hall]. split; [exact Hlen|].
  intros i d Hd. destruct (Hall i d Hd) as (p & Hp & _ & Hr & _).
  exists p. split; [exact Hp | exact Hr].
Qed.

(** C7.  Every storage point that the strategy draws has its own circle, at
    its own position, and the radius of that circle is
    [4 + min(12, max(0, n_locations / 50))] for the count of that very
    point: under the x/y strategy for the points with x and y, under the
    lat/lon strategy for the points with lat and lon, on the grid for every
    point.  For a non-negative count the radius is
    [4 + min(12, n_locations / 50)]; it never decreases when the count
    grows and always lies in [4, 16]. *)
Theorem radius_monotone_clamped (items : list MapItem) (n m : Q)
    (Hnm : n <= m) :
  let XY := filter hasXY items in
  let LL := filter hasLL items in
  let out := points (svgPoints items) in
  ((2 <= List.length XY)%nat -> radii_of XY out)
  /\ ((List.length XY < 2)%nat -> (2 <= List.length LL)%nat ->
      radii_of LL out)
  /\ ((List.length XY < 2)%nat -> (List.length LL < 2)%nat ->
      radii_of items out)
  /\ (forall p, In p out -> 4 <= r p <= 16)
  /\ (0 <= n -> radius n == 4 + Qmin 12 (n / 50))
  /\ radius n <= radius m
  /\ 4 <= radius n <= 16.
Proof.
  intros XY LL out. subst XY LL out.
  split; [|split; [|split; [|split; [|split; [|split]]]]].
  - intros Hxy. rewrite (svgPoints_xy _ Hxy).
    eapply renders_radii, scaled_points_renders.
  - intros Hxy Hll. rewrite (svgPoints_ll _ Hxy Hll).
    eapply renders_radii, scaled_points_renders.
  - intros Hxy Hll. rewrite (svgPoints_grid _ Hxy Hll).
    eapply renders_radii, grid_points_renders.
  - intros p Hp.
    destruct (svgPoints_point_source _ _ Hp) as (d & _ & Hr & _).
    rewrite Hr. apply radius_range.
  - apply radius_nonneg.
  - now apply radius_monotone.
  - apply radius_range.
Qed.

Lemma radius_monotone_clamped_witness :
  radii_of (filter hasXY items_xy) (points (svgPoints items_xy))
  /\ radius 100 <= radius 1000.
Proof.
  assert (Hnm : 100 <= 1000) by (unfold Qle; simpl; lia).
  split.
  - refine (proj1 (radius_monotone_clamped items_xy Hnm) _).
    vm_compute. lia.
  - exact (proj1 (proj2 (proj2 (proj2 (proj2 (proj2
             (radius_monotone_clamped items_xy Hnm))))))).
Defined.

(** C10.  Under the x/y strategy the result holds one circle per item
    carrying both x and y, in input order, and nothing for the other items;
    likewise under the lat/lon strategy for the items carrying both lat and
    lon.  Only the grid draws every item. *)
Theorem svgPoints_rendered_items (items : list MapItem) :
  let XY := filter hasXY items in
  let LL := filter hasLL items in
  let out := points (svgPoints items) in
  (forall d, In d XY <-> In d items /\ x d <> None /\ y d <> None)
  /\ (forall d, In d LL <-> In d items /\ lat d <> None /\ lon d <> None)
  /\ ((2 <= List.length XY)%nat -> renders "-xy-" XY out)
  /\ ((List.length XY < 2)%nat -> (2 <= List.length LL)%nat ->
      renders "-ll-" LL out)
  /\ ((List.length XY < 2)%nat -> (List.length LL < 2)%nat ->
      renders "-grid-" items out).
Proof.
  intros XY LL out. subst XY LL out.
  split; [|split; [|split; [|split]]].
  - intros d. rewrite filter_In. unfold hasXY.
    destruct (x d), (y d); intuition congruence.
  - intros d. rewrite filter_In. unfold hasLL.
    destruct (lat d), (lon d); intuition congruence.
  - intros Hxy. rewrite (svgPoints_xy _ Hxy). apply scaled_points_renders.
  - intros Hxy Hll. rewrite (svgPoints_ll _ Hxy Hll).
    apply scaled_points_renders.
  - intros Hxy Hll. rewrite (svgPoints_grid _ Hxy Hll).
    apply grid_points_renders.
Qed.

Lemma svgPoints_rendered_items_witness :
  renders "-xy-" (filter hasXY items_xy) (points (svgPoints items_xy))
  /\ renders "-ll-" (filter hasLL items_ll) (points (svgPoints items_ll))
  /\ renders "-grid-" items_grid (points (svgPoints items_grid)).
Proof.
  split; [|split].
  - refine (proj1 (proj2 (proj2 (svgPoints_rendered_items items_xy))) _).
    vm_compute. lia.
  - refine (proj1 (proj2 (proj2 (proj2
              (svgPoints_rendered_items items_ll)))) _ _); vm_compute; lia.
  - refine (proj2 (proj2 (proj2 (proj2
              (svgPoints_rendered_items items_grid)))) _ _); vm_compute; lia.
Defined.

(** ** The recommendation card *)

(** C8, as stated, fails on an empty [topK]: the list is empty and the
    handler also records an error message. *)
Lemma onPredict_empty_reports_error :
  onPredict (Resolved (Some [])) card_idle
  = mkCardState false (Some no_recommendation) []
  /\ ~ empty_is_not_an_error.
Proof.
  split; [reflexivity|].
  intros Hspec. destruct (Hspec card_idle) as [_ Herr]. discriminate.
Qed.

Lemma onPredict_resolved (l : list RecoItem) (st : CardState) :
  onPredict (Resolved (Some l)) st
  = mkCardState false
      (if (List.length (firstn 3 l) =? 0)%nat
       then Some no_recommendation else None)
      (firstn 3 l).
Proof.
  unfold onPredict, Js.slice0. cbv zeta.
  destruct (List.length (firstn 3 l) =? 0)%nat; reflexivity.
Qed.

(** C8 (amended).  [onPredict] keeps the first 3 candidates of the reply, or
    all of them when there are fewer; the list never has more than 3
    entries.  No exception leaves the handler and [loading] is reset.  With
    an empty candidate set (or a reply without a [topK] array) the list is
    empty and the error state holds the text of [no_recommendation]; a
    non-empty candidate set leaves no error; a rejected call leaves an
    empty list and the message of the exception, "Erreur" by default. *)
Theorem onPredict_top3 (reply : ServiceReply) (st : CardState) :
  let st' := onPredict reply st in
  loading st' = false
  /\ (List.length (topK st') <= 3)%nat
  /\ (forall cands, reply = Resolved (Some cands) ->
        topK st' = firstn 3 cands
        /\ List.length (topK st') = Nat.min 3 (List.length cands)
        /\ (cands <> [] -> error st' = None)
        /\ (cands = [] ->
            topK st' = [] /\ error st' = Some no_recommendation))
  /\ (reply = Resolved None ->
      topK st' = [] /\ error st' = Some no_recommendation)
  /\ (forall message, reply = Rejected message ->
        topK st' = []
        /\ error st' = Some (Js.nullish message "Erreur")).
Proof.
  cbv zeta. split; [|split; [|split; [|split]]].
  - destruct reply as [m | [l |]]; reflexivity.
  - destruct reply as [m | [l |]]; try (cbn; lia).
    rewrite onPredict_resolved. cbn [topK]. apply firstn_le_length.
  - intros cands ->. rewrite onPredict_resolved. cbn [topK error].
    split; [reflexivity|]. split; [apply length_firstn|].
    split; intros Hc.
    + destruct cands; [congruence | reflexivity].
    + subst cands. split; reflexivity.
  - intros ->. split; reflexivity.
  - intros message ->. split; reflexivity.
Qed.

Lemma onPredict_top3_witness :
  topK (onPredict (Resolved (Some four_candidates)) card_idle)
  = firstn 3 four_candidates
  /\ error (onPredict (Resolved (Some four_candidates)) card_idle) = None.
Proof.
  pose proof (proj1 (proj2 (proj2
    (onPredict_top3 (Resolved (Some four_candidates)) card_idle)))
    four_candidates eq_refl) as (Htop & _ & Herr & _).
  split; [exact Htop|]. apply Herr. discriminate.
Defined.

(* ================================================================== *)
(** * Further properties *)

(** ** Top-5 flows, continued *)

Section ZoneTest.

Lemma upper_ascii_A (c : ascii) :
  Js.upper_ascii c = "A"%char -> c = "A"%char \/ c = "a"%char.
Proof.
  destruct c as [[] [] [] [] [] [] [] []]; vm_compute; intros E;
    solve [discriminate | auto].
Qed.

Lemma toUpperCase_empty (s : string) :
  Js.toUpperCase s = EmptyString -> s = EmptyString.
Proof. destruct s; simpl; [reflexivity | discriminate]. Qed.

Lemma toUpperCase_A (s : string) :
  Js.toUpperCase s = "A"%string <-> s = "A"%string \/ s = "a"%string.
Proof.
  split.
  - destruct s as [|c t]; simpl; [discriminate|].
    intros E. injection E as Ec Et.
    apply toUpperCase_empty in Et. subst t.
    destruct (upper_ascii_A _ Ec) as [-> | ->]; auto.
  - intros [-> | ->]; reflexivity.
Qed.

Lemma in_fast_zone_iff (z : option string) :
  in_fast_zone z = true <-> zone_is_A z.
Proof.
  unfold in_fast_zone, zone_is_A, fast_zone.
  rewrite String.eqb_eq, toUpperCase_A.
  destruct z as [[|c t]|]; simpl; split;
    intros [E | E]; try discriminate; auto; inversion E; auto.
Qed.

Lemma filtered_In d moves s :
  In s (filtered d moves) <-> In s moves /\ zone_is_A (zone_field d s).
Proof.
  unfold filtered, passes. now rewrite filter_In, in_fast_zone_iff.
Qed.

End ZoneTest.

Lemma distinct_nil (l : list string) : distinct l = [] <-> l = [].
Proof. destruct l; simpl; split; intros E; congruence. Qed.

Lemma leaders_length d moves :
  List.length (leaders d moves)
  = Nat.min 5 (List.length (distinct (group_keys d moves))).
Proof. now rewrite leaders_ranked, length_firstn, ranked_length. Qed.

Lemma leaders_listed_iff (d : Direction) (moves : list Move) :
  flows_listed (leaders d moves) = true
  <-> exists s, In s moves /\ zone_is_A (zone_field d s).
Proof.
  unfold flows_listed. rewrite Nat.ltb_lt, leaders_length.
  split.
  - intros Hlen.
    destruct (filtered d moves) as [|s rest] eqn:E.
    + unfold group_keys in Hlen. rewrite E in Hlen. simpl in Hlen. lia.
    + exists s. apply filtered_In. rewrite E. now left.
  - intros (s & Hs). apply filtered_In in Hs.
    unfold group_keys.
    destruct (filtered d moves) as [|s' rest]; [destruct Hs|].
    simpl. lia.
Qed.

(** X1.  On a plain input (references that name no member of
    [Object.prototype], quantities that are numbers or missing, a volume
    that is an exact integer) the Top-5 list of a direction is displayed
    exactly when some move of the sample has its zone field written "A" or
    "a"; with any other spelling, or a missing zone, the placeholder
    "Aucun mouvement" is shown. *)
Theorem top5_listed_iff_some_move (d : Direction) (moves : list Move)
    (Hplain : plain d moves = true) :
  exists out, topFlows d moves = Some out
    /\ (flows_listed out = true
        <-> exists s, In s moves /\ zone_is_A (zone_field d s)).
Proof.
  exists (map numbered (leaders d moves)).
  split; [now apply topFlows_plain|].
  rewrite <- leaders_listed_iff. unfold flows_listed.
  now rewrite length_map.
Qed.

Lemma top5_listed_iff_some_move_witness :
  exists out, topFlows IN moves_scenario = Some out
    /\ flows_listed out = true.
Proof.
  destruct (top5_listed_iff_some_move IN moves_scenario eq_refl)
    as (out & Hout & Hiff).
  exists out. split; [exact Hout|]. apply Hiff.
  exists (mkMove (Some "A") (Some "B") (Some "A") (Some (Js.Num 10)) "")%string.
  split; [now left | now left].
Defined.

Section Conservation.

Lemma sumZ_app (l1 l2 : list Z) : sumZ (l1 ++ l2) = (sumZ l1 + sumZ l2)%Z.
Proof. induction l1; simpl; lia. Qed.

Lemma sumZ_perm (l1 l2 : list Z) : Permutation l1 l2 -> sumZ l1 = sumZ l2.
Proof. induction 1; simpl; lia. Qed.

Lemma sum_values_set (o : JsObject.t Z) (k : string) (q : Z) :
  sumZ (map snd (JsObject.define o k (Js.or_zero (JsObject.own o k) + q)%Z))
  = (sumZ (map snd o) + q)%Z.
Proof.
  induction o as [|[k' v'] rest IH]; simpl; [lia|].
  destruct (String.eqb k' k); simpl; [lia|]. rewrite IH. lia.
Qed.

Lemma sum_values_fold zone (l : list Move) (agg : JsObject.t Z) :
  sumZ (map snd (fold_left (tally_step zone) l agg))
  = (sumZ (map snd agg)
     + sumZ (map (units)
                 (filter (passes zone) l)))%Z.
Proof.
  revert agg. induction l as [|s t IH]; intros agg; simpl; [lia|].
  rewrite IH. unfold tally_step. fold (passes zone s).
  destruct (passes zone s); simpl; [|lia].
  rewrite sum_values_set. lia.
Qed.

Lemma sum_qty_ranked d moves : sum_qty (ranked d moves) = moved_total d moves.
Proof.
  unfold sum_qty, ranked, moved_total, filtered.
  rewrite (sumZ_perm (Permutation_map qty (sort_perm _))).
  rewrite map_map. cbn [flow_of qty].
  rewrite (sumZ_perm (Permutation_map snd (entries_perm _))).
  unfold tally. rewrite sum_values_fold. simpl. lia.
Qed.

Lemma group_sum_nonneg zone l k :
  (forall s, In s (filter (passes zone) l) ->
             (0 <= units s)%Z) ->
  (0 <= group_sum zone l k)%Z.
Proof.
  unfold group_sum. intros Hpos.
  induction (filter (passes zone) l) as [|s t IH]; simpl; [lia|].
  destruct (String.eqb (key_of s) k); simpl.
  - specialize (Hpos s (or_introl eq_refl)) as Hs.
    assert (0 <= fold_right Z.add 0
                   (map (units)
                      (filter (fun s0 => String.eqb (key_of s0) k) t)))%Z.
    { apply IH. intros s0 Hs0. apply Hpos. now right. }
    lia.
  - apply IH. intros s0 Hs0. apply Hpos. now right.
Qed.

Lemma sumZ_firstn_le (n : nat) (l : list Z) :
  Forall (fun v => 0 <= v)%Z l -> (sumZ (firstn n l) <= sumZ l)%Z.
Proof.
  intros Hall. revert n.
  induction Hall as [|v t Hv Ht IH]; intros [|n]; simpl; try lia.
  - assert (0 <= sumZ t)%Z.
    { clear IH. induction Ht; simpl; lia. }
    lia.
  - specialize (IH n). lia.
Qed.

End Conservation.

Lemma leaders_conserve (d : Direction) (moves : list Move) :
  sum_qty (ranked d moves) = moved_total d moves
  /\ ((List.length (distinct (group_keys d moves)) <= 5)%nat ->
      sum_qty (leaders d moves) = moved_total d moves)
  /\ ((forall s, In s (filtered d moves) -> (0 <= units s)%Z) ->
      (sum_qty (leaders d moves) <= moved_total d moves)%Z).
Proof.
  split; [apply sum_qty_ranked|]. split.
  - intros Hfew. rewrite leaders_ranked, firstn_all2.
    + apply sum_qty_ranked.
    + now rewrite ranked_length.
  - intros Hpos. rewrite <- sum_qty_ranked, leaders_ranked.
    unfold sum_qty. rewrite <- firstn_map. apply sumZ_firstn_le.
    apply Forall_forall. intros v Hv.
    apply in_map_iff in Hv as (a & <- & Ha).
    apply ranked_In, value_tally in Ha. rewrite Ha.
    now apply group_sum_nonneg.
Qed.

(** X2.  On a plain input grouping loses no quantity: the loop ends on an
    object whose values are numbers that add up to everything moved
    through the fast zone in that direction.  With at most 5 groups the
    Top-5 adds up to the same total, and when no quantity is negative the
    Top-5 never adds up to more. *)
Theorem top5_conserves_quantity (d : Direction) (moves : list Move)
    (Hplain : plain d moves = true) :
  (exists totals,
      aggregate (zone_field d) moves = Some (map number_property totals)
      /\ sumZ (map snd totals) = moved_total d moves)
  /\ exists out, returns d moves out
       /\ ((List.length (distinct (group_keys d moves)) <= 5)%nat ->
           sum_qty out = moved_total d moves)
       /\ ((forall s, In s (filtered d moves) -> (0 <= units s)%Z) ->
           (sum_qty out <= moved_total d moves)%Z).
Proof.
  split.
  - exists (tally (zone_field d) moves).
    split; [now apply aggregate_plain|].
    unfold tally, moved_total, filtered. rewrite sum_values_fold.
    simpl. lia.
  - exists (leaders d moves). split; [now apply topFlows_plain|].
    apply leaders_conserve.
Qed.

Lemma top5_conserves_quantity_witness :
  exists out, returns IN moves_scenario out
    /\ sum_qty out = moved_total IN moves_scenario.
Proof.
  destruct (top5_conserves_quantity IN moves_scenario eq_refl)
    as (_ & out & Hret & Hsum & _).
  exists out. split; [exact Hret|]. apply Hsum. vm_compute. lia.
Defined.

Section OrderIndependence.

Lemma filter_perm {A} (p : A -> bool) (l1 l2 : list A) :
  Permutation l1 l2 -> Permutation (filter p l1) (filter p l2).
Proof.
  induction 1 as [| a l1 l2 _ IH | a b l | l1 l2 l3 _ IH1 _ IH2]; simpl.
  - constructor.
  - destruct (p a); [now constructor | exact IH].
  - destruct (p a), (p b); try reflexivity. apply perm_swap.
  - now transitivity (filter p l2).
Qed.

Lemma group_sum_perm zone (l1 l2 : list Move) (k : string) :
  Permutation l1 l2 -> group_sum zone l1 k = group_sum zone l2 k.
Proof.
  intros HP. unfold group_sum. apply sumZ_perm.
  apply Permutation_map. now do 2 apply filter_perm.
Qed.

Lemma ranked_member d moves (a : Flow Z) :
  In a (ranked d moves)
  <-> In (ref a) (group_keys d moves)
      /\ qty a = total_qty d moves (ref a).
Proof.
  rewrite ranked_In. split.
  - intros Hin. split.
    + apply (distinct_In (ref a)). unfold group_keys, filtered.
      rewrite <- keys_tally. now apply (in_map fst) in Hin.
    + now apply value_tally in Hin.
  - intros [Hk Hq].
    apply (distinct_In (ref a)) in Hk. unfold group_keys, filtered in Hk.
    rewrite <- keys_tally in Hk.
    apply in_map_iff in Hk as ([k v] & Hfst & Hin). simpl in Hfst. subst k.
    pose proof (value_tally _ _ _ _ Hin) as Hv.
    unfold total_qty in Hq. now rewrite Hq, <- Hv.
Qed.

Lemma ranked_NoDup d moves : NoDup (ranked d moves).
Proof.
  apply (NoDup_map_inv ref).
  eapply Permutation_NoDup;
    [apply Permutation_sym, ranked_refs | apply distinct_NoDup].
Qed.

Lemma ranked_perm d (m1 m2 : list Move) :
  Permutation m1 m2 -> Permutation (ranked d m1) (ranked d m2).
Proof.
  intros HP.
  assert (Hf : Permutation (filtered d m1) (filtered d m2))
    by now apply filter_perm.
  apply NoDup_Permutation; try apply ranked_NoDup.
  intros a. rewrite !ranked_member. unfold total_qty.
  rewrite (group_sum_perm (zone_field d) (ref a) HP).
  unfold group_keys. split; intros [Hk Hq]; split; auto.
  - eapply Permutation_in; [apply Permutation_map, Hf | exact Hk].
  - eapply Permutation_in;
      [apply Permutation_map, Permutation_sym, Hf | exact Hk].
Qed.

Lemma descending_quantities (l : list (Flow Z)) :
  descending l -> StronglySorted (fun v w => (w <= v)%Z) (map qty l).
Proof.
  induction 1 as [|a t Hs IH Hall]; simpl; constructor; auto.
  rewrite Forall_forall in *. intros w Hw.
  apply in_map_iff in Hw as (b & <- & Hb). auto.
Qed.

Lemma sorted_perm_eq (l1 l2 : list Z) :
  StronglySorted (fun v w => (w <= v)%Z) l1 ->
  StronglySorted (fun v w => (w <= v)%Z) l2 ->
  Permutation l1 l2 -> l1 = l2.
Proof.
  intros H1. revert l2.
  induction H1 as [|v t1 Hs1 IH Hall1]; intros l2 H2 HP.
  - apply Permutation_nil in HP. now subst.
  - destruct l2 as [|w t2];
      [apply Permutation_sym, Permutation_nil in HP; discriminate|].
    inversion H2 as [|? ? Hs2 Hall2]; subst.
    rewrite Forall_forall in Hall1, Hall2.
    assert (Hvw : v = w).
    { assert (Hv : In v (w :: t2))
        by (eapply Permutation_in; [exact HP | now left]).
      assert (Hw : In w (v :: t1))
        by (eapply Permutation_in;
            [apply Permutation_sym, HP | now left]).
      destruct Hv as [-> | Hv]; auto.
      destruct Hw as [-> | Hw]; auto.
      specialize (Hall1 _ Hw). specialize (Hall2 _ Hv). lia. }
    subst w. f_equal. apply IH; auto.
    now apply Permutation_cons_inv in HP.
Qed.

End OrderIndependence.

Lemma leaders_order_independent
    (d : Direction) (m1 m2 : list Move) (HP : Permutation m1 m2) :
  map qty (leaders d m1) = map qty (leaders d m2).
Proof.
  pose proof (ranked_perm d HP) as HR.
  rewrite !leaders_ranked, <- !firstn_map. f_equal.
  apply sorted_perm_eq.
  - apply descending_quantities, sort_descending.
  - apply descending_quantities, sort_descending.
  - now apply Permutation_map.
Qed.

Lemma forallb_perm {A} (p : A -> bool) (l1 l2 : list A) :
  Permutation l1 l2 -> forallb p l1 = true -> forallb p l2 = true.
Proof.
  intros HP. rewrite !forallb_forall. intros Hall a Ha.
  apply Hall. eapply Permutation_in; [apply Permutation_sym, HP | exact Ha].
Qed.

(** Being plain does not depend on the order of the records. *)
Lemma plain_perm (d : Direction) (m1 m2 : list Move) :
  Permutation m1 m2 -> plain d m1 = true -> plain d m2 = true.
Proof.
  intros HP. unfold plain, volume. intros Hplain.
  apply andb_true_iff in Hplain as [Hall Hvol].
  assert (Hf : Permutation (filtered d m1) (filtered d m2))
    by now apply filter_perm.
  apply andb_true_iff. split.
  - exact (forallb_perm _ Hf Hall).
  - change (fold_right Z.add 0%Z) with sumZ in *.
    now rewrite <- (sumZ_perm (Permutation_map _ Hf)).
Qed.

(** X3.  On a plain input the order of the records in the sample changes
    neither the groups nor their quantities: two samples with the same
    records in another order both have a Top-5, with the same column of
    quantities (only the references of tied entries may trade places), and
    with the same entries when there are at most 5 groups. *)
Theorem top5_quantities_order_independent
    (d : Direction) (m1 m2 : list Move) (HP : Permutation m1 m2)
    (Hplain : plain d m1 = true) :
  exists out1 out2,
    returns d m1 out1 /\ returns d m2 out2
    /\ map qty out1 = map qty out2
    /\ ((List.length (distinct (group_keys d m1)) <= 5)%nat ->
        Permutation out1 out2).
Proof.
  exists (leaders d m1), (leaders d m2).
  split; [now apply topFlows_plain|].
  split; [apply topFlows_plain; now apply (plain_perm d HP)|].
  split; [now apply leaders_order_independent|].
  intros Hfew. pose proof (ranked_perm d HP) as HR.
  rewrite !leaders_ranked, !firstn_all2; auto.
  - rewrite <- (Permutation_length HR), ranked_length. exact Hfew.
  - rewrite ranked_length. exact Hfew.
Qed.

Lemma top5_quantities_order_independent_witness :
  exists out1 out2,
    returns IN moves_scenario out1 /\ returns IN (rev moves_scenario) out2
    /\ map qty out1 = map qty out2.
Proof.
  destruct (top5_quantities_order_independent IN
              (Permutation_rev moves_scenario) eq_refl)
    as (out1 & out2 & H1 & H2 & Hq & _).
  exists out1, out2. auto.
Defined.

(** ** The plan of the warehouse, continued *)

(** X4.  The plan is drawn exactly when the map response holds at least
    one support; the placeholder is shown only for an empty list. *)
Theorem plan_drawn_iff_items (items : list MapItem) :
  plan_drawn items = true <-> items <> [].
Proof.
  unfold plan_drawn. rewrite Nat.ltb_lt.
  destruct (le_lt_dec 2 (List.length (filter hasXY items))) as [Hxy | Hxy].
  - rewrite (svgPoints_xy _ Hxy). cbn [points].
    unfold scaled_points. cbv zeta. rewrite mapi_length.
    split; [|lia]. intros _ ->. simpl in Hxy. lia.
  - destruct (le_lt_dec 2 (List.length (filter hasLL items))) as [Hll | Hll].
    + rewrite (svgPoints_ll _ Hxy Hll). cbn [points].
      unfold scaled_points. cbv zeta. rewrite mapi_length.
      split; [|lia]. intros _ ->. simpl in Hll. lia.
    + rewrite (svgPoints_grid _ Hxy Hll). cbn [points].
      unfold grid_points. rewrite mapi_length.
      destruct items; simpl; split; try lia; congruence.
Qed.

Section GridCircles.

Lemma grid_cell_distinct (i j : nat) :
  i <> j ->
  (Z.of_nat i mod 10 <> Z.of_nat j mod 10
   \/ Z.of_nat i / 10 <> Z.of_nat j / 10)%Z.
Proof.
  intros Hij.
  destruct (Z.eq_dec (Z.of_nat i / 10) (Z.of_nat j / 10)) as [E | E];
    [left | now right].
  intros Em. apply Hij, Nat2Z.inj.
  rewrite (Z.div_mod (Z.of_nat i) 10), (Z.div_mod (Z.of_nat j) 10) by lia.
  now rewrite E, Em.
Qed.

Lemma inject_Z_gap (a b k : Z) :
  (a + k <= b)%Z -> inject_Z k <= inject_Z b - inject_Z a.
Proof.
  intros H. rewrite Zle_Qle, inject_Z_plus in H. lra.
Qed.

End GridCircles.

(** X5.  On the grid no two circles meet and every circle lies inside the
    view box: two items are drawn at centres 72 apart horizontally or 40
    apart vertically, while two radii add up to 32 at most. *)
Theorem grid_circles_apart (items : list MapItem) (i j : nat)
    (p q : SvgPoint)
    (Hxy : (List.length (filter hasXY items) < 2)%nat)
    (Hll : (List.length (filter hasLL items) < 2)%nat)
    (Hij : i <> j)
    (Hp : nth_error (points (svgPoints items)) i = Some p)
    (Hq : nth_error (points (svgPoints items)) j = Some q) :
  exists u v u' v',
    px p = Some u /\ py p = Some v /\ px q = Some u' /\ py q = Some v'
    /\ (72 <= u' - u \/ 72 <= u - u' \/ 40 <= v' - v \/ 40 <= v - v')
    /\ r p + r q <= 32
    /\ 0 <= u - r p /\ u + r p <= 752
    /\ 0 <= v - r p
    /\ v + r p <= inject_Z (32 + 40 * grid_rows (List.length items)).
Proof.
  rewrite (svgPoints_grid _ Hxy Hll) in Hp, Hq. cbn [points] in Hp, Hq.
  destruct (nth_error items i) as [di|] eqn:Ei.
  2:{ unfold grid_points in Hp. rewrite mapi_nth, Ei in Hp. discriminate. }
  destruct (nth_error items j) as [dj|] eqn:Ej.
  2:{ unfold grid_points in Hq. rewrite mapi_nth, Ej in Hq. discriminate. }
  rewrite (grid_points_nth _ _ Ei) in Hp. rewrite (grid_points_nth _ _ Ej) in Hq.
  injection Hp as <-. injection Hq as <-. cbn [px py r].
  do 4 eexists. do 4 (split; [reflexivity|]).
  rewrite !cell_centre_x, !cell_centre_y. unfold cols.
  pose proof (radius_range (n_locations di)) as Hri.
  pose proof (radius_range (n_locations dj)) as Hrj.
  assert (Hci : (0 <= Z.of_nat i mod 10 < 10)%Z) by (apply Z.mod_pos_bound; lia).
  assert (Hcj : (0 <= Z.of_nat j mod 10 < 10)%Z) by (apply Z.mod_pos_bound; lia).
  assert (Hrow0 : (0 <= Z.of_nat i / 10)%Z) by (apply Z.div_pos; lia).
  assert (Hrow : (Z.of_nat i / 10 + 1 <= grid_rows (List.length items))%Z).
  { rewrite grid_rows_div.
    assert (i < List.length items)%nat by (apply nth_error_Some; congruence).
    Z.div_mod_to_equations. lia. }
  split.
  { destruct (grid_cell_distinct Hij) as [Hc | Hr].
    - destruct (Z.lt_total (Z.of_nat i mod 10) (Z.of_nat j mod 10))
        as [Hlt | [Heq | Hgt]]; [| contradiction |].
      + left. change 72 with (inject_Z 72). apply inject_Z_gap. lia.
      + right; left. change 72 with (inject_Z 72). apply inject_Z_gap. lia.
    - destruct (Z.lt_total (Z.of_nat i / 10) (Z.of_nat j / 10))
        as [Hlt | [Heq | Hgt]]; [| contradiction |].
      + right; right; left.
        change 40 with (inject_Z 40). apply inject_Z_gap. lia.
      + right; right; right.
        change 40 with (inject_Z 40). apply inject_Z_gap. lia. }
  split; [lra|].
  assert (Hu : 52 <= inject_Z (16 + 72 * (Z.of_nat i mod 10) + 36) <= 700).
  { change 52 with (inject_Z 52). change 700 with (inject_Z 700).
    rewrite <- !Zle_Qle. lia. }
  assert (Hv : 36 <= inject_Z (16 + 40 * (Z.of_nat i / 10) + 20)).
  { change 36 with (inject_Z 36). rewrite <- Zle_Qle. lia. }
  assert (Hv' : inject_Z 16
                <= inject_Z (32 + 40 * grid_rows (List.length items))
                   - inject_Z (16 + 40 * (Z.of_nat i / 10) + 20))
    by (apply inject_Z_gap; lia).
  change (inject_Z 16) with 16 in Hv'.
  repeat split; lra.
Qed.

Lemma grid_circles_apart_witness :
  exists u v u' v',
    px (nth 0 (points (svgPoints items_grid)) point_s1) = Some u
    /\ py (nth 0 (points (svgPoints items_grid)) point_s1) = Some v
    /\ px (nth 1 (points (svgPoints items_grid)) point_s1) = Some u'
    /\ py (nth 1 (points (svgPoints items_grid)) point_s1) = Some v'
    /\ (72 <= u' - u \/ 72 <= u - u' \/ 40 <= v' - v \/ 40 <= v - v')
    /\ r (nth 0 (points (svgPoints items_grid)) point_s1)
       + r (nth 1 (points (svgPoints items_grid)) point_s1) <= 32
    /\ 0 <= u - r (nth 0 (points (svgPoints items_grid)) point_s1)
    /\ u + r (nth 0 (points (svgPoints items_grid)) point_s1) <= 752
    /\ 0 <= v - r (nth 0 (points (svgPoints items_grid)) point_s1)
    /\ v + r (nth 0 (points (svgPoints items_grid)) point_s1)
       <= inject_Z (32 + 40 * grid_rows (List.length items_grid)).
Proof.
  refine (grid_circles_apart items_grid (i := 0) (j := 1) _ _ _ _ _).
  - vm_compute. lia.
  - vm_compute. lia.
  - discriminate.
  - reflexivity.
  - reflexivity.
Defined.

Section Monotone.

Lemma scale_monotone (lo hi a a' k : Q) :
  lo <= hi -> 0 <= k -> a <= a' ->
  (a - lo) / Js.or_one (hi - lo) * k <= (a' - lo) / Js.or_one (hi - lo) * k.
Proof.
  intros Hlo Hk Ha.
  assert (Hpos : 0 < Js.or_one (hi - lo)) by (apply or_one_pos; lra).
  assert (Hinv : 0 <= / Js.or_one (hi - lo))
    by (apply Qinv_le_0_compat; lra).
  unfold Qdiv. apply Qmult_le_compat_r; [|exact Hk].
  apply Qmult_le_compat_r; [lra | exact Hinv].
Qed.

Lemma Math_min_le_max (l : list Q) :
  l <> [] -> Js.Math_min_list l <= Js.Math_max_list l.
Proof.
  intros Hne. apply Math_min_list_le. now apply Math_max_list_In.
Qed.

Lemma scaled_points_order tag fx fy sel i j di dj p q :
  nth_error sel i = Some di -> nth_error sel j = Some dj ->
  nth_error (scaled_points tag fx fy sel) i = Some p ->
  nth_error (scaled_points tag fx fy sel) j = Some q ->
  order_kept (num (fx di)) (num (fx dj)) (num (fy di)) (num (fy dj)) p q.
Proof.
  intros Ei Ej Hp Hq.
  rewrite (scaled_points_nth tag fx fy _ _ Ei) in Hp.
  rewrite (scaled_points_nth tag fx fy _ _ Ej) in Hq.
  injection Hp as <-. injection Hq as <-.
  assert (Hne : sel <> []) by (intros ->; destruct i; discriminate).
  unfold order_kept. cbn [px py]. rewrite !scale_x_value, !scale_y_value.
  do 4 eexists. do 4 (split; [reflexivity|]).
  split; intros Hle.
  - assert (H768 : (0 <= 768)%Q) by (unfold Qle; simpl; lia).
    pose proof (scale_monotone
                  (Math_min_le_max (l := map (fun d => num (fx d)) sel)
                     ltac:(destruct sel; simpl; congruence))
                  H768 Hle) as Hm.
    lra.
  - assert (H208 : (0 <= 208)%Q) by (unfold Qle; simpl; lia).
    pose proof (scale_monotone
                  (Math_min_le_max (l := map (fun d => num (fy d)) sel)
                     ltac:(destruct sel; simpl; congruence))
                  H208 Hle) as Hm.
    lra.
Qed.

End Monotone.

(** X6.  The rescaling keeps the order of the supports: under the x/y
    strategy a support with a smaller or equal x is never drawn to the
    right of one with a larger x, and one with a smaller or equal y is never
    drawn above it; under the lat/lon strategy the same holds for lon
    (horizontal) and lat (vertical). *)
Theorem projection_keeps_order (items : list MapItem) (i j : nat)
    (p q : SvgPoint)
    (Hp : nth_error (points (svgPoints items)) i = Some p)
    (Hq : nth_error (points (svgPoints items)) j = Some q) :
  let XY := filter hasXY items in
  let LL := filter hasLL items in
  ((2 <= List.length XY)%nat ->
     forall di dj, nth_error XY i = Some di -> nth_error XY j = Some dj ->
       order_kept (num (x di)) (num (x dj)) (num (y di)) (num (y dj)) p q)
  /\ ((List.length XY < 2)%nat -> (2 <= List.length LL)%nat ->
      forall di dj, nth_error LL i = Some di -> nth_error LL j = Some dj ->
        order_kept (num (lon di)) (num (lon dj))
                   (num (lat di)) (num (lat dj)) p q).
Proof.
  cbv zeta. split.
  - intros Hxy di dj Ei Ej.
    rewrite (svgPoints_xy _ Hxy) in Hp, Hq. cbn [points] in Hp, Hq.
    exact (scaled_points_order _ _ _ _ _ _ Ei Ej Hp Hq).
  - intros Hxy Hll di dj Ei Ej.
    rewrite (svgPoints_ll _ Hxy Hll) in Hp, Hq. cbn [points] in Hp, Hq.
    exact (scaled_points_order _ _ _ _ _ _ Ei Ej Hp Hq).
Qed.

Lemma projection_keeps_order_witness :
  order_kept (num (x (item_at "S1" 1 5 100)))
             (num (x (item_at "S3" 3 5 1000)))
             (num (y (item_at "S1" 1 5 100)))
             (num (y (item_at "S3" 3 5 1000)))
             point_s1
             (nth 1 (points (svgPoints items_xy)) point_s1).
Proof.
  refine (proj1 (@projection_keeps_order items_xy 0 1 point_s1
                   (nth 1 (points (svgPoints items_xy)) point_s1) _ _)
            _ (item_at "S1" 1 5 100) (item_at "S3" 3 5 1000) _ _).
  - vm_compute. reflexivity.
  - vm_compute. reflexivity.
  - vm_compute. lia.
  - reflexivity.
  - reflexivity.
Defined.

(** ** The colour ramp, continued *)

Section RampMonotone.

Lemma clamp01_monotone (p q : Q) : p <= q -> clamp01 p <= clamp01 q.
Proof.
  intros Hpq. unfold clamp01.
  apply Q.max_le_compat; [lra|]. apply Q.min_le_compat; lra.
Qed.

Lemma channel_up (a b : Z) (t t' : Q) :
  (a <= b)%Z -> t <= t' -> (channel a b t <= channel a b t')%Z.
Proof.
  intros Hab Ht. unfold channel, Js.Math_round. apply Qfloor_resp_le.
  assert (inject_Z a <= inject_Z b) by (rewrite <- Zle_Qle; lia).
  nra.
Qed.

Lemma channel_down (a b : Z) (t t' : Q) :
  (b <= a)%Z -> t <= t' -> (channel a b t' <= channel a b t)%Z.
Proof.
  intros Hab Ht. unfold channel, Js.Math_round. apply Qfloor_resp_le.
  assert (inject_Z b <= inject_Z a) by (rewrite <- Zle_Qle; lia).
  nra.
Qed.

End RampMonotone.

(** X7.  The ramp goes one way only: when the occupancy grows, red never
    decreases and green and blue never increase; the three channels stay
    between their values in the low and in the high colour. *)
Theorem colour_ramp_monotone (p q : Q) (Hpq : p <= q) :
  (red (colorChannels p) <= red (colorChannels q))%Z
  /\ (green (colorChannels q) <= green (colorChannels p))%Z
  /\ (blue (colorChannels q) <= blue (colorChannels p))%Z
  /\ (16 <= red (colorChannels p) <= 239)%Z
  /\ (68 <= green (colorChannels p) <= 185)%Z
  /\ (68 <= blue (colorChannels p) <= 129)%Z.
Proof.
  pose proof (clamp01_monotone Hpq) as Ht.
  pose proof (clamp01_range p) as Hr.
  unfold colorChannels. cbv zeta. cbn [red green blue color_from color_to].
  split; [apply channel_up; [lia | exact Ht]|].
  split; [apply channel_down; [lia | exact Ht]|].
  split; [apply channel_down; [lia | exact Ht]|].
  pose proof (channel_between 16 239 Hr).
  pose proof (channel_between 185 68 Hr).
  pose proof (channel_between 129 68 Hr).
  lia.
Qed.

Lemma colour_ramp_monotone_witness :
  (red (colorChannels (1 # 4)) <= red (colorChannels (3 # 4)))%Z
  /\ (green (colorChannels (3 # 4)) <= green (colorChannels (1 # 4)))%Z.
Proof.
  assert (H : 1 # 4 <= 3 # 4) by (unfold Qle; simpl; lia).
  split.
  - exact (proj1 (colour_ramp_monotone H)).
  - exact (proj1 (proj2 (colour_ramp_monotone H))).
Defined.

(** ** The storage dashboard: zones and hotspots *)

Section ZoneMeta.

Lemma upper_ascii_idem (c : ascii) :
  Js.upper_ascii (Js.upper_ascii c) = Js.upper_ascii c.
Proof. destruct c as [[] [] [] [] [] [] [] []]; reflexivity. Qed.

Lemma toUpperCase_idem (s : string) :
  Js.toUpperCase (Js.toUpperCase s) = Js.toUpperCase s.
Proof.
  induction s as [|c t IH]; simpl; [reflexivity|].
  now rewrite upper_ascii_idem, IH.
Qed.

Lemma upper_ascii_B (c : ascii) :
  Js.upper_ascii c = "B"%char -> c = "B"%char \/ c = "b"%char.
Proof.
  destruct c as [[] [] [] [] [] [] [] []]; vm_compute; intros E;
    solve [discriminate | auto].
Qed.

Lemma upper_ascii_C (c : ascii) :
  Js.upper_ascii c = "C"%char -> c = "C"%char \/ c = "c"%char.
Proof.
  destruct c as [[] [] [] [] [] [] [] []]; vm_compute; intros E;
    solve [discriminate | auto].
Qed.

Lemma code_is_letter (u l : ascii) (z : option string) :
  (forall c, Js.upper_ascii c = u -> c = u \/ c = l) ->
  Js.upper_ascii u = u -> Js.upper_ascii l = u -> u <> "?"%char ->
  Js.toUpperCase (Js.or_string z "?") = String u EmptyString
  <-> letter u l z.
Proof.
  intros Hcases Hu Hl Hq. unfold letter. split.
  - destruct z as [[|c t]|]; cbn [Js.or_string Js.toUpperCase].
    + intros E. injection E as E. exfalso. apply Hq. now rewrite <- E.
    + intros E. injection E as Ec Et.
      apply toUpperCase_empty in Et. subst t.
      destruct (Hcases _ Ec) as [-> | ->]; auto.
    + intros E. injection E as E. exfalso. apply Hq. now rewrite <- E.
  - intros [-> | ->]; simpl; rewrite ?Hu, ?Hl; reflexivity.
Qed.

End ZoneMeta.

(** X8.  [zoneMeta] reads the zone code without case: a zone is "haute
    rotation" exactly for "A" or "a", "moyenne rotation" for "B" or "b",
    "basse rotation" for "C" or "c", and a reserve in every other case, a
    missing or empty code included (named "Zone ?"); upper-casing the code
    beforehand changes nothing. *)
Theorem zoneMeta_classification (z : option string) :
  (Zones.meta_type (Zones.zoneMeta z) = Zones.haute_rotation
   <-> letter "A" "a" z)
  /\ (Zones.meta_type (Zones.zoneMeta z) = Zones.moyenne_rotation
      <-> letter "B" "b" z)
  /\ (Zones.meta_type (Zones.zoneMeta z) = Zones.basse_rotation
      <-> letter "C" "c" z)
  /\ Zones.zoneMeta (option_map Js.toUpperCase z) = Zones.zoneMeta z
  /\ Zones.zoneMeta None = Zones.mkMeta "Zone ?" Zones.reserve
  /\ Zones.zoneMeta (Some EmptyString) = Zones.mkMeta "Zone ?" Zones.reserve.
Proof.
  assert (HA := code_is_letter (u := "A") (l := "a") z upper_ascii_A
                  eq_refl eq_refl ltac:(discriminate)).
  assert (HB := code_is_letter (u := "B") (l := "b") z upper_ascii_B
                  eq_refl eq_refl ltac:(discriminate)).
  assert (HC := code_is_letter (u := "C") (l := "c") z upper_ascii_C
                  eq_refl eq_refl ltac:(discriminate)).
  split; [|split; [|split; [|split; [|split; reflexivity]]]].
  - rewrite <- HA. unfold Zones.zoneMeta. cbv zeta.
    destruct (String.eqb_spec (Js.toUpperCase (Js.or_string z "?")) "A")
      as [E | E]; [simpl; tauto|].
    repeat match goal with
           | |- context [if String.eqb ?a ?b then _ else _] =>
               destruct (String.eqb a b)
           end; simpl; split; intros H; congruence.
  - rewrite <- HB. unfold Zones.zoneMeta. cbv zeta.
    destruct (String.eqb_spec (Js.toUpperCase (Js.or_string z "?")) "A")
      as [E | E]; [rewrite E; simpl; split; intros H; discriminate|].
    destruct (String.eqb_spec (Js.toUpperCase (Js.or_string z "?")) "B")
      as [E' | E']; [simpl; tauto|].
    repeat match goal with
           | |- context [if String.eqb ?a ?b then _ else _] =>
               destruct (String.eqb a b)
           end; simpl; split; intros H; congruence.
  - rewrite <- HC. unfold Zones.zoneMeta. cbv zeta.
    destruct (String.eqb_spec (Js.toUpperCase (Js.or_string z "?")) "A")
      as [E | E]; [rewrite E; simpl; split; intros H; discriminate|].
    destruct (String.eqb_spec (Js.toUpperCase (Js.or_string z "?")) "B")
      as [E' | E']; [rewrite E'; simpl; split; intros H; discriminate|].
    destruct (String.eqb_spec (Js.toUpperCase (Js.or_string z "?")) "C")
      as [E'' | E'']; [simpl; tauto|].
    repeat match goal with
           | |- context [if String.eqb ?a ?b then _ else _] =>
               destruct (String.eqb a b)
           end; simpl; split; intros H; congruence.
  - unfold Zones.zoneMeta. cbv zeta.
    assert (E : Js.toUpperCase
                  (Js.or_string (option_map Js.toUpperCase z) "?")
                = Js.toUpperCase (Js.or_string z "?")).
    { destruct z as [[|c t]|]; simpl; try reflexivity.
      now rewrite upper_ascii_idem, toUpperCase_idem. }
    now rewrite E.
Qed.

Lemma zoneMeta_classification_witness :
  Zones.meta_type (Zones.zoneMeta (Some "b"%string)) = Zones.moyenne_rotation.
Proof.
  apply (proj1 (proj2 (zoneMeta_classification (Some "b"%string)))).
  right. reflexivity.
Defined.

Section Rounding.

Lemma Math_round_percent (q : Q) :
  0 <= q <= 100 -> (0 <= Js.Math_round q <= 100)%Z.
Proof.
  intros Hq. unfold Js.Math_round. split.
  - apply (Z.le_trans _ (Qfloor 0)); [reflexivity|].
    apply Qfloor_resp_le. lra.
  - assert (Hlt : inject_Z (Qfloor (q + (1 # 2))) < inject_Z 101).
    { eapply Qle_lt_trans; [apply Qfloor_le|].
      change (inject_Z 101) with 101. lra. }
    rewrite <- Zlt_Qlt in Hlt. lia.
Qed.

End Rounding.



Section Substrings.

Lemma prefix_iff (needle hay : string) :
  String.prefix needle hay = true
  <-> exists post, hay = (needle ++ post)%string.
Proof.
  revert hay. induction needle as [|a n IH]; intros hay.
  - destruct hay; simpl; split; eauto.
  - destruct hay as [|b h]; simpl.
    + split; [discriminate | intros [post E]; discriminate].
    + destruct (Ascii.ascii_dec a b) as [-> | Hab].
      * rewrite IH. split; intros [post E]; exists post; congruence.
      * split; [discriminate | intros [post E]; congruence].
Qed.

Lemma includes_iff (hay needle : string) :
  JsString.includes hay needle = true <-> occurs_in needle hay.
Proof.
  unfold occurs_in. induction hay as [|c t IH].
  - cbn [JsString.includes].
    destruct (String.prefix needle "") eqn:E.
    + split; [|reflexivity]. intros _.
      apply prefix_iff in E as [post E]. exists EmptyString, post. exact E.
    + split; [discriminate|]. intros (pre & post & Hd).
      destruct pre; [|discriminate]. simpl in Hd.
      assert (String.prefix needle "" = true)
        by (apply prefix_iff; eauto).
      congruence.
  - cbn [JsString.includes].
    destruct (String.prefix needle (String c t)) eqn:E.
    + split; [|reflexivity]. intros _.
      apply prefix_iff in E as [post E]. exists EmptyString, post. exact E.
    + rewrite IH. split.
      * intros (pre & post & ->). exists (String c pre), post. reflexivity.
      * intros (pre & post & Hd). destruct pre as [|c' pre].
        -- simpl in Hd.
           assert (String.prefix needle (String c t) = true)
             by (apply prefix_iff; eauto).
           congruence.
        -- simpl in Hd. injection Hd as _ ->. eauto.
Qed.

End Substrings.

Section HotspotRows.

Lemma capacite_range (h : Hotspots.Item) :
  (0 <= Hotspots.capacite_of h <= 100)%Z.
Proof.
  unfold Hotspots.capacite_of.
  destruct (Hotspots.capacity_pct h); lia.
Qed.

Lemma capacite_inside (h : Hotspots.Item) (c : Q) :
  Hotspots.capacity_pct h = Some c -> 0 <= c <= 100 ->
  Hotspots.capacite_of h = Js.Math_round c.
Proof.
  intros E Hc. unfold Hotspots.capacite_of. rewrite E.
  pose proof (Math_round_percent Hc). lia.
Qed.

End HotspotRows.

(** X10.  The card of locations needing attention lists the first 12
    hotspots of the response, in order, and no more.  The capacity shown is
    always an integer between 0 and 100: the rounded percentage when that
    percentage lies in [0, 100], 0 when it is missing; a missing location,
    product or reason reads "—". *)
Theorem emplacementsCritiques_rows (l : list Hotspots.Item) :
  Hotspots.emplacementsCritiques None = []
  /\ List.length (Hotspots.emplacementsCritiques (Some l))
     = Nat.min 12 (List.length l)
  /\ (forall row, In row (Hotspots.emplacementsCritiques (Some l)) ->
        (0 <= Hotspots.capacite row <= 100)%Z)
  /\ (forall i h, (i < 12)%nat -> nth_error l i = Some h ->
        exists row,
          nth_error (Hotspots.emplacementsCritiques (Some l)) i = Some row
          /\ Hotspots.emplacement row = Js.nullish (Hotspots.location h) "—"
          /\ Hotspots.produit row
             = Js.nullish (Hotspots.referenceproduit h) "—"
          /\ Hotspots.probleme row = Js.nullish (Hotspots.reason h) "—"
          /\ (Hotspots.capacity_pct h = None -> Hotspots.capacite row = 0%Z)
          /\ (forall c, Hotspots.capacity_pct h = Some c -> 0 <= c <= 100 ->
                Hotspots.capacite row = Js.Math_round c)).
Proof.
  split; [reflexivity|].
  unfold Hotspots.emplacementsCritiques. cbn [Hotspots.or_empty].
  split; [now rewrite length_map, length_firstn|]. split.
  - intros row Hrow. apply in_map_iff in Hrow as (h & <- & _).
    cbn [Hotspots.capacite]. apply capacite_range.
  - intros i h Hi Hh.
    rewrite nth_error_map, nth_error_firstn.
    apply Nat.ltb_lt in Hi. rewrite Hi, Hh. cbn [option_map].
    eexists. split; [reflexivity|].
    cbn [Hotspots.emplacement Hotspots.produit Hotspots.probleme
         Hotspots.capacite].
    do 3 (split; [reflexivity|]). split.
    + intros E. unfold Hotspots.capacite_of. now rewrite E.
    + intros c E Hc. now apply capacite_inside.
Qed.

(** X11.  Of the two recommendations, "Slotting" has priority "haute"
    exactly when the plan moves at least one product, and "Réassort" has
    priority "critique" exactly when some hotspot of the response, listed
    among the first 12 or not, has a reason containing "rupture" in any
    letter case; otherwise both are "moyenne". *)
Theorem optimisations_priorities (moves : Z)
    (items : option (list Hotspots.Item)) :
  exists slotting reassort,
    Hotspots.optimisations moves items = [slotting; reassort]
    /\ Hotspots.type slotting = "Slotting"%string
    /\ Hotspots.type reassort = "Réassort"%string
    /\ (Hotspots.priorite slotting = Hotspots.haute <-> (0 < moves)%Z)
    /\ (Hotspots.priorite slotting = Hotspots.moyenne <-> (moves <= 0)%Z)
    /\ (Hotspots.priorite reassort = Hotspots.critique
        <-> exists h, In h (Hotspots.or_empty items)
              /\ occurs_in "rupture"
                   (JsString.toLowerCase
                      (Js.or_string (Hotspots.reason h) "")))
    /\ (Hotspots.priorite reassort = Hotspots.moyenne
        <-> Hotspots.nbRupture items = 0%nat)
    /\ (Hotspots.nbRupture items
        <= List.length (Hotspots.or_empty items))%nat.
Proof.
  unfold Hotspots.optimisations. do 2 eexists.
  split; [reflexivity|].
  cbn [Hotspots.type Hotspots.priorite].
  split; [reflexivity|]. split; [reflexivity|].
  split; [|split; [|split; [|split]]].
  - destruct (Z.ltb_spec 0 moves); split; intros; try lia; congruence.
  - destruct (Z.ltb_spec 0 moves); split; intros; try lia; congruence.
  - unfold Hotspots.nbRupture.
    destruct (Nat.ltb_spec 0
                (List.length (filter Hotspots.mentions_rupture
                                (Hotspots.or_empty items)))) as [Hpos | Hz].
    + split; [intros _ | reflexivity].
      destruct (filter Hotspots.mentions_rupture (Hotspots.or_empty items))
        as [|h rest] eqn:E; [simpl in Hpos; lia|].
      assert (Hin : In h (filter Hotspots.mentions_rupture
                            (Hotspots.or_empty items)))
        by (rewrite E; now left).
      apply filter_In in Hin as [Hin Hm].
      exists h. split; [exact Hin|]. now apply includes_iff.
    + split; [discriminate|]. intros (h & Hin & Hocc).
      assert (Hf : In h (filter Hotspots.mentions_rupture
                           (Hotspots.or_empty items))).
      { apply filter_In. split; [exact Hin|]. now apply includes_iff. }
      destruct (filter Hotspots.mentions_rupture (Hotspots.or_empty items));
        [destruct Hf | simpl in Hz; lia].
  - destruct (Nat.ltb_spec 0 (Hotspots.nbRupture items));
      split; intros; try lia; congruence.
  - unfold Hotspots.nbRupture. apply filter_length_le.
Qed.

(** ** The recommendation card, continued *)

(** X12.  After [onPredict] exactly one panel of the card is displayed: the
    result cards when the service returned at least one candidate, the idle
    hint only when the call failed with an empty message, and the error
    text in every other case.  What is displayed does not depend on the
    state before the request. *)
Theorem card_panels_after_predict (reply : ServiceReply) (st : CardState) :
  let st' := onPredict reply st in
  (results_shown st' = true
   <-> exists l, reply = Resolved (Some l) /\ l <> [])
  /\ (idle_hint_shown st' = true <-> reply = Rejected (Some EmptyString))
  /\ (error_shown st' = true
      <-> results_shown st' = false /\ idle_hint_shown st' = false)
  /\ (results_shown st' = true -> idle_hint_shown st' = false)
  /\ onPredict reply st = onPredict reply card_idle.
Proof.
  cbv zeta. split; [|split; [|split; [|split]]].
  - destruct reply as [m | [[|a l]|]]; cbn; split; intros H;
      try discriminate;
      try (destruct H as (l0 & E & Hne); try discriminate E;
           injection E as <-; congruence).
    exists (a :: l). split; [reflexivity | discriminate].
  - destruct reply as [[[|c m]|] | [[|a l]|]]; cbn; split; intros H;
      try discriminate; reflexivity.
  - destruct reply as [[[|c m]|] | [[|a l]|]]; cbn; split; intros H;
      try discriminate; try (destruct H; discriminate); auto.
  - destruct reply as [[[|c m]|] | [[|a l]|]]; cbn; intros H;
      try discriminate; reflexivity.
  - destruct reply as [m | [l|]]; reflexivity.
Qed.

(** ** Operator load *)

Section OperatorBars.

Lemma fold_max_init (l : list Z) (m : Z) : (m <= fold_left Z.max l m)%Z.
Proof.
  revert m. induction l as [|a t IH]; intros m; simpl; [lia|].
  specialize (IH (Z.max m a)). lia.
Qed.

Lemma fold_max_elem (l : list Z) (m v : Z) :
  In v l -> (v <= fold_left Z.max l m)%Z.
Proof.
  revert m. induction l as [|a t IH]; intros m Hin; [destruct Hin|].
  destruct Hin as [<- | Hin]; simpl.
  - pose proof (fold_max_init t (Z.max m a)). lia.
  - now apply IH.
Qed.

Lemma maxOrders_pos (o : list Operators.Item) :
  (1 <= Operators.maxOrders o)%Z.
Proof. apply fold_max_init. Qed.

Lemma maxOrders_ge (o : list Operators.Item) (x : Operators.Item) :
  In x o -> (Operators.orders_of x <= Operators.maxOrders o)%Z.
Proof. intros Hin. apply fold_max_elem. now apply in_map. Qed.

Lemma width_range (item : Operators.Item) :
  0 <= Operators.width item <= 100.
Proof.
  unfold Operators.width.
  destruct (Q.max_spec 0 (Qmin 100 (Operators.bar_source item)))
    as [[? E] | [? E]],
    (Q.min_spec 100 (Operators.bar_source item)) as [[? E2] | [? E2]]; lra.
Qed.

Lemma width_clamp (item : Operators.Item) :
  (0 <= Operators.bar_source item <= 100 ->
   Operators.width item == Operators.bar_source item)
  /\ (Operators.bar_source item <= 0 -> Operators.width item == 0)
  /\ (100 <= Operators.bar_source item -> Operators.width item == 100).
Proof.
  unfold Operators.width.
  destruct (Q.max_spec 0 (Qmin 100 (Operators.bar_source item)))
    as [[? E] | [? E]],
    (Q.min_spec 100 (Operators.bar_source item)) as [[? E2] | [? E2]];
    repeat split; intros; lra.
Qed.

Lemma ratio_percent (k m : Z) :
  (1 <= m)%Z -> (0 <= k <= m)%Z ->
  0 <= inject_Z k / inject_Z m * 100 <= 100.
Proof.
  intros Hm Hk.
  assert (Hmq : 0 < inject_Z m).
  { change 0 with (inject_Z 0). rewrite <- Zlt_Qlt. lia. }
  assert (Hkq : 0 <= inject_Z k <= inject_Z m).
  { change 0 with (inject_Z 0). rewrite <- !Zle_Qle. lia. }
  assert (H01 : 0 <= inject_Z k / inject_Z m <= 1).
  { split; [apply Qle_shift_div_l | apply Qle_shift_div_r]; lra. }
  lra.
Qed.

Lemma ratio_full (m : Z) :
  (1 <= m)%Z -> inject_Z m / inject_Z m * 100 == 100.
Proof.
  intros Hm.
  assert (Hmq : ~ inject_Z m == 0).
  { change 0 with (inject_Z 0). rewrite inject_Z_injective. lia. }
  field. exact Hmq.
Qed.

Lemma ratio_nonpos (k m : Z) :
  (1 <= m)%Z -> (k <= 0)%Z -> inject_Z k / inject_Z m * 100 <= 0.
Proof.
  intros Hm Hk.
  assert (Hmq : 0 < inject_Z m).
  { change 0 with (inject_Z 0). rewrite <- Zlt_Qlt. lia. }
  assert (Hkq : inject_Z k <= 0).
  { change 0 with (inject_Z 0). rewrite <- Zle_Qle. lia. }
  assert (inject_Z k / inject_Z m <= 0)
    by (apply Qle_shift_div_r; lra).
  lra.
Qed.

Lemma Math_round_nonpos (q : Q) : q <= 0 -> (Js.Math_round q <= 0)%Z.
Proof.
  intros Hq. unfold Js.Math_round.
  apply (Z.le_trans _ (Qfloor (1 # 2))); [|reflexivity].
  apply Qfloor_resp_le. lra.
Qed.

End OperatorBars.

(** X13.  An operator row draws a bar whose width always lies in [0, 100].
    The bar follows [barPct] whenever it is present, 0 included, and [pct]
    only when [barPct] is missing; values outside [0, 100] are cut to the
    nearest bound. *)
Theorem operator_row_width (item : Operators.Item) :
  0 <= Operators.width item <= 100
  /\ (forall b, Operators.barPct item = Some b ->
        (0 <= b <= 100 -> Operators.width item == b)
        /\ (b <= 0 -> Operators.width item == 0)
        /\ (100 <= b -> Operators.width item == 100))
  /\ (Operators.barPct item = None ->
        (0 <= Operators.pct item <= 100 ->
         Operators.width item == Operators.pct item)
        /\ (Operators.pct item <= 0 -> Operators.width item == 0)
        /\ (100 <= Operators.pct item -> Operators.width item == 100)).
Proof.
  split; [apply width_range|].
  pose proof (width_clamp item) as Hc. unfold Operators.bar_source in Hc.
  split.
  - intros b E. rewrite E in Hc. exact Hc.
  - intros E. rewrite E in Hc. exact Hc.
Qed.

Lemma operator_row_width_witness :
  Operators.width (Operators.mkItem "Ana" "A" (Some 3%Z) 80 "active" (Some 0))
  == 0.
Proof.
  refine (proj1 (proj2 (proj1 (proj2
            (operator_row_width
               (Operators.mkItem "Ana" "A" (Some 3%Z) 80 "active" (Some 0))))
            0 eq_refl)) _).
  unfold Qle; simpl; lia.
Defined.



Section Percent.

Lemma percent_range (k n : nat) :
  (0 < n)%nat -> (k <= n)%nat -> (0 <= Operators.percent k n <= 100)%Z.
Proof.
  intros Hn Hk. unfold Operators.percent.
  apply Math_round_percent, ratio_percent; lia.
Qed.

Lemma percent_full (n : nat) :
  (0 < n)%nat -> Operators.percent n n = 100%Z.
Proof.
  intros Hn. unfold Operators.percent, Js.Math_round.
  rewrite (Qfloor_comp _ (inject_Z 100 + (1 # 2))); [reflexivity|].
  rewrite ratio_full by lia. reflexivity.
Qed.

Lemma percent_none (n : nat) : Operators.percent 0 n = 0%Z.
Proof.
  unfold Operators.percent, Js.Math_round.
  rewrite (Qfloor_comp _ (1 # 2)); [reflexivity|].
  change (inject_Z (Z.of_nat 0)) with 0. unfold Qdiv. ring.
Qed.

Lemma percent_monotone (k1 k2 n : nat) :
  (0 < n)%nat -> (k1 <= k2)%nat ->
  (Operators.percent k1 n <= Operators.percent k2 n)%Z.
Proof.
  intros Hn Hk. unfold Operators.percent, Js.Math_round.
  apply Qfloor_resp_le.
  assert (Hm : 0 < inject_Z (Z.of_nat n)).
  { change 0 with (inject_Z 0). rewrite <- Zlt_Qlt. lia. }
  assert (Hinv : 0 <= / inject_Z (Z.of_nat n))
    by (apply Qinv_le_0_compat; lra).
  assert (Hq : inject_Z (Z.of_nat k1) <= inject_Z (Z.of_nat k2))
    by (rewrite <- Zle_Qle; lia).
  assert (Hr : inject_Z (Z.of_nat k1) / inject_Z (Z.of_nat n)
               <= inject_Z (Z.of_nat k2) / inject_Z (Z.of_nat n))
    by (unfold Qdiv; apply Qmult_le_compat_r; assumption).
  lra.
Qed.

Lemma filter_all {A} (p : A -> bool) (l : list A) :
  (forall a, In a l -> p a = true) -> filter p l = l.
Proof.
  induction l as [|a t IH]; simpl; intros Hall; [reflexivity|].
  rewrite (Hall a (or_introl eq_refl)). f_equal. apply IH.
  intros b Hb. apply Hall. now right.
Qed.

Lemma filter_none {A} (p : A -> bool) (l : list A) :
  (forall a, In a l -> p a = false) -> filter p l = [].
Proof.
  induction l as [|a t IH]; simpl; intros Hall; [reflexivity|].
  rewrite (Hall a (or_introl eq_refl)). apply IH.
  intros b Hb. apply Hall. now right.
Qed.

Lemma filter_length_weaker {A} (p q : A -> bool) (l : list A) :
  (forall a, p a = true -> q a = true) ->
  (List.length (filter p l) <= List.length (filter q l))%nat.
Proof.
  intros Hpq. induction l as [|a t IH]; simpl; [lia|].
  destruct (p a) eqn:Ep.
  - rewrite (Hpq a Ep). simpl. lia.
  - destruct (q a); simpl; lia.
Qed.

End Percent.

(** X15.  The share of overloaded operators is a whole percentage between
    0 and 100: 0 for an empty list (nothing is divided), 100 when every
    operator has the status "surcharge", 0 when none has.  The supervisor
    dashboard compares the status without case, so for the same operators
    its percentage is never below the one of the orders dashboard. *)
Theorem overload_percentages (ops : list Operators.Item) :
  (0 <= Operators.overloadPct ops <= 100)%Z
  /\ Operators.overloadPct [] = 0%Z
  /\ Operators.overloadSub [] = None
  /\ (ops <> [] ->
      (forall o, In o ops -> Operators.status o = "surcharge"%string) ->
      Operators.overloadPct ops = 100%Z)
  /\ ((forall o, In o ops -> Operators.status o <> "surcharge"%string) ->
      Operators.overloadPct ops = 0%Z)
  /\ (exists k, Operators.overloadStr (Some ops)
                = (Js.string_of_Z k ++ "%")%string
                /\ (Operators.overloadPct ops <= k <= 100)%Z)
  /\ Operators.overloadStr None = "—"%string.
Proof.
  assert (Hcount : (Operators.overloadCount ops <= List.length ops)%nat)
    by apply filter_length_le.
  split; [|split; [reflexivity|split; [reflexivity|split; [|split; [|split]]]]].
  - unfold Operators.overloadPct.
    destruct (Nat.eqb_spec (List.length ops) 0); [lia|].
    apply percent_range; lia.
  - intros Hne Hall. unfold Operators.overloadPct.
    destruct (Nat.eqb_spec (List.length ops) 0) as [E | E].
    + destruct ops; [congruence | discriminate].
    + unfold Operators.overloadCount. rewrite filter_all.
      * apply percent_full. lia.
      * intros o Ho. apply String.eqb_eq. now apply Hall.
  - intros Hnone. unfold Operators.overloadPct.
    destruct (Nat.eqb_spec (List.length ops) 0); [reflexivity|].
    unfold Operators.overloadCount. rewrite filter_none.
    + apply percent_none.
    + intros o Ho. apply String.eqb_neq. now apply Hnone.
  - unfold Operators.overloadStr, Operators.overloadPct. cbv zeta.
    destruct ops as [|o rest].
    + exists 0%Z. split; [reflexivity | cbn; lia].
    + cbn [List.length Nat.ltb Nat.leb Nat.eqb].
      eexists. split; [reflexivity|]. split.
      * apply percent_monotone; [lia|].
        apply filter_length_weaker. intros a Ea.
        apply String.eqb_eq in Ea. unfold Operators.overloaded_nocase.
        now rewrite Ea.
      * apply percent_range; [lia | apply filter_length_le].
  - reflexivity.
Qed.

Lemma overload_percentages_witness :
  Operators.overloadPct
    [Operators.mkItem "Ana" "A" (Some 3%Z) 80 "surcharge" None]
  = 100%Z.
Proof.
  refine (proj1 (proj2 (proj2 (proj2
            (overload_percentages
               [Operators.mkItem "Ana" "A" (Some 3%Z) 80 "surcharge" None]))))
            _ _).
  - discriminate.
  - intros o [<- | []]. reflexivity.
Defined.

(** ** Forecast tiles *)

Section Confidence.
Variable fl : Q -> Q.
Hypothesis Hfl : double_rounding fl.

Lemma Qfloor_unique (y : Q) (z : Z) :
  inject_Z z <= y -> y < inject_Z (z + 1) -> Qfloor y = z.
Proof.
  intros Hlo Hhi.
  assert (H1 : inject_Z (Qfloor y) < inject_Z (z + 1))
    by (eapply Qle_lt_trans; [apply Qfloor_le | exact Hhi]).
  assert (H2 : inject_Z z < inject_Z (Qfloor y + 1))
    by (eapply Qle_lt_trans; [exact Hlo | apply Qlt_floor]).
  rewrite <- Zlt_Qlt in H1, H2. lia.
Qed.

Lemma Math_round_whole (z : Z) : Js.Math_round (inject_Z z) = z.
Proof.
  unfold Js.Math_round. apply Qfloor_unique.
  - lra.
  - rewrite inject_Z_plus. change (inject_Z 1) with 1. lra.
Qed.

Lemma Math_round_monotone (a b : Q) :
  a <= b -> (Js.Math_round a <= Js.Math_round b)%Z.
Proof. intros Hab. unfold Js.Math_round. apply Qfloor_resp_le. lra. Qed.

Lemma fl_whole (z : Z) (q : Q) :
  (Z.abs z <= 2 ^ 53)%Z -> q == inject_Z z -> fl q == inject_Z z.
Proof.
  pose proof Hfl as (Hproper & _ & Hint & _).
  intros Hz Hq. rewrite (Hproper _ _ Hq). now apply Hint.
Qed.

Lemma fl_percent (q : Q) : 0 <= q <= 100 -> 0 <= fl q <= 100.
Proof.
  pose proof Hfl as (_ & Hmono & _ & _).
  intros [Hlo Hhi]. split.
  - rewrite <- (@fl_whole 0%Z 0); [now apply Hmono | simpl; lia |].
    reflexivity.
  - rewrite <- (@fl_whole 100%Z 100); [now apply Hmono | simpl; lia |].
    reflexivity.
Qed.

(** The double nearest to [p / 100], times 100, is within one half of
    [p]. *)
Lemma ratio_of_whole_percent (p : Z) :
  (0 <= p <= 100)%Z ->
  let a := fl (inject_Z p / 100) in
  a <= 1
  /\ inject_Z p - (1 # 4) <= fl (a * 100)
  /\ fl (a * 100) <= inject_Z p + (1 # 4).
Proof.
  intros [Hlo Hhi]. cbv zeta.
  pose proof Hfl as (_ & Hmono & _ & Hclose).
  rewrite Zle_Qle in Hlo, Hhi.
  change (inject_Z 0) with 0 in Hlo. change (inject_Z 100) with 100 in Hhi.
  set (q := inject_Z p / 100). set (a := fl q).
  assert (Hq : q * 100 == inject_Z p) by (unfold q; field).
  assert (Hq0 : 0 <= q) by lra.
  assert (Hq1 : q <= 1) by lra.
  assert (Hbig : 101 <= inject_Z (2 ^ 53)).
  { change 101 with (inject_Z 101). rewrite <- Zle_Qle.
    apply Z.leb_le. reflexivity. }
  destruct (Hclose q Hq0 ltac:(lra)) as [Ha1 Ha2]. fold a in Ha1, Ha2.
  assert (Hone : a <= 1).
  { unfold a. rewrite <- (@fl_whole 1%Z 1); [now apply Hmono | |].
    - simpl; lia.
    - reflexivity. }
  split; [exact Hone|].
  assert (Ha0 : 0 <= a * 100).
  { assert (0 <= a); [|lra].
    unfold a. rewrite <- (@fl_whole 0%Z 0); [now apply Hmono | |].
    - simpl; lia.
    - reflexivity. }
  destruct (Hclose (a * 100) Ha0 ltac:(lra)) as [Hb1 Hb2].
  split; lra.
Qed.

End Confidence.

(** X16.  The confidence of a tile is shown only when it is a number.  It
    is read as a ratio up to 1 and as a percentage above.  Whatever the
    rounding of the product to a double does within its error bound: 1
    itself reads 100; every confidence between 0 and 100 gives a figure
    between 0 and 100; a whole percentage [p] from 2 to 100 reads [p], and
    so does the double nearest to the ratio [p / 100]; on each side of 1
    the figure never decreases when the confidence grows. *)
Theorem forecast_confidence (fl : Q -> Q) (c : Q)
    (Hfl : double_rounding fl) :
  ForecastTile.pct fl None = None
  /\ ForecastTile.pct fl (Some 1) = Some 100%Z
  /\ (exists k, ForecastTile.pct fl (Some c) = Some k
        /\ (0 <= c <= 100 -> (0 <= k <= 100)%Z))
  /\ (forall p, (2 <= p <= 100)%Z ->
        ForecastTile.pct fl (Some (inject_Z p)) = Some p
        /\ ForecastTile.pct fl (Some (fl (inject_Z p / 100))) = Some p)
  /\ (forall c', c <= c' -> c' <= 1 \/ 1 < c ->
        exists k k', ForecastTile.pct fl (Some c) = Some k
          /\ ForecastTile.pct fl (Some c') = Some k' /\ (k <= k')%Z).
Proof.
  split; [reflexivity|]. split; [|split; [|split]].
  - unfold ForecastTile.pct.
    change (Qle_bool 1 1) with true. cbv iota.
    f_equal. unfold Js.Math_round. apply Qfloor_unique.
    + rewrite (@fl_whole fl Hfl 100%Z (1 * 100)); [lra | simpl; lia |].
      reflexivity.
    + rewrite (@fl_whole fl Hfl 100%Z (1 * 100)); [| simpl; lia |].
      * change (inject_Z (100 + 1)) with 101. change (inject_Z 100) with 100.
        lra.
      * reflexivity.
  - unfold ForecastTile.pct.
    destruct (Qle_bool c 1) eqn:E; eexists; (split; [reflexivity|]);
      intros Hc.
    + apply Qle_bool_iff in E. apply Math_round_percent.
      apply (@fl_percent fl Hfl). lra.
    + now apply Math_round_percent.
  - intros p Hp. split.
    + unfold ForecastTile.pct.
      assert (E : Qle_bool (inject_Z p) 1 = false).
      { destruct (Qle_bool (inject_Z p) 1) eqn:E; [|reflexivity].
        apply Qle_bool_iff in E. change 1 with (inject_Z 1) in E.
        rewrite <- Zle_Qle in E. lia. }
      rewrite E. f_equal. apply Math_round_whole.
    + destruct (@ratio_of_whole_percent fl Hfl p) as (Hone & Hlo & Hhi);
        [lia|].
      unfold ForecastTile.pct.
      apply Qle_bool_iff in Hone. rewrite Hone. f_equal.
      unfold Js.Math_round. apply Qfloor_unique.
      * lra.
      * rewrite inject_Z_plus. change (inject_Z 1) with 1. lra.
  - intros c' Hcc' Hside. unfold ForecastTile.pct.
    pose proof Hfl as (_ & Hmono & _ & _).
    destruct Hside as [Hlow | Hhigh].
    + assert (E1 : Qle_bool c 1 = true) by (apply Qle_bool_iff; lra).
      assert (E2 : Qle_bool c' 1 = true) by (apply Qle_bool_iff; lra).
      rewrite E1, E2. eexists. eexists.
      split; [reflexivity|]. split; [reflexivity|].
      apply Math_round_monotone, Hmono. lra.
    + assert (E1 : Qle_bool c 1 = false).
      { destruct (Qle_bool c 1) eqn:E; [|reflexivity].
        apply Qle_bool_iff in E. lra. }
      assert (E2 : Qle_bool c' 1 = false).
      { destruct (Qle_bool c' 1) eqn:E; [|reflexivity].
        apply Qle_bool_iff in E. lra. }
      rewrite E1, E2. eexists. eexists.
      split; [reflexivity|]. split; [reflexivity|].
      now apply Math_round_monotone.
Qed.

(** The exact product is within the error bound of the rounding. *)
Lemma exact_product_rounding : double_rounding (fun q => q).
Proof.
  split; [|split; [|split]].
  - intros a b E. exact E.
  - intros a b H. exact H.
  - intros z _. reflexivity.
  - intros a Ha _.
    assert (0 <= (a + 1) * (1 # 4503599627370496)); [|split; lra].
    apply Qmult_le_0_compat; [lra | discriminate].
Qed.

Lemma forecast_confidence_witness :
  ForecastTile.pct (fun q => q) (Some (inject_Z 87)) = Some 87%Z
  /\ ForecastTile.pct (fun q => q) (Some (inject_Z 87 / 100)) = Some 87%Z.
Proof.
  refine (proj1 (proj2 (proj2 (proj2
            (forecast_confidence 0 exact_product_rounding)))) 87%Z _).
  lia.
Defined.

(** ** The supervisor dashboard *)

Section AuthHeaders.

Lemma starts_with_bearer (raw : string) :
  JsString.startsWith ("Bearer " ++ raw) "Bearer " = true.
Proof. unfold JsString.startsWith. apply prefix_iff. eauto. Qed.

Lemma or_string_truthy (v : option string) :
  Js.or_string v "" = EmptyString <-> JsString.truthy v = false.
Proof. destruct v as [[|c t]|]; simpl; split; intros E; congruence. Qed.

Lemma or_else_truthy (a b : option string) :
  JsString.truthy (Supervisor.or_else a b)
  = JsString.truthy a || JsString.truthy b.
Proof.
  unfold Supervisor.or_else. destruct (JsString.truthy a) eqn:E; simpl; auto.
Qed.

Lemma bearer_prefixed (raw : string) :
  JsString.startsWith (bearer raw) "Bearer " = true.
Proof.
  unfold bearer. destruct (JsString.startsWith raw "Bearer ") eqn:E; auto.
  apply starts_with_bearer.
Qed.

Lemma bearer_idem (raw : string) : bearer (bearer raw) = bearer raw.
Proof. unfold bearer at 1. now rewrite bearer_prefixed. Qed.

Lemma authHeaders_value (getItem : string -> option string) :
  let raw :=
    Js.or_string
      (Supervisor.or_else (getItem "token"%string)
         (Supervisor.or_else (getItem "access_token"%string)
                             (getItem "auth_token"%string))) "" in
  Supervisor.authHeaders (Some getItem)
  = if String.eqb raw "" then [] else [("Authorization"%string, bearer raw)].
Proof. reflexivity. Qed.

End AuthHeaders.

(** X17.  [authHeaders] yields at most the Authorization header, and its
    value always starts with "Bearer ": a stored token that already has the
    prefix is sent as it is, never prefixed twice.  The header is absent
    exactly when reading the storage fails or none of the keys "token",
    "access_token" and "auth_token" holds a non-empty string, and "token"
    wins over the two others. *)
Theorem authHeaders_bearer (localStorage : Supervisor.Storage) :
  (List.length (Supervisor.authHeaders localStorage) <= 1)%nat
  /\ (forall k v, In (k, v) (Supervisor.authHeaders localStorage) ->
        k = "Authorization"%string
        /\ JsString.startsWith v "Bearer " = true)
  /\ Supervisor.authHeaders None = []
  /\ (forall getItem,
        Supervisor.authHeaders (Some getItem) = []
        <-> JsString.truthy (getItem "token"%string) = false
            /\ JsString.truthy (getItem "access_token"%string) = false
            /\ JsString.truthy (getItem "auth_token"%string) = false)
  /\ (forall getItem raw,
        getItem "token"%string = Some raw -> raw <> EmptyString ->
        Supervisor.authHeaders (Some getItem)
        = [("Authorization"%string, bearer raw)])
  /\ (forall getItem v,
        In ("Authorization"%string, v)
           (Supervisor.authHeaders (Some getItem)) ->
        Supervisor.authHeaders (Some (fun _ => Some v))
        = [("Authorization"%string, v)]).
Proof.
  split; [|split; [|split; [reflexivity|split; [|split]]]].
  - destruct localStorage as [getItem|]; [|simpl; lia].
    rewrite authHeaders_value. cbv zeta.
    destruct (String.eqb _ ""); simpl; lia.
  - intros k v Hin. destruct localStorage as [getItem|]; [|destruct Hin].
    rewrite authHeaders_value in Hin. cbv zeta in Hin.
    destruct (String.eqb _ "") in Hin; [destruct Hin|].
    destruct Hin as [E | []]. injection E as <- <-.
    split; [reflexivity | apply bearer_prefixed].
  - intros getItem. rewrite authHeaders_value. cbv zeta.
    destruct (String.eqb_spec
                (Js.or_string
                   (Supervisor.or_else (getItem "token"%string)
                      (Supervisor.or_else (getItem "access_token"%string)
                         (getItem "auth_token"%string))) "") "")
      as [E | E].
    + split; [intros _ | reflexivity].
      apply or_string_truthy in E. rewrite !or_else_truthy in E.
      destruct (JsString.truthy (getItem "token"%string)),
               (JsString.truthy (getItem "access_token"%string)),
               (JsString.truthy (getItem "auth_token"%string));
        simpl in E; try discriminate; auto.
    + split; [discriminate|]. intros (H1 & H2 & H3). exfalso. apply E.
      apply or_string_truthy. rewrite !or_else_truthy, H1, H2, H3.
      reflexivity.
  - intros getItem raw Htok Hne. rewrite authHeaders_value. cbv zeta.
    rewrite Htok. unfold Supervisor.or_else at 1.
    destruct raw as [|c t]; [congruence|]. reflexivity.
  - intros getItem v Hin.
    rewrite authHeaders_value in Hin. cbv zeta in Hin.
    destruct (String.eqb _ "") in Hin; [destruct Hin|].
    destruct Hin as [E | []]. injection E as <-.
    set (r0 := Js.or_string _ "").
    pose proof (bearer_prefixed r0) as Hpre.
    pose proof (bearer_idem r0) as Hid.
    destruct (bearer r0) as [|c t]; [discriminate Hpre|].
    rewrite authHeaders_value. cbv zeta.
    unfold Supervisor.or_else.
    cbn [JsString.truthy Js.or_string String.eqb].
    now rewrite Hid.
Qed.

Lemma authHeaders_bearer_witness :
  Supervisor.authHeaders
    (Some (fun k => if String.eqb k "token" then Some "abc"%string else None))
  = [("Authorization"%string, "Bearer abc"%string)].
Proof.
  refine (proj1 (proj2 (proj2 (proj2 (proj2
            (authHeaders_bearer None)))))
            (fun k => if String.eqb k "token" then Some "abc"%string else None)
            "abc"%string eq_refl _).
  discriminate.
Defined.

(** X18.  The share of late shipments is a whole percentage between 0 and
    100, 0 without response or without rows and 100 when every row is late
    by one of the four signals.  The rows are those of [items], and those
    of [data] only when [items] is missing: an empty [items] array hides
    [data]. *)
Theorem latePct_bounds (eta : option Supervisor.Eta) :
  (0 <= Supervisor.latePct eta <= 100)%Z
  /\ Supervisor.latePct None = 0%Z
  /\ Supervisor.latePct (Some (Supervisor.mkEta None None)) = 0%Z
  /\ (forall d, Supervisor.latePct (Some (Supervisor.mkEta (Some []) d))
                = 0%Z)
  /\ (forall l d d',
        Supervisor.latePct (Some (Supervisor.mkEta (Some l) d))
        = Supervisor.latePct (Some (Supervisor.mkEta (Some l) d')))
  /\ (forall l,
        Supervisor.latePct (Some (Supervisor.mkEta None (Some l)))
        = Supervisor.latePct (Some (Supervisor.mkEta (Some l) None)))
  /\ (forall l d, l <> [] ->
        (forall r, In r l -> Supervisor.late r = true) ->
        Supervisor.latePct (Some (Supervisor.mkEta (Some l) d)) = 100%Z)
  /\ (forall l d,
        (forall r, In r l -> Supervisor.late r = false) ->
        Supervisor.latePct (Some (Supervisor.mkEta (Some l) d)) = 0%Z).
Proof.
  split; [|split; [reflexivity|split; [reflexivity|
    split; [reflexivity|split; [reflexivity|split; [|split]]]]]].
  - destruct eta as [[il dl]|]; [|simpl; lia]. unfold Supervisor.latePct.
    cbn [Supervisor.items Supervisor.data].
    assert (Hrows : forall rows : list Supervisor.Shipment,
      (0 <= (if (0 <? List.length rows)%nat
             then Operators.percent
                    (List.length (filter Supervisor.late rows))
                    (List.length rows)
             else 0) <= 100)%Z).
    { intros rows. destruct (Nat.ltb_spec 0 (List.length rows)); [|lia].
      apply percent_range; [assumption | apply filter_length_le]. }
    destruct il as [l|], dl as [l'|]; try apply Hrows. lia.
  - intros l. destruct l; reflexivity.
  - intros l d Hne Hall. unfold Supervisor.latePct.
    cbn [Supervisor.items Supervisor.data].
    destruct l as [|r t]; [congruence|].
    rewrite (filter_all _ _ Hall).
    destruct d; cbn -[Operators.percent]; apply percent_full; simpl; lia.
  - intros l d Hall. unfold Supervisor.latePct.
    cbn [Supervisor.items Supervisor.data].
    rewrite (filter_none _ _ Hall).
    destruct l, d; cbn -[Operators.percent]; try reflexivity;
      apply percent_none.
Qed.

Lemma latePct_bounds_witness :
  Supervisor.latePct
    (Some (Supervisor.mkEta
             (Some [Supervisor.mkShipment None (Some "LATE"%string) None None])
             None))
  = 100%Z.
Proof.
  refine (proj1 (proj2 (proj2 (proj2 (proj2 (proj2 (proj2
            (latePct_bounds None)))))))
            [Supervisor.mkShipment None (Some "LATE"%string) None None]
            None _ _).
  - discriminate.
  - intros r [<- | []]. reflexivity.
Defined.

(** ** The page *)

(** X19.  Nothing but the login form is rendered before a login and after a
    logout, and a login always lands on a dashboard.  Once logged in,
    navigating to the orders, storage or transport view renders that
    dashboard whatever the profile, while on the "dashboard" view every
    profile other than "commande", "stockage" and "transport" gets the
    supervisor dashboard.  The anchor given to the navigation is looked up
    without one leading "#"; no anchor, or an empty one, scrolls nowhere. *)
Theorem page_routing (st : Index.State) (profile : string)
    (anchor : option string) :
  Index.render Index.initial = Index.LoginForm
  /\ Index.render (Index.handleLogout st) = Index.LoginForm
  /\ Index.render (Index.handleLogin profile st) <> Index.LoginForm
  /\ (Index.isAuthenticated st = true ->
      Index.render (Index.handleNavigate Index.commandes anchor st)
      = Index.CommandesDashboard
      /\ Index.render (Index.handleNavigate Index.stockage anchor st)
         = Index.StockageDashboard
      /\ Index.render (Index.handleNavigate Index.transport anchor st)
         = Index.TransportDashboard)
  /\ (profile <> "commande"%string -> profile <> "stockage"%string ->
      profile <> "transport"%string ->
      Index.render (Index.handleLogin profile st)
      = Index.SupervisorDashboard)
  /\ (forall v s, s <> EmptyString -> JsString.startsWith s "#" = false ->
        Index.anchor_id (Index.handleNavigate v (Some ("#" ++ s)%string) st)
        = Some s
        /\ Index.anchor_id (Index.handleNavigate v (Some s) st) = Some s)
  /\ (forall v, Index.anchor_id (Index.handleNavigate v None st) = None
        /\ Index.anchor_id
             (Index.handleNavigate v (Some EmptyString) st) = None).
Proof.
  split; [reflexivity|]. split; [reflexivity|]. split; [|split; [|split; [|split]]].
  - unfold Index.render, Index.handleLogin, Index.renderDashboard,
      Index.renderSpecializedDashboard.
    cbn [Index.isAuthenticated Index.currentView Index.userProfile].
    repeat match goal with
           | |- context [if String.eqb ?a ?b then _ else _] =>
               destruct (String.eqb a b)
           end; discriminate.
  - intros Hauth. unfold Index.render, Index.handleNavigate.
    cbn [Index.isAuthenticated]. rewrite Hauth. repeat split.
  - intros H1 H2 H3.
    unfold Index.render, Index.handleLogin, Index.renderDashboard,
      Index.renderSpecializedDashboard.
    cbn [Index.isAuthenticated Index.currentView Index.userProfile].
    apply String.eqb_neq in H1, H2, H3. rewrite H1, H2, H3.
    now destruct (String.eqb profile "superviseur").
  - intros v s Hne Hs. unfold Index.anchor_id, Index.handleNavigate.
    cbn [Index.pendingAnchor]. split.
    + destruct s; [congruence | reflexivity].
    + rewrite Hs. destruct s; [congruence | reflexivity].
  - intros v. split; reflexivity.
Qed.

Lemma page_routing_witness :
  Index.render
    (Index.handleNavigate Index.stockage (Some "top5-produits-in-out"%string)
       (Index.handleLogin "superviseur" Index.initial))
  = Index.StockageDashboard.
Proof.
  refine (proj1 (proj2 (proj1 (proj2 (proj2 (proj2
            (page_routing (Index.handleLogin "superviseur" Index.initial)
               "superviseur" (Some "top5-produits-in-out"%string))))) _))).
  reflexivity.
Defined.
